(** * sqlite3_wrapper: a typed access layer over an embedded SQL engine,
      and the versioned schema-migration runner built on it.

    The development follows the sources:
    - [sqlite3_wrapper.h] (C++17, [std::optional]) and its C++11 sibling
      (Boost.Optional): [exception], [type_traits], [statement], [db];
    - [migrations.h]: [migrations::apply_migrations].

    The engine itself (the [sqlite3_*] C functions) is an external
    collaborator.  The wrapper is embedded over an interface [Engine]; a
    small reference engine, which understands exactly the statements the
    runner issues and treats every other text as an opaque schema change,
    is used for the properties of the migration runner. *)

From Stdlib Require Import ZArith String Ascii List Bool Lia DecimalString.
From stdpp Require Import base list.
Import ListNotations.

Local Open Scope string_scope.
Local Open Scope list_scope.
Local Open Scope Z_scope.

(** ** Constants of [sqlite3.h] *)

(** Modelled from the spec: the result codes, column type codes and flags
    of the engine's header [sqlite3.h], which the sources include but do
    not contain.  The values are the engine's. *)

Definition SQLITE_OK : Z := 0.
Definition SQLITE_ERROR : Z := 1.
Definition SQLITE_CONSTRAINT : Z := 19.
Definition SQLITE_MISMATCH : Z := 20.
Definition SQLITE_MISUSE : Z := 21.
Definition SQLITE_RANGE : Z := 25.
Definition SQLITE_ROW : Z := 100.
Definition SQLITE_DONE : Z := 101.

Definition SQLITE_INTEGER : Z := 1.
Definition SQLITE_TEXT : Z := 3.
Definition SQLITE_NULL : Z := 5.

Definition SQLITE_PREPARE_PERSISTENT : Z := 1.

(** The two special destructor values of [sqlite3_bind_text]. *)
Inductive sqlite3_destructor_type := SQLITE_STATIC | SQLITE_TRANSIENT.

(** A null pointer; native handles are modelled as integers. *)
Definition nullptr : Z := 0.

(** The handle an owner releases when it is destroyed: none for a null
    pointer. *)
Definition held (h : Z) : list Z := if h =? nullptr then [] else [h].

(** ** C++ control effects

    A call either returns, throws a [sqlite3_wrapper::exception], or has
    undefined behaviour.  State is threaded explicitly; a throwing call
    keeps the effects it had before the throw. *)

Record exception := { what : string }.

Inductive outcome (A : Type) : Type :=
| Ok (a : A)
| Throw (ex : exception)
| Undefined.
Arguments Ok {A} a.
Arguments Throw {A} ex.
Arguments Undefined {A}.

Definition M (S A : Type) : Type := S -> outcome A * S.

#[global] Instance M_ret (S : Type) : MRet (M S) :=
  fun A a s => (Ok a, s).

#[global] Instance M_bind (S : Type) : MBind (M S) :=
  fun A B f m s =>
    match m s with
    | (Ok a, s') => f a s'
    | (Throw ex, s') => (Throw ex, s')
    | (Undefined, s') => (Undefined, s')
    end.

Definition throw {S A : Type} (ex : S -> exception) : M S A :=
  fun s => (Throw (ex s), s).

Definition is_throw {A : Type} (o : outcome A) : bool :=
  match o with Throw _ => true | _ => false end.

(** ** The engine capability interface *)

(** Modelled from the spec: the functions of [sqlite3.h] the wrapper
    calls (open, close, prepare, finalize, reset, step, the binds, the
    column reads, the error message), with the engine state [E] (database
    contents, compiled statements, last error message) passed explicitly.
    [sqlite3_prepare_v3] and [sqlite3_open_v2] return the status and the
    handle they store through their out parameter; [sqlite3_column_text]
    returns no pointer for a NULL column. *)

Class Engine (E : Type) := {
  sqlite3_open_v2 : string -> Z -> E -> (Z * Z) * E;
  sqlite3_close_v2 : Z -> E -> E;
  sqlite3_errmsg : Z -> E -> string;
  sqlite3_db_handle : Z -> E -> Z;
  sqlite3_prepare_v3 : Z -> string -> Z -> E -> (Z * Z) * E;
  sqlite3_finalize : Z -> E -> E;
  sqlite3_reset : Z -> E -> Z * E;
  sqlite3_step : Z -> E -> Z * E;
  sqlite3_bind_int : Z -> Z -> Z -> E -> Z * E;
  sqlite3_bind_int64 : Z -> Z -> Z -> E -> Z * E;
  sqlite3_bind_text :
    Z -> Z -> string -> Z -> sqlite3_destructor_type -> E -> Z * E;
  sqlite3_bind_null : Z -> Z -> E -> Z * E;
  sqlite3_column_type : Z -> Z -> E -> Z;
  sqlite3_column_int : Z -> Z -> E -> Z;
  sqlite3_column_int64 : Z -> Z -> E -> Z;
  sqlite3_column_text : Z -> Z -> E -> option string;
  sqlite3_column_bytes : Z -> Z -> E -> Z
}.

(** ** The wrapper *)

Inductive bind_policy := STATIC | TRANSIENT.

Definition destructor_of (policy : bind_policy) : sqlite3_destructor_type :=
  match policy with STATIC => SQLITE_STATIC | TRANSIENT => SQLITE_TRANSIENT end.

(** The two headers.  For what is embedded here they differ in the text
    of the exception thrown by a failing [sqlite3_prepare_v3] and in the
    optional type they support.  (The specialisations for [double],
    [char[Size]], and the C++11 ones for [bool], the other integral types
    and enumerations are not needed below; [int] and [ptrdiff_t] resolve
    to the 32-bit and 64-bit integer specialisations in both headers.) *)
Inductive variant := Cpp17 | Cpp11.

(** Value initialisation [T()]. *)
Class DefaultConstructible (T : Type) := value_initialized : T.
#[global] Instance Z_default : DefaultConstructible Z := 0.
#[global] Instance string_default : DefaultConstructible string := "".

(** [boost::optional<T>]; [std::optional<T>] is [option T]. *)
Inductive boost_optional (T : Type) : Type :=
| boost_none
| boost_some (x : T).
Arguments boost_none {T}.
Arguments boost_some {T} x.

Section Wrapper.
Context {E : Type} `{Engine E}.
Variable std : variant.

(** *** [exception] *)

Definition exception_db (db : Z) (e : E) : exception :=
  {| what := sqlite3_errmsg db e |}.

Definition exception_stmt (statement : Z) (e : E) : exception :=
  exception_db (sqlite3_db_handle statement e) e.

Definition exception_sql (sql : string) (db : Z) (e : E) : exception :=
  {| what := String.append "'"
               (String.append sql
                  (String.append "' failed: " (sqlite3_errmsg db e))) |}.

(** *** [type_traits<T>]

    A specialisation provides [bind], [column] or both. *)

Record bind_traits (T : Type) := {
  bind : Z -> Z -> T -> bind_policy -> E -> Z * E
}.

Record column_traits (T : Type) := {
  column : Z -> Z -> T -> M E T
}.

Arguments bind {T} _ _ _ _ _ _.
Arguments column {T} _ _ _ _ _.

(** [type_traits<int32_t>] *)
Definition int32_t_bind : bind_traits Z :=
  {| bind statement index arg _ := sqlite3_bind_int statement index arg |}.

Definition int32_t_column : column_traits Z :=
  {| column statement col _ e := (Ok (sqlite3_column_int statement col e), e) |}.

(** [type_traits<int64_t>] *)
Definition int64_t_bind : bind_traits Z :=
  {| bind statement index arg _ := sqlite3_bind_int64 statement index arg |}.

Definition int64_t_column : column_traits Z :=
  {| column statement col _ e := (Ok (sqlite3_column_int64 statement col e), e) |}.

(** [type_traits<const char *>] has no [column]. *)
Definition c_str_bind : bind_traits string :=
  {| bind statement index arg policy :=
       sqlite3_bind_text statement index arg (-1) (destructor_of policy) |}.

(** [type_traits<std::string>] *)
Definition string_bind : bind_traits string :=
  {| bind statement index arg policy :=
       sqlite3_bind_text statement index arg
         (Z.of_nat (String.length arg)) (destructor_of policy) |}.

Definition string_assign (data : option string) (size : Z) : string :=
  match data with
  | Some s => substring 0 (Z.to_nat size) s
  | None => ""
  end.

Definition string_column : column_traits string :=
  {| column statement col _ e :=
       let data := sqlite3_column_text statement col e in
       let size := sqlite3_column_bytes statement col e in
       (Ok (string_assign data size), e) |}.

(** [type_traits<std::nullptr_t>] has no [column]. *)
Definition nullptr_t_bind : bind_traits unit :=
  {| bind statement index _ _ := sqlite3_bind_null statement index |}.

(** [type_traits<std::optional<T>>] *)
Definition optional_bind {T} (tr : bind_traits T) : bind_traits (option T) :=
  {| bind statement index arg policy :=
       match arg with
       | Some x => bind tr statement index x policy
       | None => sqlite3_bind_null statement index
       end |}.

Definition optional_column {T} `{DefaultConstructible T}
    (tr : column_traits T) : column_traits (option T) :=
  {| column statement col arg e :=
       if negb (sqlite3_column_type statement col e =? SQLITE_NULL)
       then (x ← column tr statement col value_initialized; mret (Some x)) e
       else (Ok None, e) |}.

(** [type_traits<boost::optional<T>>]: a non-NULL column is read
    through [*arg]; dereferencing an empty optional is undefined. *)
Definition boost_optional_bind {T} (tr : bind_traits T)
    : bind_traits (boost_optional T) :=
  {| bind statement index arg policy :=
       match arg with
       | boost_some x => bind tr statement index x policy
       | boost_none => sqlite3_bind_null statement index
       end |}.

Definition boost_deref {T} (arg : boost_optional T) : M E T :=
  fun e => match arg with
           | boost_some x => (Ok x, e)
           | boost_none => (Undefined, e)
           end.

Definition boost_optional_column {T} (tr : column_traits T)
    : column_traits (boost_optional T) :=
  {| column statement col arg e :=
       if sqlite3_column_type statement col e =? SQLITE_NULL
       then (Ok boost_none, e)
       else (r ← boost_deref arg;
             x ← column tr statement col r;
             mret (boost_some x)) e |}.

(** Parameter packs: the arguments of [execute] and of [fetch], each
    with the specialisation its static type selects. *)
Inductive bind_args : Type :=
| bnil
| bcons {T : Type} (tr : bind_traits T) (arg : T) (args : bind_args).

Inductive column_args : list Type -> Type :=
| cnil : column_args []
| ccons {T : Type} {Ts : list Type}
    (tr : column_traits T) (arg : T) (args : column_args Ts)
    : column_args (T :: Ts).

Definition chead {T Ts} (args : column_args (T :: Ts)) : T :=
  match args in column_args l
        return match l with [] => unit | T :: _ => T end with
  | cnil => tt
  | ccons _ arg _ => arg
  end.

(** *** [statement] *)

Record statement := { _can_fetch : bool; _statement : Z }.

(** A method runs on [*this] and the engine. *)
Definition method (A : Type) : Type := M (statement * E) A.

Definition this_statement : method Z :=
  fun '(s, e) => (Ok (_statement s), (s, e)).

Definition get_can_fetch : method bool :=
  fun '(s, e) => (Ok (_can_fetch s), (s, e)).

Definition set_can_fetch (b : bool) : method unit :=
  fun '(s, e) => (Ok tt, ({| _can_fetch := b; _statement := _statement s |}, e)).

Definition engine_call {A} (f : E -> A * E) : method A :=
  fun '(s, e) => let '(a, e') := f e in (Ok a, (s, e')).

Definition engine_read {A} (m : M E A) : method A :=
  fun '(s, e) => let '(a, e') := m e in (a, (s, e')).

Definition throw_statement {A} : method A :=
  throw (fun '(s, e) => exception_stmt (_statement s) e).

Definition statement_ctor (db : Z) (sql : string) (prepare_flags : Z)
    : M E statement :=
  fun e =>
    let '(res, st, e1) := sqlite3_prepare_v3 db sql prepare_flags e in
    if negb (res =? SQLITE_OK)
    then (Throw (match std with
                 | Cpp17 => exception_db db e1
                 | Cpp11 => exception_sql sql db e1
                 end), e1)
    else (Ok {| _can_fetch := false; _statement := st |}, e1).

Definition statement_move_ctor (another : statement) : statement * statement :=
  let this := {| _can_fetch := false; _statement := nullptr |} in
  ({| _can_fetch := _can_fetch another; _statement := _statement another |},
   {| _can_fetch := _can_fetch this; _statement := _statement this |}).

Definition statement_move_assign (this another : statement)
    : statement * statement :=
  ({| _can_fetch := _can_fetch another; _statement := _statement another |},
   {| _can_fetch := _can_fetch this; _statement := _statement this |}).

Definition statement_dtor (this : statement) (e : E) : E :=
  if negb (_statement this =? nullptr)
  then sqlite3_finalize (_statement this) e
  else e.

Definition statement_reset : method unit :=
  st ← this_statement;
  res ← engine_call (sqlite3_reset st);
  if negb (res =? SQLITE_OK) then throw_statement else mret tt.

Definition statement_step : method unit :=
  st ← this_statement;
  res ← engine_call (sqlite3_step st);
  if negb (res =? SQLITE_ROW) && negb (res =? SQLITE_DONE)
  then throw_statement
  else set_can_fetch (res =? SQLITE_ROW).

Fixpoint statement_bind (Index : Z) (policy : bind_policy) (args : bind_args)
    : method unit :=
  match args with
  | bnil => mret tt
  | bcons tr arg args =>
      st ← this_statement;
      res ← engine_call (bind tr st Index arg policy);
      if negb (res =? SQLITE_OK) then throw_statement
      else statement_bind (Index + 1) policy args
  end.

Fixpoint statement_column {Ts} (Column : Z) (args : column_args Ts)
    : method (column_args Ts) :=
  match args in column_args l return method (column_args l) with
  | cnil => mret cnil
  | ccons tr arg args =>
      st ← this_statement;
      arg' ← engine_read (column tr st Column arg);
      args' ← statement_column (Column + 1) args;
      mret (ccons tr arg' args')
  end.

Definition statement_execute_policy (policy : bind_policy) (args : bind_args)
    : method unit :=
  statement_reset;;
  statement_bind 1 policy args;;
  statement_step.

Definition statement_execute (args : bind_args) : method unit :=
  statement_reset;;
  statement_bind 1 TRANSIENT args;;
  statement_step.

Definition statement_fetch {Ts} (args : column_args Ts)
    : method (bool * column_args Ts) :=
  can ← get_can_fetch;
  (if negb can then statement_step else mret tt);;
  can ← get_can_fetch;
  if (can : bool) return method (bool * column_args Ts)
  then
    args' ← statement_column 0 args;
    set_can_fetch false;;
    mret (true, args')
  else mret (false, args).

(** Scope of a local [statement]: the method runs on it and its
    destructor runs when the scope is left, by return or by unwinding. *)
Definition with_statement {A} (s : statement) (m : method A) : M E A :=
  fun e =>
    match m (s, e) with
    | (Ok a, (s', e')) => (Ok a, statement_dtor s' e')
    | (Throw ex, (s', e')) => (Throw ex, statement_dtor s' e')
    | (Undefined, (_, e')) => (Undefined, e')
    end.

(** A temporary [statement] that is dropped at the end of the full
    expression. *)
Definition discard (s : statement) : M E unit :=
  fun e => (Ok tt, statement_dtor s e).

(** *** [db] *)

Inductive transaction_type := DEFERRED | IMMEDIATE | EXCLUSIVE.

Record db := { _db : Z }.

Definition SQLITE_OPEN_READWRITE : Z := 2.
Definition SQLITE_OPEN_CREATE : Z := 4.

Definition db_ctor (filename : string) (flags : Z) : M E db :=
  fun e =>
    let '(res, h, e1) := sqlite3_open_v2 filename flags e in
    if negb (res =? SQLITE_OK)
    then let e2 := sqlite3_close_v2 h e1 in (Throw (exception_db h e2), e2)
    else (Ok {| _db := h |}, e1).

Definition db_move_ctor (another : db) : db * db :=
  let this := {| _db := nullptr |} in
  ({| _db := _db another |}, {| _db := _db this |}).

Definition db_move_assign (this another : db) : db * db :=
  ({| _db := _db another |}, {| _db := _db this |}).

Definition db_dtor (this : db) (e : E) : E :=
  if negb (_db this =? nullptr) then sqlite3_close_v2 (_db this) e else e.

Definition native_handle (this : db) : Z := _db this.

Definition db_prepare (this : db) (sql : string) (prepare_flags : Z)
    : M E statement :=
  statement_ctor (_db this) sql prepare_flags.

Definition db_execute (this : db) (sql : string) (args : bind_args)
    : M E statement :=
  fun e =>
    match statement_ctor (_db this) sql 0 e with
    | (Ok s, e1) =>
        match statement_execute args (s, e1) with
        | (Ok _, (s', e2)) => (Ok s', e2)
        | (Throw ex, (s', e2)) => (Throw ex, statement_dtor s' e2)
        | (Undefined, (_, e2)) => (Undefined, e2)
        end
    | (Throw ex, e1) => (Throw ex, e1)
    | (Undefined, e1) => (Undefined, e1)
    end.

Definition db_begin (this : db) (type : transaction_type) : M E unit :=
  match type with
  | DEFERRED =>
      s ← db_execute this "BEGIN DEFERRED TRANSACTION" bnil; discard s
  | IMMEDIATE =>
      s ← db_execute this "BEGIN IMMEDIATE TRANSACTION" bnil; discard s
  | EXCLUSIVE =>
      s ← db_execute this "BEGIN EXCLUSIVE TRANSACTION" bnil; discard s
  end.

Definition db_commit (this : db) : M E unit :=
  s ← db_execute this "COMMIT TRANSACTION" bnil; discard s.

Definition db_rollback (this : db) : M E unit :=
  s ← db_execute this "ROLLBACK TRANSACTION" bnil; discard s.

(** *** [migrations] *)

Definition sql_create_version_info : string :=
  "
                CREATE TABLE IF NOT EXISTS VersionInfo
                (
                    Version INTEGER NOT NULL,
                    AppliedOn DATETIME,
                    Description TEXT
                )
            ".

Definition sql_max_version : string :=
  "
                SELECT MAX(Version)
                FROM VersionInfo
            ".

Definition sql_insert_version : string :=
  "
                        INSERT INTO VersionInfo(Version, AppliedOn)
                        VALUES (?, datetime('now'))
                    ".

Definition create_version_info_table (d : db) : M E unit :=
  s ← db_execute d sql_create_version_info bnil; discard s.

Definition get_last_applied_version (d : db) : M E Z :=
  statement ← db_execute d sql_max_version bnil;
  with_statement statement
    (let last_version := 0 in
     r ← statement_fetch (ccons int32_t_column last_version cnil);
     mret (chead (snd r))).

(** Conversion of an [int] to [size_t] in [migrations.size() > last_version]. *)
Definition to_size_t (v : Z) : Z := v mod 2 ^ 64.

(** The loop body, with [distance = std::distance(migrations.begin(), it)]. *)
Fixpoint apply_each (d : db) (distance : Z) (its : list string) : M E unit :=
  match its with
  | [] => mret tt
  | it :: its =>
      (s ← db_execute d it bnil; discard s);;
      (s ← db_execute d sql_insert_version
             (bcons int64_t_bind (distance + 1) bnil);
       discard s);;
      apply_each d (distance + 1) its
  end.

Definition apply_migrations (d : db) (migrations : list string) : M E unit :=
  create_version_info_table d;;
  last_version ← get_last_applied_version d;
  if to_size_t last_version <? Z.of_nat (length migrations)
  then
    db_begin d DEFERRED;;
    apply_each d last_version (drop (Z.to_nat last_version) migrations);;
    db_commit d
  else mret tt.

End Wrapper.

Arguments bind {E T} _ _ _ _ _ _.
Arguments column {E T} _ _ _ _ _.
Arguments bnil {E}.
Arguments cnil {E}.

(** ** A reference engine *)

(** Modelled from the spec: an engine behind the capability interface,
    with the behaviour the wrapper and the runner rely on.  One
    connection over one database.  The database holds the version ledger
    and the application schema; the schema and the effect of a migration
    body on it are left open ([SchemaModel]): a body is any text that is
    not one of the statements below, it may be rejected when compiled or
    fail when run, and it changes neither the ledger rows nor the
    transaction state, though the schema it leaves may reject later ledger
    inserts.  A failing statement changes nothing and leaves an open
    transaction open; a statement that has finished is run again by the
    next step; reading a NULL column as an integer gives 0. *)

Inductive value := Null | Integer (z : Z) | Text (s : string).

Record ledger_row := {
  Version : Z;
  AppliedOn : value;
  Description : value
}.

Inductive sql_kind :=
| KBegin | KCommit | KRollback
| KCreateVersionInfo | KMaxVersion | KInsertVersion
| KSelectParam
| KOther.

Definition sql_select_param : string := "SELECT ?".

Definition classify (sql : string) : sql_kind :=
  if (sql =? "BEGIN DEFERRED TRANSACTION")%string
     || (sql =? "BEGIN IMMEDIATE TRANSACTION")%string
     || (sql =? "BEGIN EXCLUSIVE TRANSACTION")%string then KBegin
  else if (sql =? "COMMIT TRANSACTION")%string then KCommit
  else if (sql =? "ROLLBACK TRANSACTION")%string then KRollback
  else if (sql =? sql_create_version_info)%string then KCreateVersionInfo
  else if (sql =? sql_max_version)%string then KMaxVersion
  else if (sql =? sql_insert_version)%string then KInsertVersion
  else if (sql =? sql_select_param)%string then KSelectParam
  else KOther.

Definition parameter_count (k : sql_kind) : nat :=
  match k with
  | KInsertVersion | KSelectParam => 1
  | _ => 0
  end.

Inductive cursor :=
| Ready
| HasRow (r : list value)
| Done
| Failed (rc : Z).

Record stmt := {
  text : string;
  params : list value;
  position : cursor
}.

Record event := { ev_sql : string; ev_params : list value; ev_rc : Z }.

Definition wrap32 (z : Z) : Z := (z + 2 ^ 31) mod 2 ^ 32 - 2 ^ 31.
Definition wrap64 (z : Z) : Z := (z + 2 ^ 63) mod 2 ^ 64 - 2 ^ 63.

Definition digit_of (c : ascii) : option Z :=
  let n := Z.of_nat (nat_of_ascii c) in
  if (48 <=? n) && (n <=? 57) then Some (n - 48) else None.

Fixpoint digits_prefix (s : string) (acc : Z) : Z :=
  match s with
  | String c r =>
      match digit_of c with
      | Some d => digits_prefix r (acc * 10 + d)
      | None => acc
      end
  | EmptyString => acc
  end.

Definition text_to_int (s : string) : Z :=
  match s with
  | String "-" r => - digits_prefix r 0
  | String "+" r => digits_prefix r 0
  | _ => digits_prefix s 0
  end.

Definition value_to_int (v : value) : Z :=
  match v with
  | Null => 0
  | Integer z => z
  | Text s => text_to_int s
  end.

Definition value_to_text (v : value) : option string :=
  match v with
  | Null => None
  | Integer z => Some (NilZero.string_of_int (Z.to_int z))
  | Text s => Some s
  end.

Definition value_type (v : value) : Z :=
  match v with
  | Null => SQLITE_NULL
  | Integer _ => SQLITE_INTEGER
  | Text _ => SQLITE_TEXT
  end.

(** Modelled from the spec: [MAX(Version)] over the ledger, one row, NULL
    when the table is empty. *)
Definition max_version (rows : list ledger_row) : value :=
  match rows with
  | [] => Null
  | r :: rows => Integer (fold_left Z.max (map Version rows) (Version r))
  end.

(** The version the runner reads back: 0 for an empty ledger. *)
Definition current_version (rows : list ledger_row) : Z :=
  value_to_int (max_version rows).

(** What the application schema is, which bodies compile, what a body
    does to the schema when it runs ([None]: it fails), and whether the
    schema lets a ledger row with a given version be inserted (a body may
    have put a constraint or a trigger on the ledger table). *)
Class SchemaModel (Schema : Type) := {
  compiles : string -> bool;
  run_body : string -> Schema -> option Schema;
  accepts_version : Schema -> Z -> bool
}.

Section Reference.
Context {Schema : Type} `{SchemaModel Schema}.

Record database := {
  ledger : option (list ledger_row);
  schema : Schema
}.

(** [saved] is the snapshot a rollback returns to; it is present exactly
    while a transaction is open. *)
Record connection := {
  current : database;
  saved : option database;
  log : list event;
  errmsg : string;
  now : string
}.

Record engine := {
  conn : connection;
  stmts : list (option stmt);
  finalized : list Z;
  closed : list Z
}.

Definition the_connection : Z := 1.

(** What a reopened connection would see. *)
Definition committed (c : connection) : database :=
  match saved c with
  | Some d => d
  | None => current c
  end.

Definition in_transaction (c : connection) : bool :=
  match saved c with Some _ => true | None => false end.

Definition set_current (d : database) (c : connection) : connection :=
  {| current := d; saved := saved c; log := log c;
     errmsg := errmsg c; now := now c |}.

Definition set_saved (o : option database) (c : connection) : connection :=
  {| current := current c; saved := o; log := log c;
     errmsg := errmsg c; now := now c |}.

Definition set_errmsg (msg : string) (c : connection) : connection :=
  {| current := current c; saved := saved c; log := log c;
     errmsg := msg; now := now c |}.

Definition add_log (ev : event) (c : connection) : connection :=
  {| current := current c; saved := saved c; log := log c ++ [ev];
     errmsg := errmsg c; now := now c |}.

Definition set_conn (c : connection) (e : engine) : engine :=
  {| conn := c; stmts := stmts e;
     finalized := finalized e; closed := closed e |}.

Definition set_stmts (l : list (option stmt)) (e : engine) : engine :=
  {| conn := conn e; stmts := l;
     finalized := finalized e; closed := closed e |}.

Definition slot (h : Z) : nat := Z.to_nat (h - 1).

Definition stmt_at (h : Z) (e : engine) : option stmt :=
  if h <=? 0 then None
  else match stmts e !! slot h with
       | Some (Some s) => Some s
       | _ => None
       end.

Definition set_stmt (h : Z) (s : stmt) (e : engine) : engine :=
  set_stmts (<[slot h := Some s]> (stmts e)) e.

Definition fresh_handle (e : engine) : Z := Z.of_nat (length (stmts e)) + 1.

Definition with_position (p : cursor) (s : stmt) : stmt :=
  {| text := text s; params := params s; position := p |}.

Definition with_params (l : list value) (s : stmt) : stmt :=
  {| text := text s; params := l; position := position s |}.

Definition new_stmt (sql : string) : stmt :=
  {| text := sql;
     params := replicate (parameter_count (classify sql)) Null;
     position := Ready |}.

(** Compilation resolves the names a statement uses. *)
Definition compile_error (sql : string) (c : connection) : option string :=
  match classify sql with
  | KMaxVersion | KInsertVersion =>
      match ledger (current c) with
      | None => Some "no such table: VersionInfo"
      | Some _ => None
      end
  | KOther => if compiles sql then None else Some "syntax error"
  | _ => None
  end.

Definition ref_prepare (db : Z) (sql : string) (flags : Z) (e : engine)
    : (Z * Z) * engine :=
  match compile_error sql (conn e) with
  | Some msg => ((SQLITE_ERROR, nullptr), set_conn (set_errmsg msg (conn e)) e)
  | None =>
      ((SQLITE_OK, fresh_handle e), set_stmts (stmts e ++ [Some (new_stmt sql)]) e)
  end.

Definition ref_finalize (h : Z) (e : engine) : engine :=
  if h =? nullptr then e
  else {| conn := conn e;
          stmts := <[slot h := None]> (stmts e);
          finalized := finalized e ++ [h];
          closed := closed e |}.

(** One run of a statement: the result code, the row produced and the
    connection afterwards. *)
Definition failure (rc : Z) (msg : string) (c : connection)
    : Z * option (list value) * connection :=
  (rc, None, set_errmsg msg c).

Definition run (s : stmt) (c : connection)
    : Z * option (list value) * connection :=
  match classify (text s) with
  | KBegin =>
      match saved c with
      | Some _ =>
          failure SQLITE_ERROR
            "cannot start a transaction within a transaction" c
      | None => (SQLITE_DONE, None, set_saved (Some (current c)) c)
      end
  | KCommit =>
      match saved c with
      | Some _ => (SQLITE_DONE, None, set_saved None c)
      | None =>
          failure SQLITE_ERROR "cannot commit - no transaction is active" c
      end
  | KRollback =>
      match saved c with
      | Some d => (SQLITE_DONE, None, set_saved None (set_current d c))
      | None =>
          failure SQLITE_ERROR "cannot rollback - no transaction is active" c
      end
  | KCreateVersionInfo =>
      match ledger (current c) with
      | Some _ => (SQLITE_DONE, None, c)
      | None =>
          (SQLITE_DONE, None,
           set_current {| ledger := Some []; schema := schema (current c) |} c)
      end
  | KMaxVersion =>
      match ledger (current c) with
      | Some rows => (SQLITE_ROW, Some [max_version rows], c)
      | None => failure SQLITE_ERROR "no such table: VersionInfo" c
      end
  | KInsertVersion =>
      match ledger (current c) with
      | Some rows =>
          match params s with
          | [Integer v] =>
              if accepts_version (schema (current c)) v
              then
                (SQLITE_DONE, None,
                 set_current
                   {| ledger :=
                        Some (rows ++ [{| Version := v;
                                          AppliedOn := Text (now c);
                                          Description := Null |}]);
                      schema := schema (current c) |} c)
              else failure SQLITE_CONSTRAINT "constraint failed" c
          | [Null] =>
              failure SQLITE_CONSTRAINT
                "NOT NULL constraint failed: VersionInfo.Version" c
          | _ => failure SQLITE_MISMATCH "datatype mismatch" c
          end
      | None => failure SQLITE_ERROR "no such table: VersionInfo" c
      end
  | KSelectParam => (SQLITE_ROW, Some (params s), c)
  | KOther =>
      match run_body (text s) (schema (current c)) with
      | Some sch =>
          (SQLITE_DONE, None,
           set_current {| ledger := ledger (current c); schema := sch |} c)
      | None => failure SQLITE_ERROR "SQL logic error" c
      end
  end.

(** Every run is recorded in the log with its result code. *)
Definition run_logged (s : stmt) (c : connection)
    : Z * option (list value) * connection :=
  let '(rc, row, c') := run s c in
  (rc, row,
   add_log {| ev_sql := text s; ev_params := params s; ev_rc := rc |} c').

Definition position_after (rc : Z) (row : option (list value)) : cursor :=
  match row with
  | Some r => HasRow r
  | None => if rc =? SQLITE_DONE then Done else Failed rc
  end.

(** A statement that is not on a row is run (again, if it had finished);
    every result set here has one row. *)
Definition ref_step (h : Z) (e : engine) : Z * engine :=
  match stmt_at h e with
  | None => (SQLITE_MISUSE, e)
  | Some s =>
      match position s with
      | HasRow _ => (SQLITE_DONE, set_stmt h (with_position Done s) e)
      | _ =>
          let '(rc, row, c) := run_logged s (conn e) in
          (rc, set_stmt h (with_position (position_after rc row) s)
                 (set_conn c e))
      end
  end.

Definition ref_reset (h : Z) (e : engine) : Z * engine :=
  match stmt_at h e with
  | None => (SQLITE_MISUSE, e)
  | Some s =>
      (match position s with Failed rc => rc | _ => SQLITE_OK end,
       set_stmt h (with_position Ready s) e)
  end.

Definition ref_bind (h : Z) (index : Z) (v : value) (e : engine) : Z * engine :=
  match stmt_at h e with
  | None => (SQLITE_MISUSE, e)
  | Some s =>
      match position s with
      | Ready =>
          if (1 <=? index) && (index <=? Z.of_nat (length (params s)))
          then (SQLITE_OK,
                set_stmt h (with_params (<[Z.to_nat (index - 1) := v]> (params s)) s) e)
          else (SQLITE_RANGE, e)
      | _ => (SQLITE_MISUSE, e)
      end
  end.

Definition bound_text (data : string) (n : Z) : string :=
  if n <? 0 then data else substring 0 (Z.to_nat n) data.

Definition column_value (h : Z) (col : Z) (e : engine) : value :=
  match stmt_at h e with
  | Some s =>
      match position s with
      | HasRow r => if col <? 0 then Null else nth (Z.to_nat col) r Null
      | _ => Null
      end
  | None => Null
  end.

Definition ref_open (filename : string) (flags : Z) (e : engine)
    : (Z * Z) * engine :=
  ((SQLITE_OK, the_connection), e).

(** Closing gives up an open transaction. *)
Definition ref_close (h : Z) (e : engine) : engine :=
  if h =? nullptr then e
  else {| conn := set_saved None (set_current (committed (conn e)) (conn e));
          stmts := stmts e;
          finalized := finalized e;
          closed := closed e ++ [h] |}.

#[global] Instance reference_engine : Engine engine := {
  sqlite3_open_v2 := ref_open;
  sqlite3_close_v2 := ref_close;
  sqlite3_errmsg _ e := errmsg (conn e);
  sqlite3_db_handle _ _ := the_connection;
  sqlite3_prepare_v3 := ref_prepare;
  sqlite3_finalize := ref_finalize;
  sqlite3_reset := ref_reset;
  sqlite3_step := ref_step;
  sqlite3_bind_int h i v := ref_bind h i (Integer v);
  sqlite3_bind_int64 h i v := ref_bind h i (Integer v);
  sqlite3_bind_text h i data n _ := ref_bind h i (Text (bound_text data n));
  sqlite3_bind_null h i := ref_bind h i Null;
  sqlite3_column_type h col e := value_type (column_value h col e);
  sqlite3_column_int h col e := wrap32 (value_to_int (column_value h col e));
  sqlite3_column_int64 h col e := wrap64 (value_to_int (column_value h col e));
  sqlite3_column_text h col e := value_to_text (column_value h col e);
  sqlite3_column_bytes h col e :=
    match value_to_text (column_value h col e) with
    | Some s => Z.of_nat (String.length s)
    | None => 0
    end
}.

(** *** Views used to state what a call leaves behind *)

(** The engine [e] with connection [c] and one more statement slot,
    holding [o]; its handle is [fresh_handle e]. *)
Definition compiled (o : option stmt) (c : connection) (e : engine) : engine :=
  {| conn := c; stmts := stmts e ++ [o];
     finalized := finalized e; closed := closed e |}.

(** The same once that statement is finalized. *)
Definition retired (c : connection) (e : engine) : engine :=
  {| conn := c; stmts := stmts e ++ [None];
     finalized := finalized e ++ [fresh_handle e]; closed := closed e |}.

(** A statement compiled from [sql], bound to [ps] and run once. *)
Definition one_shot (sql : string) (ps : list value) (c : connection)
    : Z * option (list value) * connection :=
  run_logged {| text := sql; params := ps; position := Ready |} c.

Definition stepped (rc : Z) : bool := (rc =? SQLITE_ROW) || (rc =? SQLITE_DONE).

(** The schema after the bodies [ms] ran in order, each followed by the
    insert of its version ([from + 1], [from + 2], ...), if no body failed
    and no insert was rejected. *)
Fixpoint run_bodies (from : Z) (ms : list string) (sch : Schema)
    : option Schema :=
  match ms with
  | [] => Some sch
  | m :: ms =>
      match run_body m sch with
      | Some sch' =>
          if accepts_version sch' (from + 1)
          then run_bodies (from + 1) ms sch'
          else None
      | None => None
      end
  end.

(** The body [bad], run on [sch] and recorded as [version], fails: it
    does not compile, it fails when run, or its ledger insert is
    rejected. *)
Definition fails_at (bad : string) (sch : Schema) (version : Z) : bool :=
  negb (compiles bad)
  || match run_body bad sch with
     | Some sch' => negb (accepts_version sch' version)
     | None => true
     end.

(** The schema in place when that failure is raised. *)
Definition schema_at_failure (bad : string) (sch : Schema) : Schema :=
  if compiles bad
  then match run_body bad sch with
       | Some sch' => sch'
       | None => sch
       end
  else sch.

(** A body the engine accepts: it is none of the statements the engine
    interprets itself, and it compiles. *)
Definition plain (m : string) : bool :=
  match classify m with
  | KOther => compiles m
  | _ => false
  end.

(** The ledger rows for the versions [from + 1 .. from + n]. *)
Fixpoint ledger_rows (at_time : string) (from : Z) (n : nat) : list ledger_row :=
  match n with
  | O => []
  | S n =>
      {| Version := from + 1; AppliedOn := Text at_time; Description := Null |}
      :: ledger_rows at_time (from + 1) n
  end.

Definition done (sql : string) (ps : list value) : event :=
  {| ev_sql := sql; ev_params := ps; ev_rc := SQLITE_DONE |}.

Definition yielded (sql : string) (ps : list value) : event :=
  {| ev_sql := sql; ev_params := ps; ev_rc := SQLITE_ROW |}.

Definition failed (sql : string) (ps : list value) (rc : Z) : event :=
  {| ev_sql := sql; ev_params := ps; ev_rc := rc |}.

(** What the failing step of a loop adds to the log. *)
Definition failure_events (bad : string) (sch : Schema) (version : Z)
    : list event :=
  if compiles bad
  then match run_body bad sch with
       | Some _ =>
           [done bad [];
            failed sql_insert_version [Integer version] SQLITE_CONSTRAINT]
       | None => [failed bad [] SQLITE_ERROR]
       end
  else [].

(** The rows of the ledger table, none if the table is absent. *)
Definition ledger_or_empty (d : database) : list ledger_row :=
  match ledger d with
  | Some rows => rows
  | None => []
  end.

(** The log of a loop over [ms] that starts at distance [from]: each body,
    then its ledger insert. *)
Fixpoint body_events (from : Z) (ms : list string) : list event :=
  match ms with
  | [] => []
  | m :: ms =>
      done m [] :: done sql_insert_version [Integer (from + 1)]
      :: body_events (from + 1) ms
  end.

Definition executed_sql (l : list event) : list string := map ev_sql l.

End Reference.

Arguments database Schema : clear implicits.
Arguments connection Schema : clear implicits.
Arguments engine Schema : clear implicits.

(** ** Statuses reported while binding a parameter pack *)

Section BindStatus.
Context {E : Type} `{Engine E}.

(** Every bind of the pack reports [SQLITE_OK]. *)
Inductive binds_ok (st : Z) (policy : bind_policy)
  : Z -> bind_args (E := E) -> E -> E -> Prop :=
| binds_ok_nil Index e : binds_ok st policy Index bnil e e
| binds_ok_cons Index T (tr : bind_traits T) arg args e e1 e2 :
    bind tr st Index arg policy e = (SQLITE_OK, e1) ->
    binds_ok st policy (Index + 1) args e1 e2 ->
    binds_ok st policy Index (bcons tr arg args) e e2.

(** Some bind of the pack reports a status other than [SQLITE_OK]; the
    binds before it succeeded and the ones after it are not attempted. *)
Inductive bind_fails (st : Z) (policy : bind_policy)
  : Z -> bind_args (E := E) -> E -> E -> Prop :=
| bind_fails_here Index T (tr : bind_traits T) arg args e rc e1 :
    bind tr st Index arg policy e = (rc, e1) ->
    rc <> SQLITE_OK ->
    bind_fails st policy Index (bcons tr arg args) e e1
| bind_fails_later Index T (tr : bind_traits T) arg args e e1 e2 :
    bind tr st Index arg policy e = (SQLITE_OK, e1) ->
    bind_fails st policy (Index + 1) args e1 e2 ->
    bind_fails st policy Index (bcons tr arg args) e e2.

End BindStatus.

(** ** A concrete schema model, for examples

    The schema is the list of the bodies applied so far; a body fails to
    compile when it is the text [not sql] and fails to run when it was
    applied before; once [CREATE TRIGGER lock_ledger] was applied the
    ledger takes no more rows. *)

Definition demo_compiles (m : string) : bool := negb (m =? "not sql")%string.

Definition demo_run_body (m : string) (s : list string) : option (list string) :=
  if existsb (String.eqb m) s then None else Some (s ++ [m]).

Definition demo_accepts_version (s : list string) (v : Z) : bool :=
  negb (existsb (String.eqb "CREATE TRIGGER lock_ledger") s).

#[global] Instance demo_model : SchemaModel (list string) := {
  compiles := demo_compiles;
  run_body := demo_run_body;
  accepts_version := demo_accepts_version
}.

Definition demo_connection (d : database (list string))
    : connection (list string) :=
  {| current := d; saved := None; log := [];
     errmsg := ""; now := "2024-05-01 12:00:00" |}.

(** A new database file: no ledger table, empty schema. *)
Definition demo_fresh : engine (list string) :=
  {| conn := demo_connection {| ledger := None; schema := [] |};
     stmts := []; finalized := []; closed := [] |}.

(** A database whose ledger table exists and is empty. *)
Definition demo_empty_ledger : engine (list string) :=
  {| conn := demo_connection {| ledger := Some []; schema := [] |};
     stmts := []; finalized := []; closed := [] |}.

Definition demo_db : db := {| _db := 1 |}.

(** The statement and the engine after a one-shot [db::execute]. *)
Definition demo_execute (sql : string) (args : bind_args)
    (e : engine (list string)) : statement * engine (list string) :=
  match db_execute Cpp17 demo_db sql args e with
  | (Ok s, e') => (s, e')
  | (_, e') => ({| _can_fetch := false; _statement := nullptr |}, e')
  end.

(** [SELECT MAX(Version)] on an empty ledger: its row is pending. *)
Definition demo_pending : statement * engine (list string) :=
  demo_execute sql_max_version bnil demo_empty_ledger.

(** [CREATE TABLE IF NOT EXISTS] ran to completion: no row. *)
Definition demo_done : statement * engine (list string) :=
  demo_execute sql_create_version_info bnil demo_fresh.

(** [SELECT ?] with the parameter bound to 42: its row is pending. *)
Definition demo_row : statement * engine (list string) :=
  demo_execute sql_select_param
    (bcons (int32_t_bind) 42 bnil) demo_fresh.

(** One [int] argument for execute, one [int] output for fetch. *)
Definition demo_five : bind_args :=
  bcons (int32_t_bind) 5 bnil.

Definition demo_out (v : Z) : column_args [Z : Type] :=
  ccons (int32_t_column) v cnil.

(** The pending row of [demo_pending] was fetched: its rows are all
    consumed. *)
Definition demo_consumed : statement * engine (list string) :=
  snd (statement_fetch (demo_out 7) demo_pending).

(** Migration lists. *)
Definition demo_abc : list string :=
  ["CREATE TABLE a"; "CREATE TABLE b"; "CREATE TABLE c"].

Definition demo_abcd : list string :=
  ["CREATE TABLE a"; "CREATE TABLE b"; "CREATE TABLE c"; "CREATE TABLE d"].

Definition demo_a_bad_c : list string :=
  ["CREATE TABLE a"; "not sql"; "CREATE TABLE c"].

Definition demo_a_lock_c : list string :=
  ["CREATE TABLE a"; "CREATE TRIGGER lock_ledger"; "CREATE TABLE c"].

(** The engine after [demo_abc] was applied to the new database. *)
Definition demo_after_abc : engine (list string) :=
  snd (apply_migrations Cpp17 demo_db demo_abc demo_fresh).

Definition demo_row_at (v : Z) : ledger_row :=
  {| Version := v; AppliedOn := Text "2024-05-01 12:00:00";
     Description := Null |}.

(** ** Further specialisations of [type_traits]

    The C++11 header has specialisations for [bool], for the integral
    types by storage width, and for enumerations; both headers have one
    for [char[Size]]. *)

(** A C++ integral type, by width and signedness; [static_cast] to it
    keeps the value modulo [2 ^ bits]. *)
Record integral := { bits : Z; is_signed : bool }.

Definition static_cast (t : integral) (v : Z) : Z :=
  if is_signed t
  then (v + 2 ^ (bits t - 1)) mod 2 ^ bits t - 2 ^ (bits t - 1)
  else v mod 2 ^ bits t.

Definition representable (t : integral) (v : Z) : Prop :=
  if is_signed t
  then - 2 ^ (bits t - 1) <= v < 2 ^ (bits t - 1)
  else 0 <= v < 2 ^ bits t.

Definition int_t : integral := {| bits := 32; is_signed := true |}.
Definition int64_t : integral := {| bits := 64; is_signed := true |}.

Definition NUL : ascii := Ascii.zero.

(** The characters a [const char *] points to, up to the terminator. *)
Fixpoint c_str (s : list ascii) : list ascii :=
  match s with
  | [] => []
  | c :: s => if Ascii.eqb c NUL then [] else c :: c_str s
  end.

(** [strncpy(dest, src, count)] for a [dest] of at least [count]
    characters: the characters of [src], then terminators, up to [count];
    the rest of [dest] stays. *)
Definition strncpy (dest src : list ascii) (count : nat) : list ascii :=
  take count (src ++ replicate count NUL) ++ drop count dest.

Section MoreTraits.
Context {E : Type} `{Engine E}.

(** [type_traits<bool>] *)
Definition bool_bind : bind_traits bool :=
  {| bind statement index arg _ :=
       sqlite3_bind_int statement index (if (arg : bool) then 1 else 0) |}.

Definition bool_column : column_traits bool :=
  {| column statement col _ e :=
       (Ok (negb (sqlite3_column_int statement col e =? 0)), e) |}.

(** [type_traits<T>] for an integral [T] with [sizeof(T) <= 4] *)
Definition small_integral_bind (T : integral) : bind_traits Z :=
  {| bind statement index arg _ :=
       sqlite3_bind_int statement index (static_cast int_t arg) |}.

Definition small_integral_column (T : integral) : column_traits Z :=
  {| column statement col _ e :=
       (Ok (static_cast T (sqlite3_column_int statement col e)), e) |}.

(** [type_traits<T>] for an integral [T] with [sizeof(T) == 8] *)
Definition wide_integral_bind (T : integral) : bind_traits Z :=
  {| bind statement index arg _ :=
       sqlite3_bind_int64 statement index (static_cast int64_t arg) |}.

Definition wide_integral_column (T : integral) : column_traits Z :=
  {| column statement col _ e :=
       (Ok (static_cast T (sqlite3_column_int64 statement col e)), e) |}.

(** [type_traits<T>] for an enumeration [T], held as the value of its
    underlying type [type]; [tmp] is the uninitialised local the column
    is read into. *)
Definition enum_bind (type : integral) (underlying : bind_traits (E := E) Z)
    : bind_traits (E := E) Z :=
  {| bind statement index arg policy :=
       bind underlying statement index (static_cast type arg) policy |}.

Definition enum_column (type : integral)
    (underlying : column_traits (E := E) Z) (tmp : Z)
    : column_traits (E := E) Z :=
  {| column statement col _ :=
       tmp' ← column underlying statement col tmp;
       mret (static_cast type tmp') |}.

(** [type_traits<char[Size]>]: the array is the list of its [Size]
    characters.  [column] is the one of the C++11 header, which copies
    with [strncpy]. *)
Definition char_array_bind (Size : Z) : bind_traits (list ascii) :=
  {| bind statement index arg policy :=
       sqlite3_bind_text statement index (string_of_list_ascii arg)
         (Size - 1) (destructor_of policy) |}.

Definition char_array_column (Size : Z) : column_traits (list ascii) :=
  {| column statement col arg e :=
       match sqlite3_column_text statement col e with
       | Some data =>
           (Ok (strncpy arg (c_str (list_ascii_of_string data))
                  (Z.to_nat (Size - 1))), e)
       | None => (Ok arg, e)
       end |}.

(** *** Packs of the built-in argument and output types *)

Inductive argument :=
| arg_int32 (v : Z)
| arg_int64 (v : Z)
| arg_c_str (s : string)
| arg_string (s : string)
| arg_nullptr
| arg_optional_int64 (o : option Z)
| arg_optional_string (o : option string).

Fixpoint pack (l : list argument) : bind_args :=
  match l with
  | [] => bnil
  | a :: l =>
      match a with
      | arg_int32 v => bcons int32_t_bind v (pack l)
      | arg_int64 v => bcons int64_t_bind v (pack l)
      | arg_c_str s => bcons c_str_bind s (pack l)
      | arg_string s => bcons string_bind s (pack l)
      | arg_nullptr => bcons nullptr_t_bind tt (pack l)
      | arg_optional_int64 o => bcons (optional_bind int64_t_bind) o (pack l)
      | arg_optional_string o => bcons (optional_bind string_bind) o (pack l)
      end
  end.

Inductive output :=
| out_int32 (v : Z)
| out_int64 (v : Z)
| out_string (s : string)
| out_optional_int64 (o : option Z)
| out_optional_string (o : option string).

Definition output_type (o : output) : Type :=
  match o with
  | out_int32 _ | out_int64 _ => Z
  | out_string _ => string
  | out_optional_int64 _ => option Z
  | out_optional_string _ => option string
  end.

Fixpoint outputs (l : list output) : column_args (map output_type l) :=
  match l with
  | [] => cnil
  | o :: l =>
      match o as o' return column_args (output_type o' :: map output_type l) with
      | out_int32 v => ccons int32_t_column v (outputs l)
      | out_int64 v => ccons int64_t_column v (outputs l)
      | out_string s => ccons string_column s (outputs l)
      | out_optional_int64 x => ccons (optional_column int64_t_column) x (outputs l)
      | out_optional_string x => ccons (optional_column string_column) x (outputs l)
      end
  end.

Definition ctail {T Ts} (args : column_args (E := E) (T :: Ts))
    : column_args (E := E) Ts :=
  match args in column_args l
        return match l with [] => unit | _ :: Ts => column_args (E := E) Ts end
  with
  | cnil => tt
  | ccons _ _ args => args
  end.

(** The values a pack of the shape [l] holds. *)
Definition output_with (o : output) : output_type o -> output :=
  match o with
  | out_int32 _ => out_int32
  | out_int64 _ => out_int64
  | out_string _ => out_string
  | out_optional_int64 _ => out_optional_int64
  | out_optional_string _ => out_optional_string
  end.

Fixpoint values (l : list output)
    : column_args (E := E) (map output_type l) -> list output :=
  match l with
  | [] => fun _ => []
  | o :: l => fun args => output_with o (chead args) :: values l (ctail args)
  end.

(** What the column [col] of the current row reads as, by output type. *)
Definition read_int64_opt (statement col : Z) (e : E) : option Z :=
  if negb (sqlite3_column_type statement col e =? SQLITE_NULL)
  then Some (sqlite3_column_int64 statement col e)
  else None.

Definition read_string (statement col : Z) (e : E) : string :=
  string_assign (sqlite3_column_text statement col e)
    (sqlite3_column_bytes statement col e).

Definition read_output (statement col : Z) (e : E) (o : output) : output :=
  match o with
  | out_int32 _ => out_int32 (sqlite3_column_int statement col e)
  | out_int64 _ => out_int64 (sqlite3_column_int64 statement col e)
  | out_string _ => out_string (read_string statement col e)
  | out_optional_int64 _ => out_optional_int64 (read_int64_opt statement col e)
  | out_optional_string _ =>
      out_optional_string
        (if negb (sqlite3_column_type statement col e =? SQLITE_NULL)
         then Some (read_string statement col e)
         else None)
  end.

Fixpoint read_outputs (statement Column : Z) (e : E) (l : list output)
    : list output :=
  match l with
  | [] => []
  | o :: l =>
      read_output statement Column e o
      :: read_outputs statement (Column + 1) e l
  end.

End MoreTraits.

(** ** A recording engine

    An engine that only records the calls made to it.  A call is answered
    from the calls made before it and the call itself ([status],
    [handle_of]), so the answers may follow any deterministic pattern.
    A column read, a message read and the look-up of a statement's
    connection record nothing; they too are answered from the calls made
    before ([column_of], [message_of], [connection_of]). *)

Inductive call :=
| call_open (filename : string) (flags : Z)
| call_close (db : Z)
| call_prepare (db : Z) (sql : string) (flags : Z)
| call_finalize (statement : Z)
| call_reset (statement : Z)
| call_step (statement : Z)
| call_bind_int (statement index v : Z)
| call_bind_int64 (statement index v : Z)
| call_bind_text (statement index : Z) (data : string) (n : Z)
    (destructor : sqlite3_destructor_type)
| call_bind_null (statement index : Z).

(** The answers to the reads of one column. *)
Record reads := {
  read_type : Z;
  read_int : Z;
  read_int64 : Z;
  read_text : option string;
  read_bytes : Z
}.

Record recorder := {
  calls : list call;
  status : list call -> call -> Z;
  handle_of : list call -> call -> Z;
  column_of : list call -> Z -> Z -> reads;
  message_of : list call -> Z -> string;
  connection_of : list call -> Z -> Z
}.

Definition record (c : call) (r : recorder) : recorder :=
  {| calls := calls r ++ [c]; status := status r; handle_of := handle_of r;
     column_of := column_of r; message_of := message_of r;
     connection_of := connection_of r |}.

Definition record_all (l : list call) (r : recorder) : recorder :=
  {| calls := calls r ++ l; status := status r; handle_of := handle_of r;
     column_of := column_of r; message_of := message_of r;
     connection_of := connection_of r |}.

Definition answer (c : call) (r : recorder) : Z * recorder :=
  (status r (calls r) c, record c r).

#[global] Instance recording_engine : Engine recorder := {
  sqlite3_open_v2 filename flags r :=
    let c := call_open filename flags in
    ((status r (calls r) c, handle_of r (calls r) c), record c r);
  sqlite3_close_v2 db := record (call_close db);
  sqlite3_errmsg db r := message_of r (calls r) db;
  sqlite3_db_handle statement r := connection_of r (calls r) statement;
  sqlite3_prepare_v3 db sql flags r :=
    let c := call_prepare db sql flags in
    ((status r (calls r) c, handle_of r (calls r) c), record c r);
  sqlite3_finalize statement := record (call_finalize statement);
  sqlite3_reset statement := answer (call_reset statement);
  sqlite3_step statement := answer (call_step statement);
  sqlite3_bind_int statement index v := answer (call_bind_int statement index v);
  sqlite3_bind_int64 statement index v :=
    answer (call_bind_int64 statement index v);
  sqlite3_bind_text statement index data n destructor :=
    answer (call_bind_text statement index data n destructor);
  sqlite3_bind_null statement index := answer (call_bind_null statement index);
  sqlite3_column_type statement col r :=
    read_type (column_of r (calls r) statement col);
  sqlite3_column_int statement col r :=
    read_int (column_of r (calls r) statement col);
  sqlite3_column_int64 statement col r :=
    read_int64 (column_of r (calls r) statement col);
  sqlite3_column_text statement col r :=
    read_text (column_of r (calls r) statement col);
  sqlite3_column_bytes statement col r :=
    read_bytes (column_of r (calls r) statement col)
}.

(** The engine call that binds the argument [a] at [index]. *)
Definition bind_call (statement : Z) (policy : bind_policy) (index : Z)
    (a : argument) : call :=
  match a with
  | arg_int32 v => call_bind_int statement index v
  | arg_int64 v => call_bind_int64 statement index v
  | arg_c_str s =>
      call_bind_text statement index s (-1) (destructor_of policy)
  | arg_string s =>
      call_bind_text statement index s (Z.of_nat (String.length s))
        (destructor_of policy)
  | arg_nullptr => call_bind_null statement index
  | arg_optional_int64 (Some v) => call_bind_int64 statement index v
  | arg_optional_int64 None => call_bind_null statement index
  | arg_optional_string (Some s) =>
      call_bind_text statement index s (Z.of_nat (String.length s))
        (destructor_of policy)
  | arg_optional_string None => call_bind_null statement index
  end.

Fixpoint bind_calls (statement : Z) (policy : bind_policy) (Index : Z)
    (l : list argument) : list call :=
  match l with
  | [] => []
  | a :: l =>
      bind_call statement policy Index a
      :: bind_calls statement policy (Index + 1) l
  end.

(** Whether the recorder lets the wrapper go on after the call [c], made
    next. *)
Definition accepted (r : recorder) (c : call) : bool :=
  match c with
  | call_step _ => stepped (status r (calls r) c)
  | _ => status r (calls r) c =? SQLITE_OK
  end.

Fixpoint all_accepted (r : recorder) (l : list call) : bool :=
  match l with
  | [] => true
  | c :: l => accepted r c && all_accepted (record c r) l
  end.

(** Of the calls [full], made on [r] in that order, [made] are the ones up
    to and including the first that is not accepted; all of them on
    success. *)
Definition stops_at_first_failure (r : recorder) (full made : list call)
    (success : bool) : Prop :=
  if success
  then made = full /\ all_accepted r made = true
  else exists pre c rest,
      made = pre ++ [c] /\ full = made ++ rest
      /\ all_accepted r pre = true /\ accepted (record_all pre r) c = false.

(** The handles of the statements that the calls [l], made on [r] in that
    order, compile, and the handles that they finalize.  A compilation
    that reports success without a handle (an empty text) compiles no
    statement. *)
Fixpoint prepared_handles (r : recorder) (l : list call) : list Z :=
  match l with
  | [] => []
  | c :: l =>
      match c with
      | call_prepare _ _ _ =>
          if (status r (calls r) c =? SQLITE_OK)
             && negb (handle_of r (calls r) c =? nullptr)
          then [handle_of r (calls r) c]
          else []
      | _ => []
      end ++ prepared_handles (record c r) l
  end.

Definition finalized_handles (l : list call) : list Z :=
  omap (fun c => match c with call_finalize h => Some h | _ => None end) l.

(** The calls on a statement handle: they compile and finalize nothing. *)
Definition statement_call (c : call) : bool :=
  match c with
  | call_reset _ | call_step _ | call_bind_int _ _ _ | call_bind_int64 _ _ _
  | call_bind_text _ _ _ _ _ | call_bind_null _ _ => true
  | _ => false
  end.

(** Whatever the recorder answers, the computation [m] ends (it returns
    or throws) having finalized, in order, exactly the statements it
    compiled. *)
Definition finalizes_what_it_compiles {A} (m : M recorder A) : Prop :=
  forall r, exists made out,
    m r = (out, record_all made r)
    /\ out <> Undefined
    /\ finalized_handles made = prepared_handles r made.

(** The value the reference engine stores for a bound argument. *)
Definition stored (a : argument) : value :=
  match a with
  | arg_int32 v | arg_int64 v | arg_optional_int64 (Some v) => Integer v
  | arg_c_str s | arg_string s | arg_optional_string (Some s) => Text s
  | arg_nullptr | arg_optional_int64 None | arg_optional_string None => Null
  end.

(** What an output reads from a column of the reference engine holding
    [v]. *)
Definition converted (v : value) (o : output) : output :=
  match o with
  | out_int32 _ => out_int32 (wrap32 (value_to_int v))
  | out_int64 _ => out_int64 (wrap64 (value_to_int v))
  | out_string _ =>
      out_string match value_to_text v with Some s => s | None => "" end
  | out_optional_int64 _ =>
      out_optional_int64
        match v with Null => None | _ => Some (wrap64 (value_to_int v)) end
  | out_optional_string _ =>
      out_optional_string
        match v with Null => None | _ => value_to_text v end
  end.

(** Whatever the recorder answers, the method [m] ends having made only
    calls on its statement, which it keeps. *)
Definition keeps_statement {A} (m : method (E := recorder) A) : Prop :=
  forall s r, exists made out s',
    m (s, r) = (out, (s', record_all made r))
    /\ out <> Undefined
    /\ _statement s' = _statement s
    /\ forallb statement_call made = true.

(** The text [db::begin] executes for a transaction type. *)
Definition begin_text (type : transaction_type) : string :=
  match type with
  | DEFERRED => "BEGIN DEFERRED TRANSACTION"
  | IMMEDIATE => "BEGIN IMMEDIATE TRANSACTION"
  | EXCLUSIVE => "BEGIN EXCLUSIVE TRANSACTION"
  end.

(** On the recorder [r], [m] executes the text [sql] once for its effect:
    it compiles [sql] with flags 0, resets and steps the statement
    without binding anything, stops at the first call that fails and
    throws then; the compiled statement is finalized in every case. *)
Definition executes_once (m : M recorder unit) (db : Z) (sql : string)
    (r : recorder) : Prop :=
  let p := call_prepare db sql 0 in
  let h := handle_of r (calls r) p in
  exists made out,
    m r = (out,
           record_all
             (made ++ (if accepted r p && negb (h =? nullptr)
                       then [call_finalize h] else [])) r)
    /\ (out = Ok tt \/ exists ex, out = Throw ex)
    /\ stops_at_first_failure r [p; call_reset h; call_step h] made
         (negb (is_throw out)).

(** Ledgers outside the expected range, a connection inside a
    transaction of the caller, and [SELECT ?] with a text bound. *)
Definition demo_negative : engine (list string) :=
  {| conn := demo_connection
               {| ledger := Some [demo_row_at (-1)]; schema := [] |};
     stmts := []; finalized := []; closed := [] |}.

Definition demo_wide : engine (list string) :=
  {| conn := demo_connection
               {| ledger := Some [demo_row_at (2 ^ 32)]; schema := [] |};
     stmts := []; finalized := []; closed := [] |}.

Definition demo_in_transaction : engine (list string) :=
  {| conn := {| current := {| ledger := None; schema := [] |};
                saved := Some {| ledger := None; schema := [] |};
                log := []; errmsg := ""; now := "2024-05-01 12:00:00" |};
     stmts := []; finalized := []; closed := [] |}.

Definition demo_text_row : statement * engine (list string) :=
  demo_execute sql_select_param (bcons string_bind "hello" bnil) demo_fresh.

Definition uint8_t : integral := {| bits := 8; is_signed := false |}.

(** Recorders for examples: one that accepts every call (a step reports
    completion), one that rejects the bind of the second parameter, and
    one on which the version query has a row whose column reads as 2.
    The first two read every column as NULL. *)
Definition demo_null_reads : reads :=
  {| read_type := SQLITE_NULL; read_int := 0; read_int64 := 0;
     read_text := None; read_bytes := 0 |}.

Definition demo_recorder : recorder :=
  {| calls := [];
     status _ c := match c with call_step _ => SQLITE_DONE | _ => SQLITE_OK end;
     handle_of _ _ := 7;
     column_of _ _ _ := demo_null_reads;
     message_of _ _ := "";
     connection_of _ _ := 1 |}.

Definition demo_recorder_range : recorder :=
  {| calls := [];
     status _ c :=
       match c with
       | call_step _ => SQLITE_DONE
       | call_bind_text _ 2 _ _ _ => SQLITE_RANGE
       | _ => SQLITE_OK
       end;
     handle_of _ _ := 7;
     column_of _ _ _ := demo_null_reads;
     message_of _ _ := "";
     connection_of _ _ := 1 |}.

Definition demo_recorder_at_two : recorder :=
  {| calls := [];
     status _ c :=
       match c with
       | call_step 8 => SQLITE_ROW
       | call_step _ => SQLITE_DONE
       | _ => SQLITE_OK
       end;
     handle_of _ c :=
       match c with
       | call_prepare _ sql _ =>
           if (sql =? sql_max_version)%string then 8 else 7
       | _ => 7
       end;
     column_of _ _ _ :=
       {| read_type := SQLITE_INTEGER; read_int := 2; read_int64 := 2;
          read_text := Some "2"; read_bytes := 1 |};
     message_of _ _ := "";
     connection_of _ _ := 1 |}.

(** The argument [a], bound to the parameter of [SELECT ?] by a one-shot
    execute and fetched into the output [o], is read as [result]. *)
Definition reads_back {E : Type} `{Engine E} (std : variant) (d : db) (e : E)
    (a : argument) (o result : output) : Prop :=
  exists s e1 args' w,
    db_execute std d sql_select_param (pack [a]) e = (Ok s, e1)
    /\ statement_fetch (outputs [o]) (s, e1) = (Ok (true, args'), w)
    /\ values [o] args' = [result].

(** The version [get_last_applied_version] returns on the reference
    engine: the ledger maximum as [sqlite3_column_int] reads it into an
    [int]. *)
Definition version_read {Schema : Type} (e : engine Schema) : Z :=
  wrap32 (current_version (ledger_or_empty (current (conn e)))).

(** The statements of the reference engine that are compiled and not yet
    finalized. *)
Definition open_statements {Schema : Type} (e : engine Schema) : list stmt :=
  omap id (stmts e).

(** ** Properties of [statement] over any engine *)

Ltac munfold :=
  unfold mbind, mret, M_bind, M_ret, throw in *.

Section StatementProperties.
Context {E : Type} `{Engine E}.
Variable std : variant.

Lemma set_can_fetch_same (s : statement) :
  {| _can_fetch := _can_fetch s; _statement := _statement s |} = s.
Proof. destruct s; reflexivity. Qed.

Lemma statement_step_eq (s : statement) (e : E) :
  statement_step (s, e) =
  let '(res, e') := sqlite3_step (_statement s) e in
  if negb (res =? SQLITE_ROW) && negb (res =? SQLITE_DONE)
  then (Throw (exception_stmt (_statement s) e'), (s, e'))
  else (Ok tt, ({| _can_fetch := res =? SQLITE_ROW;
                   _statement := _statement s |}, e')).
Proof.
  unfold statement_step, this_statement, engine_call, throw_statement,
    set_can_fetch.
  munfold. simpl.
  destruct (sqlite3_step (_statement s) e) as [res e'].
  destruct (negb (res =? SQLITE_ROW) && negb (res =? SQLITE_DONE)); reflexivity.
Qed.

Lemma statement_reset_eq (s : statement) (e : E) :
  statement_reset (s, e) =
  let '(res, e') := sqlite3_reset (_statement s) e in
  if negb (res =? SQLITE_OK)
  then (Throw (exception_stmt (_statement s) e'), (s, e'))
  else (Ok tt, (s, e')).
Proof.
  unfold statement_reset, this_statement, engine_call, throw_statement.
  munfold. simpl.
  destruct (sqlite3_reset (_statement s) e) as [res e'].
  destruct (negb (res =? SQLITE_OK)); reflexivity.
Qed.

Lemma statement_bind_nil Index policy (s : statement) (e : E) :
  statement_bind Index policy bnil (s, e) = (Ok tt, (s, e)).
Proof. reflexivity. Qed.

Lemma statement_bind_cons Index policy T (tr : bind_traits T) arg args
    (s : statement) (e : E) :
  statement_bind Index policy (bcons tr arg args) (s, e) =
  let '(res, e') := bind tr (_statement s) Index arg policy e in
  if negb (res =? SQLITE_OK)
  then (Throw (exception_stmt (_statement s) e'), (s, e'))
  else statement_bind (Index + 1) policy args (s, e').
Proof.
  simpl. unfold this_statement, engine_call, throw_statement.
  munfold. simpl.
  destruct (bind tr (_statement s) Index arg policy e) as [res e'].
  destruct (negb (res =? SQLITE_OK)); reflexivity.
Qed.

Lemma statement_bind_ok Index policy args (s : statement) (e e' : E) :
  binds_ok (_statement s) policy Index args e e' ->
  statement_bind Index policy args (s, e) = (Ok tt, (s, e')).
Proof.
  induction 1 as [|Index T tr arg args e e1 e2 Hb _ IH].
  - reflexivity.
  - rewrite statement_bind_cons, Hb. exact IH.
Qed.

Lemma statement_bind_fails Index policy args (s : statement) (e e' : E) :
  bind_fails (_statement s) policy Index args e e' ->
  statement_bind Index policy args (s, e) =
  (Throw (exception_stmt (_statement s) e'), (s, e')).
Proof.
  induction 1 as [Index T tr arg args e rc e1 Hb Hrc
                 |Index T tr arg args e e1 e2 Hb _ IH].
  - rewrite statement_bind_cons, Hb.
    destruct (rc =? SQLITE_OK) eqn:Heq; [|reflexivity].
    apply Z.eqb_eq in Heq. contradiction.
  - rewrite statement_bind_cons, Hb. exact IH.
Qed.

(** A bind never leaves the object changed, whatever it reports. *)
Lemma statement_bind_this Index policy args (s : statement) (e : E) :
  exists r e', statement_bind Index policy args (s, e) = (r, (s, e'))
               /\ r <> Undefined.
Proof.
  revert Index e. induction args as [|T tr arg args IH]; intros Index e.
  - exists (Ok tt), e. split; [reflexivity|discriminate].
  - rewrite statement_bind_cons.
    destruct (bind tr (_statement s) Index arg policy e) as [res e1].
    destruct (negb (res =? SQLITE_OK)).
    + eexists _, _. split; [reflexivity|discriminate].
    + apply IH.
Qed.

Lemma statement_execute_policy_eq policy args (s : statement) (e : E) :
  statement_execute_policy policy args (s, e) =
  match statement_reset (s, e) with
  | (Ok _, w1) =>
      match statement_bind 1 policy args w1 with
      | (Ok _, w2) => statement_step w2
      | (Throw ex, w2) => (Throw ex, w2)
      | (Undefined, w2) => (Undefined, w2)
      end
  | (Throw ex, w1) => (Throw ex, w1)
  | (Undefined, w1) => (Undefined, w1)
  end.
Proof. reflexivity. Qed.

Lemma statement_execute_eq args (s : statement) (e : E) :
  statement_execute args (s, e) =
  statement_execute_policy TRANSIENT args (s, e).
Proof. reflexivity. Qed.

Lemma statement_fetch_eq {Ts} (args : column_args Ts) (s : statement) (e : E) :
  statement_fetch args (s, e) =
  match (if negb (_can_fetch s) then statement_step (s, e)
         else (Ok tt, (s, e))) with
  | (Ok _, (s1, e1)) =>
      if _can_fetch s1
      then match statement_column 0 args (s1, e1) with
           | (Ok args', (s2, e2)) =>
               (Ok (true, args'),
                ({| _can_fetch := false; _statement := _statement s2 |}, e2))
           | (Throw ex, w) => (Throw ex, w)
           | (Undefined, w) => (Undefined, w)
           end
      else (Ok (false, args), (s1, e1))
  | (Throw ex, w) => (Throw ex, w)
  | (Undefined, w) => (Undefined, w)
  end.
Proof.
  unfold statement_fetch, get_can_fetch, set_can_fetch. munfold. simpl.
  destruct (negb (_can_fetch s)).
  - destruct (statement_step (s, e)) as [[[]|ex|] [s1 e1]]; simpl; try reflexivity.
    destruct (_can_fetch s1); [|reflexivity].
    destruct (statement_column 0 args (s1, e1)) as [[a|ex|] [s2 e2]]; reflexivity.
  - simpl. destruct (_can_fetch s); [|reflexivity].
    destruct (statement_column 0 args (s, e)) as [[a|ex|] [s2 e2]]; reflexivity.
Qed.

(** C5, as amended.  A fetch on a statement with no row pending makes one
    further step of the engine and reports what that step gives: on
    completion it returns false, "no more rows", and hands every output
    argument back as it was, the statement unchanged; on a row it goes on
    as a fetch with that row pending; on any other status it throws, the
    statement unchanged.  Whenever fetch returns false the outputs are
    the ones passed in; it returns true only if a row was pending or the
    step produced one.  No row is pending after an execute whose step
    produced no row, and after every fetch: the statement object does not
    record that the statement has finished. *)
Theorem fetch_without_row_keeps_outputs {Ts} (args : column_args Ts)
    (s : statement) (e : E) :
  (forall e',
      _can_fetch s = false ->
      sqlite3_step (_statement s) e = (SQLITE_DONE, e') ->
      statement_fetch args (s, e) = (Ok (false, args), (s, e')))
  /\ (forall b args' w,
         statement_fetch args (s, e) = (Ok (b, args'), w) ->
         (b = false -> args' = args)
         /\ (b = true ->
             _can_fetch s = true
             \/ fst (sqlite3_step (_statement s) e) = SQLITE_ROW)
         /\ _can_fetch (fst w) = false)
  /\ (forall bargs s0 e0,
         statement_execute bargs (s0, e0) = (Ok tt, (s, e)) ->
         exists e1 rc,
           sqlite3_step (_statement s0) e1 = (rc, e)
           /\ (rc = SQLITE_ROW \/ rc = SQLITE_DONE)
           /\ s = {| _can_fetch := rc =? SQLITE_ROW;
                     _statement := _statement s0 |})
  /\ (forall e',
         _can_fetch s = false ->
         sqlite3_step (_statement s) e = (SQLITE_ROW, e') ->
         statement_fetch args (s, e)
         = statement_fetch args
             ({| _can_fetch := true; _statement := _statement s |}, e'))
  /\ (forall rc e',
         _can_fetch s = false ->
         sqlite3_step (_statement s) e = (rc, e') ->
         rc <> SQLITE_ROW -> rc <> SQLITE_DONE ->
         statement_fetch args (s, e)
         = (Throw (exception_stmt (_statement s) e'), (s, e'))).
Proof.
  split; [|split; [|split; [|split]]].
  - intros e' Hcan Hstep. destruct s as [can st]. simpl in *. subst can.
    rewrite statement_fetch_eq. simpl.
    rewrite statement_step_eq. simpl. rewrite Hstep. reflexivity.
  - intros b args' w. rewrite statement_fetch_eq.
    destruct (_can_fetch s) eqn:Hcan; simpl.
    + rewrite Hcan.
      destruct (statement_column 0 args (s, e)) as [[a|ex|] [s2 e2]];
        intros Heq; inversion Heq; subst.
      split; [discriminate|]. split; [|reflexivity].
      intros _. left. reflexivity.
    + rewrite statement_step_eq.
      destruct (sqlite3_step (_statement s) e) as [res e1]. simpl.
      destruct (negb (res =? SQLITE_ROW) && negb (res =? SQLITE_DONE));
        [discriminate|]. simpl.
      destruct (res =? SQLITE_ROW) eqn:Hrow.
      * destruct (statement_column 0 args
                    ({| _can_fetch := true; _statement := _statement s |}, e1))
          as [[a|ex|] [s2 e2]]; intros Heq; inversion Heq; subst.
        split; [discriminate|]. split; [|reflexivity].
        intros _. right. apply Z.eqb_eq. exact Hrow.
      * intros Heq. inversion Heq; subst.
        split; [reflexivity|]. split; [discriminate|reflexivity].
  - intros bargs s0 e0.
    rewrite statement_execute_eq, statement_execute_policy_eq,
      statement_reset_eq.
    destruct (sqlite3_reset (_statement s0) e0) as [rc0 e1].
    destruct (negb (rc0 =? SQLITE_OK)); [discriminate|].
    destruct (statement_bind_this 1 TRANSIENT bargs s0 e1) as (r & e2 & Hb & _).
    rewrite Hb. destruct r as [[]|ex|]; [|discriminate|discriminate].
    rewrite statement_step_eq.
    destruct (sqlite3_step (_statement s0) e2) as [rc e3] eqn:Hstep.
    destruct (rc =? SQLITE_ROW) eqn:Hrow, (rc =? SQLITE_DONE) eqn:Hdone;
      cbn [negb andb]; intros Heq; inversion Heq; subst;
      exists e2, rc; (split; [exact Hstep|]);
      (split; [|rewrite Hrow; reflexivity]).
    + left. apply Z.eqb_eq. exact Hrow.
    + left. apply Z.eqb_eq. exact Hrow.
    + right. apply Z.eqb_eq. exact Hdone.
  - intros e' Hcan Hstep. rewrite !statement_fetch_eq.
    rewrite Hcan. cbn [negb _can_fetch _statement].
    rewrite statement_step_eq, Hstep. reflexivity.
  - intros rc e' Hcan Hstep Hrow Hdone. rewrite statement_fetch_eq.
    rewrite Hcan. cbn [negb]. rewrite statement_step_eq, Hstep.
    apply Z.eqb_neq in Hrow, Hdone. rewrite Hrow, Hdone. reflexivity.
Qed.

(** C4, as the code has it.  A status other than success from reset, from
    a parameter bind or from step makes execute throw, and the statement
    object is then exactly as it was before the call: the fetch flag keeps
    its earlier value.  With the flag clear before the call the statement
    is left without a row; with a row pending before the call the flag
    stays set, and the next fetch reads the columns without stepping. *)
Theorem execute_failure_keeps_fetch_flag (policy : bind_policy)
    (args : bind_args) (s : statement) (e : E) :
  (forall rc e1,
      sqlite3_reset (_statement s) e = (rc, e1) ->
      rc <> SQLITE_OK ->
      statement_execute_policy policy args (s, e) =
      (Throw (exception_stmt (_statement s) e1), (s, e1)))
  /\ (forall e1 e2,
         sqlite3_reset (_statement s) e = (SQLITE_OK, e1) ->
         bind_fails (_statement s) policy 1 args e1 e2 ->
         statement_execute_policy policy args (s, e) =
         (Throw (exception_stmt (_statement s) e2), (s, e2)))
  /\ (forall e1 e2 rc e3,
         sqlite3_reset (_statement s) e = (SQLITE_OK, e1) ->
         binds_ok (_statement s) policy 1 args e1 e2 ->
         sqlite3_step (_statement s) e2 = (rc, e3) ->
         rc <> SQLITE_ROW -> rc <> SQLITE_DONE ->
         statement_execute_policy policy args (s, e) =
         (Throw (exception_stmt (_statement s) e3), (s, e3)))
  /\ (forall ex s' e',
         statement_execute_policy policy args (s, e) = (Throw ex, (s', e')) ->
         s' = s)
  /\ (forall w, fst (statement_execute_policy policy args w) <> Undefined)
  /\ statement_execute args (s, e) =
     statement_execute_policy TRANSIENT args (s, e)
  /\ (forall Ts (outs : column_args Ts) e',
         _can_fetch s = true ->
         statement_fetch outs (s, e') =
         match statement_column 0 outs (s, e') with
         | (Ok outs', (s2, e2)) =>
             (Ok (true, outs'),
              ({| _can_fetch := false; _statement := _statement s2 |}, e2))
         | (Throw ex, w) => (Throw ex, w)
         | (Undefined, w) => (Undefined, w)
         end).
Proof.
  repeat split.
  - intros rc e1 Hreset Hrc.
    rewrite statement_execute_policy_eq, statement_reset_eq, Hreset.
    destruct (rc =? SQLITE_OK) eqn:Heq; [|reflexivity].
    apply Z.eqb_eq in Heq. contradiction.
  - intros e1 e2 Hreset Hbind.
    rewrite statement_execute_policy_eq, statement_reset_eq, Hreset. simpl.
    rewrite (statement_bind_fails _ _ _ _ _ _ Hbind). reflexivity.
  - intros e1 e2 rc e3 Hreset Hbind Hstep Hrow Hdone.
    rewrite statement_execute_policy_eq, statement_reset_eq, Hreset. simpl.
    rewrite (statement_bind_ok _ _ _ _ _ _ Hbind).
    rewrite statement_step_eq, Hstep.
    destruct (rc =? SQLITE_ROW) eqn:H1; [apply Z.eqb_eq in H1; contradiction|].
    destruct (rc =? SQLITE_DONE) eqn:H2; [apply Z.eqb_eq in H2; contradiction|].
    reflexivity.
  - intros ex s' e'.
    rewrite statement_execute_policy_eq, statement_reset_eq.
    destruct (sqlite3_reset (_statement s) e) as [rc e1].
    destruct (negb (rc =? SQLITE_OK)); [intros Heq; inversion Heq; reflexivity|].
    destruct (statement_bind_this 1 policy args s e1) as (r & e2 & Hb & _).
    rewrite Hb. destruct r as [[]|ex2|].
    + rewrite statement_step_eq.
      destruct (sqlite3_step (_statement s) e2) as [rc2 e3].
      destruct (negb (rc2 =? SQLITE_ROW) && negb (rc2 =? SQLITE_DONE));
        intros Heq; inversion Heq; reflexivity.
    + intros Heq; inversion Heq; reflexivity.
    + discriminate.
  - intros [s0 e0].
    rewrite statement_execute_policy_eq, statement_reset_eq.
    destruct (sqlite3_reset (_statement s0) e0) as [rc e1].
    destruct (negb (rc =? SQLITE_OK)); [discriminate|].
    destruct (statement_bind_this 1 policy args s0 e1) as (r & e2 & Hb & Hr).
    rewrite Hb. destruct r as [[]|ex2|].
    + rewrite statement_step_eq.
      destruct (sqlite3_step (_statement s0) e2) as [rc2 e3].
      destruct (negb (rc2 =? SQLITE_ROW) && negb (rc2 =? SQLITE_DONE));
        discriminate.
    + discriminate.
    + contradiction.
  - intros Ts outs e' Hcan.
    rewrite statement_fetch_eq, Hcan. simpl. rewrite Hcan. reflexivity.
Qed.

(** C10.  In the C++11 header the read of a column that is not NULL into
    a [boost::optional<T>] goes through [*arg]: with an empty optional the
    call is undefined, with an engaged one it reads into the held value;
    so the read is defined only if the optional was engaged. *)
Theorem boost_optional_column_needs_engaged {T} (tr : column_traits T)
    (st col : Z) (arg : boost_optional T) (e : E) :
  sqlite3_column_type st col e <> SQLITE_NULL ->
  (arg = boost_none ->
   column (boost_optional_column tr) st col arg e = (Undefined, e))
  /\ (forall x,
         arg = boost_some x ->
         column (boost_optional_column tr) st col arg e =
         match column tr st col x e with
         | (Ok x', e') => (Ok (boost_some x'), e')
         | (Throw ex, e') => (Throw ex, e')
         | (Undefined, e') => (Undefined, e')
         end)
  /\ (fst (column (boost_optional_column tr) st col arg e) <> Undefined ->
      exists x, arg = boost_some x).
Proof.
  intros Hty.
  assert (Hneq : (sqlite3_column_type st col e =? SQLITE_NULL) = false)
    by (apply Z.eqb_neq; exact Hty).
  repeat split.
  - intros ->. simpl. rewrite Hneq. reflexivity.
  - intros x ->. simpl. rewrite Hneq. unfold boost_deref. munfold.
    destruct (column tr st col x e) as [[x'|ex|] e']; reflexivity.
  - destruct arg as [|x]; [|eauto].
    simpl. rewrite Hneq. unfold boost_deref. munfold. simpl.
    intros Hc. contradiction.
Qed.

End StatementProperties.

(** ** The wrapper on the reference engine *)

Section ReferenceProperties.
Context {Schema : Type} `{SchemaModel Schema}.
Variable std : variant.

Implicit Types (e : engine Schema) (c : connection Schema) (d : db).

Lemma fresh_handle_pos e : (fresh_handle e <=? 0) = false.
Proof. unfold fresh_handle. apply Z.leb_gt. lia. Qed.

Lemma fresh_handle_slot e : slot (fresh_handle e) = length (stmts e).
Proof. unfold slot, fresh_handle. lia. Qed.

Lemma fresh_handle_not_null e : (fresh_handle e =? nullptr) = false.
Proof. unfold fresh_handle, nullptr. apply Z.eqb_neq. lia. Qed.

Lemma stmt_at_compiled o c e : stmt_at (fresh_handle e) (compiled o c e) = o.
Proof.
  unfold stmt_at. rewrite fresh_handle_pos, fresh_handle_slot. simpl.
  rewrite list_lookup_middle by reflexivity. destruct o; reflexivity.
Qed.

Lemma set_stmt_compiled s o c e :
  set_stmt (fresh_handle e) s (compiled o c e) = compiled (Some s) c e.
Proof.
  unfold set_stmt, set_stmts, compiled. rewrite fresh_handle_slot. simpl.
  f_equal. rewrite insert_app_r_alt by lia.
  rewrite Nat.sub_diag. reflexivity.
Qed.

Lemma ref_prepare_ok db sql flags e :
  compile_error sql (conn e) = None ->
  ref_prepare db sql flags e =
  ((SQLITE_OK, fresh_handle e), compiled (Some (new_stmt sql)) (conn e) e).
Proof. intros Hc. unfold ref_prepare. rewrite Hc. reflexivity. Qed.

Lemma ref_prepare_error db sql flags e msg :
  compile_error sql (conn e) = Some msg ->
  ref_prepare db sql flags e =
  ((SQLITE_ERROR, nullptr), set_conn (set_errmsg msg (conn e)) e).
Proof. intros Hc. unfold ref_prepare. rewrite Hc. reflexivity. Qed.

Lemma ref_reset_compiled s c e :
  ref_reset (fresh_handle e) (compiled (Some s) c e) =
  (match position s with Failed rc => rc | _ => SQLITE_OK end,
   compiled (Some (with_position Ready s)) c e).
Proof.
  unfold ref_reset. rewrite stmt_at_compiled, set_stmt_compiled. reflexivity.
Qed.

Lemma ref_bind_compiled s c e index v :
  position s = Ready ->
  ref_bind (fresh_handle e) index v (compiled (Some s) c e) =
  if (1 <=? index) && (index <=? Z.of_nat (length (params s)))
  then (SQLITE_OK,
        compiled (Some (with_params (<[Z.to_nat (index - 1) := v]> (params s)) s))
          c e)
  else (SQLITE_RANGE, compiled (Some s) c e).
Proof.
  intros Hp. unfold ref_bind. rewrite stmt_at_compiled, Hp.
  destruct ((1 <=? index) && (index <=? Z.of_nat (length (params s))));
    [|reflexivity].
  rewrite set_stmt_compiled. reflexivity.
Qed.

Lemma ref_step_compiled s c e :
  position s = Ready ->
  ref_step (fresh_handle e) (compiled (Some s) c e) =
  let '(rc, row, c') := run_logged s c in
  (rc, compiled (Some (with_position (position_after rc row) s)) c' e).
Proof.
  intros Hp. unfold ref_step. rewrite stmt_at_compiled, Hp. simpl conn.
  destruct (run_logged s c) as [[rc row] c'].
  change (set_conn c' (compiled (Some s) c e)) with (compiled (Some s) c' e).
  rewrite set_stmt_compiled. reflexivity.
Qed.

Lemma ref_finalize_compiled o c e :
  ref_finalize (fresh_handle e) (compiled o c e) = retired c e.
Proof.
  unfold ref_finalize. rewrite fresh_handle_not_null.
  unfold compiled, retired. simpl. rewrite fresh_handle_slot. f_equal.
  rewrite insert_app_r_alt by lia. rewrite Nat.sub_diag. reflexivity.
Qed.

Lemma column_value_compiled s c e col :
  column_value (fresh_handle e) col (compiled (Some s) c e) =
  match position s with
  | HasRow r => if col <? 0 then Null else nth (Z.to_nat col) r Null
  | _ => Null
  end.
Proof. unfold column_value. rewrite stmt_at_compiled. reflexivity. Qed.

Lemma statement_dtor_compiled can o c e :
  statement_dtor {| _can_fetch := can; _statement := fresh_handle e |}
    (compiled o c e) = retired c e.
Proof.
  unfold statement_dtor. simpl _statement. rewrite fresh_handle_not_null.
  simpl. apply ref_finalize_compiled.
Qed.

Lemma stepped_spec rc :
  negb (rc =? SQLITE_ROW) && negb (rc =? SQLITE_DONE) = negb (stepped rc).
Proof. unfold stepped. rewrite negb_orb. reflexivity. Qed.

(** [db::execute] without arguments: compile, reset, step. *)
Lemma db_execute_bnil d sql e :
  compile_error sql (conn e) = None ->
  db_execute std d sql bnil e =
  let '(rc, row, c') := run_logged (new_stmt sql) (conn e) in
  if stepped rc
  then (Ok {| _can_fetch := rc =? SQLITE_ROW; _statement := fresh_handle e |},
        compiled (Some (with_position (position_after rc row) (new_stmt sql)))
          c' e)
  else (Throw {| what := errmsg c' |}, retired c' e).
Proof.
  intros Hc. unfold db_execute, statement_ctor.
  simpl sqlite3_prepare_v3. rewrite (ref_prepare_ok _ _ _ _ Hc).
  cbn [negb Z.eqb SQLITE_OK].
  rewrite statement_execute_eq, statement_execute_policy_eq, statement_reset_eq.
  cbn [_statement sqlite3_reset reference_engine].
  rewrite ref_reset_compiled. cbn [position new_stmt negb Z.eqb SQLITE_OK].
  rewrite statement_bind_nil, statement_step_eq.
  cbn [_statement sqlite3_step reference_engine].
  rewrite ref_step_compiled by reflexivity.
  change (with_position Ready (new_stmt sql)) with (new_stmt sql).
  destruct (run_logged (new_stmt sql) (conn e)) as [[rc row] c'].
  rewrite stepped_spec. destruct (stepped rc); cbn [negb].
  - reflexivity.
  - rewrite statement_dtor_compiled. reflexivity.
Qed.

Lemma db_execute_compile_error d sql args e msg :
  compile_error sql (conn e) = Some msg ->
  exists ex,
    db_execute std d sql args e =
    (Throw ex, set_conn (set_errmsg msg (conn e)) e).
Proof.
  intros Hc. unfold db_execute, statement_ctor.
  simpl sqlite3_prepare_v3. rewrite (ref_prepare_error _ _ _ _ _ Hc).
  cbn [negb Z.eqb SQLITE_OK SQLITE_ERROR]. eexists. reflexivity.
Qed.

(** [db::execute] with one argument whose bind stores [v]. *)
Lemma db_execute_unary d sql {T} (tr : bind_traits T) (arg : T) v e :
  compile_error sql (conn e) = None ->
  parameter_count (classify sql) = 1%nat ->
  (forall e', bind tr (fresh_handle e) 1 arg TRANSIENT e' =
              ref_bind (fresh_handle e) 1 v e') ->
  db_execute std d sql (bcons tr arg bnil) e =
  let '(rc, row, c') := one_shot sql [v] (conn e) in
  if stepped rc
  then (Ok {| _can_fetch := rc =? SQLITE_ROW; _statement := fresh_handle e |},
        compiled
          (Some {| text := sql; params := [v];
                   position := position_after rc row |}) c' e)
  else (Throw {| what := errmsg c' |}, retired c' e).
Proof.
  intros Hc Hn Hb. unfold db_execute, statement_ctor.
  simpl sqlite3_prepare_v3. rewrite (ref_prepare_ok _ _ _ _ Hc).
  cbn [negb Z.eqb SQLITE_OK].
  rewrite statement_execute_eq, statement_execute_policy_eq, statement_reset_eq.
  cbn [_statement sqlite3_reset reference_engine].
  rewrite ref_reset_compiled. cbn [position new_stmt negb Z.eqb SQLITE_OK].
  rewrite statement_bind_cons. cbn [_statement]. rewrite Hb.
  rewrite ref_bind_compiled by reflexivity.
  unfold with_position, new_stmt. cbn [params text position]. rewrite Hn.
  cbn -[one_shot stepped run_logged].
  change (1 <=? Z.of_nat 1) with true. cbn iota.
  change (Z.to_nat (1 - 1)) with 0%nat.
  cbn [negb Z.eqb SQLITE_OK with_params params text position list_insert insert].
  munfold.
  change (with_params [v] {| text := sql; params := [Null]; position := Ready |})
    with {| text := sql; params := [v]; position := Ready |}.
  rewrite statement_step_eq.
  cbn [_statement sqlite3_step reference_engine].
  rewrite ref_step_compiled by reflexivity.
  unfold one_shot, with_position. cbn [text params].
  destruct (run_logged _ (conn e)) as [[rc row] c'].
  rewrite stepped_spec. destruct (stepped rc); cbn [negb].
  - reflexivity.
  - rewrite statement_dtor_compiled. reflexivity.
Qed.

(** *** The statements the engine interprets *)

Lemma classify_create : classify sql_create_version_info = KCreateVersionInfo.
Proof. reflexivity. Qed.

Lemma classify_max : classify sql_max_version = KMaxVersion.
Proof. reflexivity. Qed.

Lemma classify_insert : classify sql_insert_version = KInsertVersion.
Proof. reflexivity. Qed.

Lemma classify_begin : classify "BEGIN DEFERRED TRANSACTION" = KBegin.
Proof. reflexivity. Qed.

Lemma classify_commit : classify "COMMIT TRANSACTION" = KCommit.
Proof. reflexivity. Qed.

Lemma classify_rollback : classify "ROLLBACK TRANSACTION" = KRollback.
Proof. reflexivity. Qed.

Lemma classify_select_param : classify sql_select_param = KSelectParam.
Proof. reflexivity. Qed.

Lemma plain_spec m :
  plain m = true <-> classify m = KOther /\ compiles m = true.
Proof.
  unfold plain. destruct (classify m); split;
    (intros [? ?] || intros ?); try discriminate; auto.
Qed.

Lemma new_stmt_nullary sql :
  parameter_count (classify sql) = 0%nat ->
  new_stmt sql = {| text := sql; params := []; position := Ready |}.
Proof. intros Hn. unfold new_stmt. rewrite Hn. reflexivity. Qed.

(** A one-shot statement without arguments whose temporary is dropped. *)
Lemma execute_and_drop d sql e :
  compile_error sql (conn e) = None ->
  parameter_count (classify sql) = 0%nat ->
  (s ← db_execute std d sql bnil; discard s) e =
  let '(rc, _, c') := one_shot sql [] (conn e) in
  (if stepped rc then Ok tt else Throw {| what := errmsg c' |}, retired c' e).
Proof.
  intros Hc Hn. munfold. rewrite (db_execute_bnil _ _ _ Hc).
  rewrite (new_stmt_nullary _ Hn). unfold one_shot.
  destruct (run_logged _ (conn e)) as [[rc row] c'].
  destruct (stepped rc); [|reflexivity].
  unfold discard. rewrite statement_dtor_compiled. reflexivity.
Qed.

Lemma execute_and_drop_unary d sql v e :
  compile_error sql (conn e) = None ->
  parameter_count (classify sql) = 1%nat ->
  (s ← db_execute std d sql (bcons int64_t_bind v bnil); discard s) e =
  let '(rc, _, c') := one_shot sql [Integer v] (conn e) in
  (if stepped rc then Ok tt else Throw {| what := errmsg c' |}, retired c' e).
Proof.
  intros Hc Hn. munfold.
  rewrite (db_execute_unary d sql int64_t_bind v (Integer v) e Hc Hn)
    by reflexivity.
  destruct (one_shot sql [Integer v] (conn e)) as [[rc row] c'].
  destruct (stepped rc); [|reflexivity].
  unfold discard. rewrite statement_dtor_compiled. reflexivity.
Qed.

Lemma one_shot_body_ok m c sch' :
  classify m = KOther ->
  run_body m (schema (current c)) = Some sch' ->
  one_shot m [] c =
  (SQLITE_DONE, None,
   add_log (done m [])
     (set_current {| ledger := ledger (current c); schema := sch' |} c)).
Proof.
  intros Hk Hr. unfold one_shot, run_logged, run. cbn [text params].
  rewrite Hk, Hr. reflexivity.
Qed.

Lemma one_shot_body_fails m c :
  classify m = KOther ->
  run_body m (schema (current c)) = None ->
  one_shot m [] c =
  (SQLITE_ERROR, None,
   add_log (failed m [] SQLITE_ERROR) (set_errmsg "SQL logic error" c)).
Proof.
  intros Hk Hr. unfold one_shot, run_logged, run. cbn [text params].
  rewrite Hk, Hr. reflexivity.
Qed.

Lemma one_shot_insert v c rows :
  ledger (current c) = Some rows ->
  accepts_version (schema (current c)) v = true ->
  one_shot sql_insert_version [Integer v] c =
  (SQLITE_DONE, None,
   add_log (done sql_insert_version [Integer v])
     (set_current
        {| ledger := Some (rows ++ [{| Version := v;
                                       AppliedOn := Text (now c);
                                       Description := Null |}]);
           schema := schema (current c) |} c)).
Proof.
  intros Hl Ha. unfold one_shot, run_logged, run. cbn [text params].
  rewrite classify_insert, Hl, Ha. reflexivity.
Qed.

Lemma one_shot_insert_rejected v c rows :
  ledger (current c) = Some rows ->
  accepts_version (schema (current c)) v = false ->
  one_shot sql_insert_version [Integer v] c =
  (SQLITE_CONSTRAINT, None,
   add_log (failed sql_insert_version [Integer v] SQLITE_CONSTRAINT)
     (set_errmsg "constraint failed" c)).
Proof.
  intros Hl Ha. unfold one_shot, run_logged, run. cbn [text params].
  rewrite classify_insert, Hl, Ha. reflexivity.
Qed.

Lemma one_shot_create c :
  one_shot sql_create_version_info [] c =
  (SQLITE_DONE, None,
   add_log (done sql_create_version_info [])
     match ledger (current c) with
     | Some _ => c
     | None =>
         set_current {| ledger := Some []; schema := schema (current c) |} c
     end).
Proof.
  unfold one_shot, run_logged, run. cbn [text params].
  rewrite classify_create. destruct (ledger (current c)); reflexivity.
Qed.

Lemma one_shot_begin c :
  saved c = None ->
  one_shot "BEGIN DEFERRED TRANSACTION" [] c =
  (SQLITE_DONE, None,
   add_log (done "BEGIN DEFERRED TRANSACTION" [])
     (set_saved (Some (current c)) c)).
Proof.
  intros Hs. unfold one_shot, run_logged, run. cbn [text params].
  rewrite classify_begin, Hs. reflexivity.
Qed.

Lemma one_shot_commit c snap :
  saved c = Some snap ->
  one_shot "COMMIT TRANSACTION" [] c =
  (SQLITE_DONE, None,
   add_log (done "COMMIT TRANSACTION" []) (set_saved None c)).
Proof.
  intros Hs. unfold one_shot, run_logged, run. cbn [text params].
  rewrite classify_commit, Hs. reflexivity.
Qed.

Lemma one_shot_rollback c snap :
  saved c = Some snap ->
  one_shot "ROLLBACK TRANSACTION" [] c =
  (SQLITE_DONE, None,
   add_log (done "ROLLBACK TRANSACTION" [])
     (set_saved None (set_current snap c))).
Proof.
  intros Hs. unfold one_shot, run_logged, run. cbn [text params].
  rewrite classify_rollback, Hs. reflexivity.
Qed.

Lemma compile_error_plain m c : plain m = true -> compile_error m c = None.
Proof.
  intros Hp. apply plain_spec in Hp as [Hk Hc].
  unfold compile_error. rewrite Hk, Hc. reflexivity.
Qed.

Lemma compile_error_insert c rows :
  ledger (current c) = Some rows ->
  compile_error sql_insert_version c = None.
Proof.
  intros Hl. unfold compile_error. rewrite classify_insert, Hl. reflexivity.
Qed.

Lemma compile_error_max c rows :
  ledger (current c) = Some rows ->
  compile_error sql_max_version c = None.
Proof.
  intros Hl. unfold compile_error. rewrite classify_max, Hl. reflexivity.
Qed.

(** A body that runs, and its ledger insert. *)
Lemma body_ok d m e sch' :
  plain m = true ->
  run_body m (schema (current (conn e))) = Some sch' ->
  (s ← db_execute std d m bnil; discard s) e =
  (Ok tt,
   retired
     (add_log (done m [])
        (set_current {| ledger := ledger (current (conn e)); schema := sch' |}
           (conn e))) e).
Proof.
  intros Hp Hr. pose proof Hp as Hp'. apply plain_spec in Hp' as [Hk Hc].
  rewrite execute_and_drop.
  - rewrite (one_shot_body_ok _ _ _ Hk Hr). reflexivity.
  - apply compile_error_plain. exact Hp.
  - rewrite Hk. reflexivity.
Qed.

Lemma insert_ok d v e rows :
  ledger (current (conn e)) = Some rows ->
  accepts_version (schema (current (conn e))) v = true ->
  (s ← db_execute std d sql_insert_version (bcons int64_t_bind v bnil);
   discard s) e =
  (Ok tt,
   retired
     (add_log (done sql_insert_version [Integer v])
        (set_current
           {| ledger := Some (rows ++ [{| Version := v;
                                          AppliedOn := Text (now (conn e));
                                          Description := Null |}]);
              schema := schema (current (conn e)) |} (conn e))) e).
Proof.
  intros Hl Ha. rewrite execute_and_drop_unary.
  - rewrite (one_shot_insert _ _ _ Hl Ha). reflexivity.
  - exact (compile_error_insert _ _ Hl).
  - rewrite classify_insert. reflexivity.
Qed.

Lemma insert_rejected d v e rows :
  ledger (current (conn e)) = Some rows ->
  accepts_version (schema (current (conn e))) v = false ->
  (s ← db_execute std d sql_insert_version (bcons int64_t_bind v bnil);
   discard s) e =
  (Throw {| what := "constraint failed" |},
   retired
     (add_log (failed sql_insert_version [Integer v] SQLITE_CONSTRAINT)
        (set_errmsg "constraint failed" (conn e))) e).
Proof.
  intros Hl Ha. rewrite execute_and_drop_unary.
  - rewrite (one_shot_insert_rejected _ _ _ Hl Ha). reflexivity.
  - exact (compile_error_insert _ _ Hl).
  - rewrite classify_insert. reflexivity.
Qed.

(** *** The loop of [apply_migrations] *)

Lemma apply_each_cons d k m its e :
  apply_each std d k (m :: its) e =
  match (s ← db_execute std d m bnil; discard s) e with
  | (Ok _, e1) =>
      match (s ← db_execute std d sql_insert_version
                   (bcons int64_t_bind (k + 1) bnil);
             discard s) e1 with
      | (Ok _, e2) => apply_each std d (k + 1) its e2
      | (Throw ex, e2) => (Throw ex, e2)
      | (Undefined, e2) => (Undefined, e2)
      end
  | (Throw ex, e1) => (Throw ex, e1)
  | (Undefined, e1) => (Undefined, e1)
  end.
Proof. reflexivity. Qed.

Ltac conn_simpl :=
  cbn [conn retired current saved log now errmsg ledger schema
       set_current set_saved set_errmsg add_log set_conn] in *.

(** All bodies run and all inserts are taken: the loop returns, the
    ledger gains one row per body, numbered from [k + 1], and the log
    shows body and insert in turn. *)
Lemma apply_each_ok d its :
  forall k e rows sch',
    ledger (current (conn e)) = Some rows ->
    forallb plain its = true ->
    run_bodies k its (schema (current (conn e))) = Some sch' ->
    exists e',
      apply_each std d k its e = (Ok tt, e')
      /\ current (conn e') =
         {| ledger := Some (rows ++ ledger_rows (now (conn e)) k (length its));
            schema := sch' |}
      /\ saved (conn e') = saved (conn e)
      /\ log (conn e') = log (conn e) ++ body_events k its
      /\ now (conn e') = now (conn e).
Proof.
  induction its as [|m its IH]; intros k e rows sch' Hl Hp Hr.
  - exists e. cbn in Hr. injection Hr as <-.
    split; [reflexivity|]. rewrite !app_nil_r.
    destruct (current (conn e)) as [l sch]. cbn in Hl. subst l.
    repeat split.
  - cbn [forallb] in Hp. apply andb_true_iff in Hp as [Hm Hp].
    cbn [run_bodies] in Hr.
    destruct (run_body m (schema (current (conn e)))) as [sch1|] eqn:Hrun;
      [|discriminate].
    destruct (accepts_version sch1 (k + 1)) eqn:Hacc; [|discriminate].
    rewrite apply_each_cons, (body_ok d m e sch1 Hm Hrun).
    rewrite (insert_ok d (k + 1) _ rows)
      by (conn_simpl; assumption).
    conn_simpl.
    match goal with
    | |- context [apply_each std d (k + 1) its ?e2] =>
        destruct (IH (k + 1) e2
                    (rows ++ [{| Version := k + 1;
                                 AppliedOn := Text (now (conn e));
                                 Description := Null |}]) sch'
                    ltac:(reflexivity) Hp ltac:(exact Hr))
          as (e' & Hrun' & Hcur & Hsaved & Hlog & Hnow)
    end.
    conn_simpl.
    exists e'. split; [exact Hrun'|].
    rewrite Hcur, Hsaved, Hlog, Hnow. cbn [length ledger_rows body_events].
    rewrite <- !app_assoc. repeat split.
Qed.

(** The first failure of the loop, after [pre] went through: the loop
    throws there, with the rows of [pre] in the ledger. *)
Lemma apply_each_fails d pre bad post :
  forall k e rows sch1,
    ledger (current (conn e)) = Some rows ->
    forallb plain pre = true ->
    run_bodies k pre (schema (current (conn e))) = Some sch1 ->
    classify bad = KOther ->
    fails_at bad sch1 (k + Z.of_nat (length pre) + 1) = true ->
    exists ex e',
      apply_each std d k (pre ++ bad :: post) e = (Throw ex, e')
      /\ current (conn e') =
         {| ledger := Some (rows ++ ledger_rows (now (conn e)) k (length pre));
            schema := schema_at_failure bad sch1 |}
      /\ saved (conn e') = saved (conn e)
      /\ log (conn e') =
         log (conn e) ++ body_events k pre
         ++ failure_events bad sch1 (k + Z.of_nat (length pre) + 1)
      /\ now (conn e') = now (conn e).
Proof.
  induction pre as [|m pre IH]; intros k e rows sch1 Hl Hp Hr Hk Hbad.
  - cbn in Hr. injection Hr as <-. cbn [app length ledger_rows body_events].
    rewrite app_nil_r. rewrite apply_each_cons.
    unfold fails_at in Hbad. unfold schema_at_failure, failure_events.
    replace (k + Z.of_nat (length (@nil string)) + 1) with (k + 1) in Hbad
      by (cbn [length]; lia).
    replace (k + Z.of_nat 0 + 1) with (k + 1) by lia.
    destruct (compiles bad) eqn:Hc; cbn [negb orb] in Hbad.
    + assert (Hce : compile_error bad (conn e) = None)
        by (unfold compile_error; rewrite Hk, Hc; reflexivity).
      assert (Hn : parameter_count (classify bad) = 0%nat)
        by (rewrite Hk; reflexivity).
      destruct (run_body bad (schema (current (conn e)))) as [sch2|] eqn:Hrun.
      * apply negb_true_iff in Hbad.
        rewrite (body_ok d bad e sch2)
          by (try apply plain_spec; auto).
        rewrite (insert_rejected d (k + 1) _ rows)
          by (conn_simpl; assumption).
        eexists _, _. split; [reflexivity|]. conn_simpl.
        rewrite Hl, <- app_assoc. repeat split.
      * rewrite (execute_and_drop d bad e Hce Hn).
        rewrite (one_shot_body_fails _ _ Hk Hrun).
        change (stepped SQLITE_ERROR) with false. cbn iota.
        eexists _, _. split; [reflexivity|]. conn_simpl.
        destruct (current (conn e)) as [l sch]. cbn in Hl. subst l.
        repeat split.
    + assert (Hce : compile_error bad (conn e) = Some "syntax error")
        by (unfold compile_error; rewrite Hk, Hc; reflexivity).
      destruct (db_execute_compile_error d bad bnil e _ Hce) as (ex & Hex).
      munfold. rewrite Hex.
      eexists _, _. split; [reflexivity|]. conn_simpl.
      destruct (current (conn e)) as [l sch]. cbn in Hl. subst l.
      rewrite app_nil_r. repeat split.
  - cbn [forallb] in Hp. apply andb_true_iff in Hp as [Hm Hp].
    cbn [run_bodies] in Hr.
    destruct (run_body m (schema (current (conn e)))) as [sch2|] eqn:Hrun;
      [|discriminate].
    destruct (accepts_version sch2 (k + 1)) eqn:Hacc; [|discriminate].
    cbn [app]. rewrite apply_each_cons, (body_ok d m e sch2 Hm Hrun).
    rewrite (insert_ok d (k + 1) _ rows)
      by (conn_simpl; assumption).
    conn_simpl.
    replace (k + Z.of_nat (length (m :: pre)) + 1)
      with (k + 1 + Z.of_nat (length pre) + 1) in * by (cbn [length]; lia).
    match goal with
    | |- context [apply_each std d (k + 1) _ ?e2] =>
        destruct (IH (k + 1) e2
                    (rows ++ [{| Version := k + 1;
                                 AppliedOn := Text (now (conn e));
                                 Description := Null |}]) sch1
                    ltac:(reflexivity) Hp ltac:(exact Hr) Hk Hbad)
          as (ex & e' & Hrun' & Hcur & Hsaved & Hlog & Hnow)
    end.
    conn_simpl.
    exists ex, e'. split; [exact Hrun'|].
    rewrite Hcur, Hsaved, Hlog, Hnow. cbn [length ledger_rows body_events].
    rewrite <- !app_assoc. repeat split.
Qed.

(** *** The steps of [apply_migrations] *)

Lemma wrap32_small v : - 2 ^ 31 <= v < 2 ^ 31 -> wrap32 v = v.
Proof.
  intros Hv. unfold wrap32. rewrite Z.mod_small by lia. lia.
Qed.

Lemma to_size_t_small v : 0 <= v < 2 ^ 31 -> to_size_t v = v.
Proof. intros Hv. unfold to_size_t. apply Z.mod_small. lia. Qed.

Lemma create_version_info_table_ok d e :
  exists e1,
    create_version_info_table std d e = (Ok tt, e1)
    /\ current (conn e1) =
       {| ledger := Some (ledger_or_empty (current (conn e)));
          schema := schema (current (conn e)) |}
    /\ saved (conn e1) = saved (conn e)
    /\ log (conn e1) = log (conn e) ++ [done sql_create_version_info []]
    /\ now (conn e1) = now (conn e).
Proof.
  unfold create_version_info_table. rewrite execute_and_drop.
  - rewrite one_shot_create. cbn [stepped Z.eqb orb SQLITE_ROW SQLITE_DONE].
    eexists. split; [reflexivity|]. unfold ledger_or_empty.
    destruct (current (conn e)) as [[rows|] sch] eqn:Hcur;
      conn_simpl; rewrite ?Hcur; repeat split.
  - unfold compile_error. rewrite classify_create. reflexivity.
  - rewrite classify_create. reflexivity.
Qed.

(** The version query: the one row of [MAX(Version)] is read with
    [sqlite3_column_int]. *)
Lemma get_last_applied_version_eq d e rows :
  ledger (current (conn e)) = Some rows ->
  get_last_applied_version std d e =
  (Ok (wrap32 (current_version rows)),
   retired (add_log (yielded sql_max_version []) (conn e)) e).
Proof.
  intros Hl. unfold get_last_applied_version. munfold.
  rewrite (db_execute_bnil _ _ _ (compile_error_max _ _ Hl)).
  rewrite new_stmt_nullary by (rewrite classify_max; reflexivity).
  unfold run_logged, run. cbn [text params]. rewrite classify_max, Hl.
  change (stepped SQLITE_ROW) with true.
  change (SQLITE_ROW =? SQLITE_ROW) with true.
  cbn [position_after with_position text params].
  unfold with_statement. rewrite statement_fetch_eq.
  cbn [_can_fetch negb statement_column].
  unfold this_statement, engine_read. munfold.
  cbn [_statement column int32_t_column sqlite3_column_int reference_engine].
  rewrite column_value_compiled. cbn [position Z.ltb Z.to_nat nth Z.compare].
  cbn [snd chead]. rewrite statement_dtor_compiled. reflexivity.
Qed.

Lemma db_begin_ok d e :
  saved (conn e) = None ->
  db_begin std d DEFERRED e =
  (Ok tt,
   retired (add_log (done "BEGIN DEFERRED TRANSACTION" [])
              (set_saved (Some (current (conn e))) (conn e))) e).
Proof.
  intros Hs. unfold db_begin. rewrite execute_and_drop.
  - rewrite (one_shot_begin _ Hs). reflexivity.
  - reflexivity.
  - reflexivity.
Qed.

Lemma db_commit_ok d e snap :
  saved (conn e) = Some snap ->
  db_commit std d e =
  (Ok tt,
   retired (add_log (done "COMMIT TRANSACTION" []) (set_saved None (conn e))) e).
Proof.
  intros Hs. unfold db_commit. rewrite execute_and_drop.
  - rewrite (one_shot_commit _ _ Hs). reflexivity.
  - reflexivity.
  - reflexivity.
Qed.

Lemma db_rollback_ok d e snap :
  saved (conn e) = Some snap ->
  db_rollback std d e =
  (Ok tt,
   retired (add_log (done "ROLLBACK TRANSACTION" [])
              (set_saved None (set_current snap (conn e)))) e).
Proof.
  intros Hs. unfold db_rollback. rewrite execute_and_drop.
  - rewrite (one_shot_rollback _ _ Hs). reflexivity.
  - reflexivity.
  - reflexivity.
Qed.

(** *** Versions in the ledger *)

Lemma fold_max_ledger_rows t k :
  forall from a,
    fold_left Z.max (map Version (ledger_rows t from k)) a =
    match k with
    | O => a
    | S _ => Z.max a (from + Z.of_nat k)
    end.
Proof.
  induction k as [|k IH]; intros from a; [reflexivity|].
  cbn [ledger_rows map fold_left Version]. rewrite IH.
  destruct k; lia.
Qed.

Lemma current_version_app rows t k :
  current_version (rows ++ ledger_rows t (current_version rows) k) =
  current_version rows + Z.of_nat k.
Proof.
  destruct rows as [|r rows].
  - cbn [app]. change (current_version []) with 0.
    destruct k as [|k]; [reflexivity|].
    unfold current_version. cbn [ledger_rows max_version value_to_int Version].
    rewrite fold_max_ledger_rows. destruct k; lia.
  - unfold current_version. cbn [app max_version value_to_int].
    rewrite map_app, fold_left_app, fold_max_ledger_rows.
    destruct k; lia.
Qed.

Lemma versions_ledger_rows t n :
  forall from,
    map Version (ledger_rows t from n) =
    map (fun i => from + Z.of_nat i) (seq 1 n).
Proof.
  induction n as [|n IH]; intros from; [reflexivity|].
  cbn [ledger_rows map seq Version]. rewrite IH.
  rewrite <- (seq_shift n 1), map_map. f_equal.
  apply map_ext. intros i. lia.
Qed.

Lemma applied_on_ledger_rows t n :
  forall from, Forall (fun r => AppliedOn r <> Null) (ledger_rows t from n).
Proof.
  induction n as [|n IH]; intros from; constructor; [discriminate|apply IH].
Qed.

(** *** Whole runs *)

(** Nothing to do: only the two statements before the size test run. *)
Lemma apply_migrations_noop d ms e :
  saved (conn e) = None ->
  0 <= current_version (ledger_or_empty (current (conn e))) < 2 ^ 31 ->
  Z.of_nat (length ms) <= current_version (ledger_or_empty (current (conn e))) ->
  exists e',
    apply_migrations std d ms e = (Ok tt, e')
    /\ current (conn e') =
       {| ledger := Some (ledger_or_empty (current (conn e)));
          schema := schema (current (conn e)) |}
    /\ saved (conn e') = None
    /\ log (conn e') =
       log (conn e)
       ++ [done sql_create_version_info []; yielded sql_max_version []]
    /\ now (conn e') = now (conn e).
Proof.
  intros Hs Hv Hn. unfold apply_migrations. munfold.
  destruct (create_version_info_table_ok d e)
    as (e1 & Hrun1 & Hcur1 & Hsaved1 & Hlog1 & Hnow1).
  rewrite Hrun1.
  rewrite (get_last_applied_version_eq d e1
             (ledger_or_empty (current (conn e))))
    by (rewrite Hcur1; reflexivity).
  rewrite wrap32_small, to_size_t_small by lia.
  destruct (Z.ltb_spec (current_version (ledger_or_empty (current (conn e))))
              (Z.of_nat (length ms))) as [Hlt|_]; [lia|].
  eexists. split; [reflexivity|]. conn_simpl.
  rewrite Hcur1, Hsaved1, Hlog1, Hnow1, Hs, <- app_assoc. repeat split.
Qed.

(** Pending migrations, all of which run. *)
Lemma apply_migrations_applies d ms e sch' :
  saved (conn e) = None ->
  0 <= current_version (ledger_or_empty (current (conn e))) < 2 ^ 31 ->
  current_version (ledger_or_empty (current (conn e))) < Z.of_nat (length ms) ->
  forallb plain
    (drop (Z.to_nat (current_version (ledger_or_empty (current (conn e))))) ms)
  = true ->
  run_bodies (current_version (ledger_or_empty (current (conn e))))
    (drop (Z.to_nat (current_version (ledger_or_empty (current (conn e))))) ms)
    (schema (current (conn e))) = Some sch' ->
  exists e',
    apply_migrations std d ms e = (Ok tt, e')
    /\ current (conn e') =
       (let rows := ledger_or_empty (current (conn e)) in
        let v := current_version rows in
        {| ledger :=
             Some (rows ++ ledger_rows (now (conn e)) v
                             (length (drop (Z.to_nat v) ms)));
           schema := sch' |})
    /\ saved (conn e') = None
    /\ log (conn e') =
       (let v := current_version (ledger_or_empty (current (conn e))) in
        log (conn e)
        ++ [done sql_create_version_info []; yielded sql_max_version [];
            done "BEGIN DEFERRED TRANSACTION" []]
        ++ body_events v (drop (Z.to_nat v) ms)
        ++ [done "COMMIT TRANSACTION" []])
    /\ now (conn e') = now (conn e).
Proof.
  intros Hs Hv Hn Hp Hr. unfold apply_migrations. munfold.
  set (rows := ledger_or_empty (current (conn e))) in *.
  set (v := current_version rows) in *.
  destruct (create_version_info_table_ok d e)
    as (e1 & Hrun1 & Hcur1 & Hsaved1 & Hlog1 & Hnow1).
  fold rows in Hcur1. rewrite Hrun1.
  rewrite (get_last_applied_version_eq d e1 rows)
    by (rewrite Hcur1; reflexivity).
  fold v. rewrite wrap32_small, to_size_t_small by lia.
  destruct (Z.ltb_spec v (Z.of_nat (length ms))) as [_|Hge]; [|lia].
  rewrite db_begin_ok by (conn_simpl; congruence).
  conn_simpl.
  match goal with
  | |- context [apply_each std d v _ ?e3] =>
      destruct (apply_each_ok d (drop (Z.to_nat v) ms) v e3 rows sch'
                  ltac:(conn_simpl; rewrite Hcur1; reflexivity) Hp
                  ltac:(conn_simpl; rewrite Hcur1; exact Hr))
        as (e4 & Hrun4 & Hcur4 & Hsaved4 & Hlog4 & Hnow4)
  end.
  rewrite Hrun4. conn_simpl.
  rewrite (db_commit_ok d e4 _ Hsaved4).
  eexists. split; [reflexivity|]. conn_simpl.
  rewrite Hcur4, Hlog4, Hnow4, Hlog1, Hnow1.
  rewrite <- !app_assoc. repeat split.
Qed.

(** A pending migration fails after the bodies [pre] ran: the exception
    leaves the run with the transaction open. *)
Lemma apply_migrations_fails d ms e pre bad post sch1 :
  saved (conn e) = None ->
  0 <= current_version (ledger_or_empty (current (conn e))) < 2 ^ 31 ->
  current_version (ledger_or_empty (current (conn e))) < Z.of_nat (length ms) ->
  drop (Z.to_nat (current_version (ledger_or_empty (current (conn e))))) ms
  = pre ++ bad :: post ->
  forallb plain pre = true ->
  run_bodies (current_version (ledger_or_empty (current (conn e)))) pre
    (schema (current (conn e))) = Some sch1 ->
  classify bad = KOther ->
  fails_at bad sch1
    (current_version (ledger_or_empty (current (conn e)))
     + Z.of_nat (length pre) + 1) = true ->
  exists ex e',
    apply_migrations std d ms e = (Throw ex, e')
    /\ current (conn e') =
       (let rows := ledger_or_empty (current (conn e)) in
        {| ledger :=
             Some (rows ++ ledger_rows (now (conn e)) (current_version rows)
                             (length pre));
           schema := schema_at_failure bad sch1 |})
    /\ saved (conn e') =
       Some {| ledger := Some (ledger_or_empty (current (conn e)));
               schema := schema (current (conn e)) |}
    /\ log (conn e') =
       (let v := current_version (ledger_or_empty (current (conn e))) in
        log (conn e)
        ++ [done sql_create_version_info []; yielded sql_max_version [];
            done "BEGIN DEFERRED TRANSACTION" []]
        ++ body_events v pre
        ++ failure_events bad sch1 (v + Z.of_nat (length pre) + 1))
    /\ now (conn e') = now (conn e).
Proof.
  intros Hs Hv Hn Hdrop Hp Hr Hk Hbad. unfold apply_migrations. munfold.
  set (rows := ledger_or_empty (current (conn e))) in *.
  set (v := current_version rows) in *.
  destruct (create_version_info_table_ok d e)
    as (e1 & Hrun1 & Hcur1 & Hsaved1 & Hlog1 & Hnow1).
  fold rows in Hcur1. rewrite Hrun1.
  rewrite (get_last_applied_version_eq d e1 rows)
    by (rewrite Hcur1; reflexivity).
  fold v. rewrite wrap32_small, to_size_t_small by lia.
  destruct (Z.ltb_spec v (Z.of_nat (length ms))) as [_|Hge]; [|lia].
  rewrite db_begin_ok by (conn_simpl; congruence).
  conn_simpl. rewrite Hdrop.
  match goal with
  | |- context [apply_each std d v _ ?e3] =>
      destruct (apply_each_fails d pre bad post v e3 rows sch1
                  ltac:(conn_simpl; rewrite Hcur1; reflexivity) Hp
                  ltac:(conn_simpl; rewrite Hcur1; exact Hr) Hk Hbad)
        as (ex & e4 & Hrun4 & Hcur4 & Hsaved4 & Hlog4 & Hnow4)
  end.
  rewrite Hrun4. exists ex, e4. split; [reflexivity|]. conn_simpl.
  rewrite Hcur4, Hsaved4, Hlog4, Hnow4, Hcur1, Hlog1, Hnow1.
  rewrite <- !app_assoc. repeat split.
Qed.

Lemma apply_migrations_from_zero d ms e sch' :
  saved (conn e) = None ->
  ledger_or_empty (current (conn e)) = [] ->
  forallb plain ms = true ->
  run_bodies 0 ms (schema (current (conn e))) = Some sch' ->
  exists e',
    apply_migrations std d ms e = (Ok tt, e')
    /\ current (conn e') =
       {| ledger := Some (ledger_rows (now (conn e)) 0 (length ms));
          schema := sch' |}
    /\ saved (conn e') = None
    /\ log (conn e') =
       log (conn e)
       ++ [done sql_create_version_info []; yielded sql_max_version []]
       ++ match ms with
          | [] => []
          | _ :: _ =>
              [done "BEGIN DEFERRED TRANSACTION" []]
              ++ body_events 0 ms ++ [done "COMMIT TRANSACTION" []]
          end.
Proof.
  intros Hs Hrows Hp Hr. destruct ms as [|m ms].
  - destruct (apply_migrations_noop d [] e Hs) as (e' & Hrun & Hcur & Hsv & Hlog & _).
    + rewrite Hrows. change (current_version []) with 0. lia.
    + rewrite Hrows. reflexivity.
    + cbn in Hr. injection Hr as <-. exists e'.
      rewrite Hrun, Hcur, Hsv, Hlog, Hrows. repeat split.
  - destruct (apply_migrations_applies d (m :: ms) e sch' Hs)
      as (e' & Hrun & Hcur & Hsv & Hlog & _).
    + rewrite Hrows. change (current_version []) with 0. lia.
    + rewrite Hrows. change (current_version []) with 0.
      cbn [length]. lia.
    + rewrite Hrows. exact Hp.
    + rewrite Hrows. exact Hr.
    + exists e'. rewrite Hrun, Hcur, Hsv, Hlog, Hrows. repeat split.
Qed.

Lemma plain_not_rollback m : plain m = true -> m <> "ROLLBACK TRANSACTION".
Proof.
  intros Hp ->. apply plain_spec in Hp as [Hk _].
  rewrite classify_rollback in Hk. discriminate.
Qed.

Lemma body_events_no_rollback ms :
  forallb plain ms = true ->
  forall k, ~ In "ROLLBACK TRANSACTION" (executed_sql (body_events k ms)).
Proof.
  induction ms as [|m ms IH]; intros Hp k; [intros []|].
  cbn [forallb] in Hp. apply andb_true_iff in Hp as [Hm Hp].
  cbn [body_events executed_sql map ev_sql done In].
  intros [Heq|[Heq|Hin]].
  - exact (plain_not_rollback m Hm Heq).
  - discriminate.
  - exact (IH Hp (k + 1) Hin).
Qed.

Lemma plain_not_commit m : plain m = true -> m <> "COMMIT TRANSACTION".
Proof.
  intros Hp ->. apply plain_spec in Hp as [Hk _].
  rewrite classify_commit in Hk. discriminate.
Qed.

Lemma body_events_no_commit ms :
  forallb plain ms = true ->
  forall k, ~ In "COMMIT TRANSACTION" (executed_sql (body_events k ms)).
Proof.
  induction ms as [|m ms IH]; intros Hp k; [intros []|].
  cbn [forallb] in Hp. apply andb_true_iff in Hp as [Hm Hp].
  cbn [body_events executed_sql map ev_sql done In].
  intros [Heq|[Heq|Hin]].
  - exact (plain_not_commit m Hm Heq).
  - discriminate.
  - exact (IH Hp (k + 1) Hin).
Qed.

Lemma failure_events_sql bad sch version sql :
  In sql (map ev_sql (failure_events bad sch version)) ->
  sql = bad \/ sql = sql_insert_version.
Proof.
  unfold failure_events.
  destruct (compiles bad); [|intros []].
  destruct (run_body bad sch); cbn [map ev_sql done failed In]; intuition.
Qed.

(** C1.  On a fresh database (no ledger table or an empty one, no
    transaction open) the runner, given bodies that all run, returns
    normally; the ledger table exists afterwards and holds one row per
    migration, with the versions 1, ..., n in that order and a timestamp
    that is not NULL; the log shows the table creation, the version query,
    and then, inside one BEGIN ... COMMIT, each body followed by its
    ledger insert, in list order (for an empty list no transaction is
    opened). *)
Theorem apply_migrations_fresh d ms e sch' :
  saved (conn e) = None ->
  ledger_or_empty (current (conn e)) = [] ->
  forallb plain ms = true ->
  run_bodies 0 ms (schema (current (conn e))) = Some sch' ->
  exists e' rows,
    apply_migrations std d ms e = (Ok tt, e')
    /\ ledger (current (conn e')) = Some rows
    /\ map Version rows = map Z.of_nat (seq 1 (length ms))
    /\ Forall (fun r => AppliedOn r <> Null) rows
    /\ schema (current (conn e')) = sch'
    /\ in_transaction (conn e') = false
    /\ log (conn e') =
       log (conn e)
       ++ [done sql_create_version_info []; yielded sql_max_version []]
       ++ match ms with
          | [] => []
          | _ :: _ =>
              [done "BEGIN DEFERRED TRANSACTION" []]
              ++ body_events 0 ms ++ [done "COMMIT TRANSACTION" []]
          end.
Proof.
  intros Hs Hrows Hp Hr.
  destruct (apply_migrations_from_zero d ms e sch' Hs Hrows Hp Hr)
    as (e' & Hrun & Hcur & Hsv & Hlog).
  exists e', (ledger_rows (now (conn e)) 0 (length ms)).
  unfold in_transaction. rewrite Hrun, Hcur, Hsv, Hlog. cbn [ledger schema].
  repeat split.
  - rewrite versions_ledger_rows. apply map_ext. intros i. lia.
  - apply applied_on_ledger_rows.
Qed.

(** C2, as the code has it.  When a pending body fails (or its ledger
    insert is rejected) the runner throws and nothing of the run is
    committed: the committed database is the
    pre-run one (with the ledger table created if it was absent), so its
    ledger has the pre-run rows and version.  The connection itself is
    left inside the open transaction; a rollback, or closing the
    connection, brings it back to the committed state. *)
Theorem failed_run_commits_nothing d ms e pre bad post sch1 :
  saved (conn e) = None ->
  0 <= current_version (ledger_or_empty (current (conn e))) < 2 ^ 31 ->
  current_version (ledger_or_empty (current (conn e))) < Z.of_nat (length ms) ->
  drop (Z.to_nat (current_version (ledger_or_empty (current (conn e))))) ms
  = pre ++ bad :: post ->
  forallb plain pre = true ->
  run_bodies (current_version (ledger_or_empty (current (conn e)))) pre
    (schema (current (conn e))) = Some sch1 ->
  classify bad = KOther ->
  fails_at bad sch1
    (current_version (ledger_or_empty (current (conn e)))
     + Z.of_nat (length pre) + 1) = true ->
  exists ex e',
    apply_migrations std d ms e = (Throw ex, e')
    /\ committed (conn e') =
       {| ledger := Some (ledger_or_empty (current (conn e)));
          schema := schema (current (conn e)) |}
    /\ current_version (ledger_or_empty (committed (conn e'))) =
       current_version (ledger_or_empty (current (conn e)))
    /\ (exists e'',
           db_rollback std d e' = (Ok tt, e'')
           /\ current (conn e'') = committed (conn e')
           /\ in_transaction (conn e'') = false)
    /\ (_db d <> nullptr ->
        current (conn (db_dtor d e')) = committed (conn e')
        /\ in_transaction (conn (db_dtor d e')) = false).
Proof.
  intros Hs Hv Hn Hdrop Hp Hr Hk Hbad.
  destruct (apply_migrations_fails d ms e pre bad post sch1
              Hs Hv Hn Hdrop Hp Hr Hk Hbad)
    as (ex & e' & Hrun & Hcur & Hsv & Hlog & Hnow).
  exists ex, e'. split; [exact Hrun|].
  unfold committed. rewrite Hsv. split; [reflexivity|].
  split; [reflexivity|]. split.
  - rewrite (db_rollback_ok d e' _ Hsv). eexists. split; [reflexivity|].
    conn_simpl. split; reflexivity.
  - intros Hd. unfold db_dtor.
    destruct (_db d =? nullptr) eqn:Heq; [apply Z.eqb_eq in Heq; contradiction|].
    cbn [negb sqlite3_close_v2 reference_engine]. unfold ref_close.
    rewrite Heq. conn_simpl. unfold committed. rewrite Hsv.
    split; reflexivity.
Qed.

(** C3.  With the ledger at version [v] (and no transaction open):
    a list that is not longer than [v] runs no body and inserts no row,
    the database is unchanged and only the table creation and the version
    query are executed; a longer list runs exactly the bodies at the
    0-based positions [v], [v + 1], ... in order, each followed by the
    insert of its 1-based position, and the ledger maximum becomes the
    length of the list. *)
Theorem apply_migrations_rerun d ms e rows :
  saved (conn e) = None ->
  ledger (current (conn e)) = Some rows ->
  0 <= current_version rows < 2 ^ 31 ->
  (Z.of_nat (length ms) <= current_version rows ->
   exists e',
     apply_migrations std d ms e = (Ok tt, e')
     /\ current (conn e') = current (conn e)
     /\ in_transaction (conn e') = false
     /\ log (conn e') =
        log (conn e)
        ++ [done sql_create_version_info []; yielded sql_max_version []])
  /\ (forall sch',
         current_version rows < Z.of_nat (length ms) ->
         forallb plain (drop (Z.to_nat (current_version rows)) ms) = true ->
         run_bodies (current_version rows)
           (drop (Z.to_nat (current_version rows)) ms)
           (schema (current (conn e))) = Some sch' ->
         exists e' rows',
           apply_migrations std d ms e = (Ok tt, e')
           /\ current (conn e') = {| ledger := Some rows'; schema := sch' |}
           /\ rows' =
              rows ++ ledger_rows (now (conn e)) (current_version rows)
                        (length (drop (Z.to_nat (current_version rows)) ms))
           /\ current_version rows' = Z.of_nat (length ms)
           /\ in_transaction (conn e') = false
           /\ log (conn e') =
              log (conn e)
              ++ [done sql_create_version_info []; yielded sql_max_version [];
                  done "BEGIN DEFERRED TRANSACTION" []]
              ++ body_events (current_version rows)
                   (drop (Z.to_nat (current_version rows)) ms)
              ++ [done "COMMIT TRANSACTION" []]).
Proof.
  intros Hs Hl Hv.
  assert (Hrows : ledger_or_empty (current (conn e)) = rows)
    by (unfold ledger_or_empty; rewrite Hl; reflexivity).
  split.
  - intros Hn.
    destruct (apply_migrations_noop d ms e Hs)
      as (e' & Hrun & Hcur & Hsv & Hlog & _); rewrite ?Hrows; try assumption.
    exists e'. unfold in_transaction. rewrite Hrun, Hcur, Hsv, Hlog, Hrows.
    repeat split.
    destruct (current (conn e)) as [l sch]. cbn in Hl. subst l. reflexivity.
  - intros sch' Hn Hp Hr.
    destruct (apply_migrations_applies d ms e sch' Hs)
      as (e' & Hrun & Hcur & Hsv & Hlog & _); rewrite ?Hrows; try assumption.
    rewrite Hrows in Hcur, Hlog. cbv zeta in Hcur, Hlog.
    eexists e', _. unfold in_transaction. rewrite Hrun, Hcur, Hsv, Hlog.
    repeat split.
    rewrite current_version_app, length_drop. lia.
Qed.

(** C7.  With an existing, empty ledger table the version query yields
    one row whose column is NULL; the row is fetched (the flag is set) and
    the integer read of the NULL column gives 0 whatever the output held
    before.  [get_last_applied_version] does just that: it runs the
    version query once (the log gains the query with its row), finalizes
    the statement and returns the integer read of the row's column, which
    is 0 on the empty ledger and the ledger maximum cut to an [int] on
    any other.  So the runner sees version 0 and a first run, after the
    table creation and the version query, applies every migration in one
    transaction, numbering them from 1. *)
Theorem empty_ledger_reads_version_zero d e :
  ledger (current (conn e)) = Some [] ->
  (exists s e1,
      db_execute std d sql_max_version bnil e = (Ok s, e1)
      /\ _can_fetch s = true
      /\ log (conn e1) = log (conn e) ++ [yielded sql_max_version []]
      /\ sqlite3_column_type (_statement s) 0 e1 = SQLITE_NULL
      /\ sqlite3_column_int (_statement s) 0 e1 = 0
      /\ forall x,
           fst (statement_fetch (ccons int32_t_column x cnil) (s, e1)) =
           Ok (true, ccons int32_t_column 0 cnil))
  /\ get_last_applied_version std d e
     = (Ok 0, retired (add_log (yielded sql_max_version []) (conn e)) e)
  /\ (forall e0 rows,
         ledger (current (conn e0)) = Some rows ->
         get_last_applied_version std d e0
         = (Ok (wrap32 (value_to_int (max_version rows))),
            retired (add_log (yielded sql_max_version []) (conn e0)) e0))
  /\ (forall ms sch',
         saved (conn e) = None ->
         forallb plain ms = true ->
         run_bodies 0 ms (schema (current (conn e))) = Some sch' ->
         exists e',
           apply_migrations std d ms e = (Ok tt, e')
           /\ current (conn e') =
              {| ledger := Some (ledger_rows (now (conn e)) 0 (length ms));
                 schema := sch' |}
           /\ map Version (ledger_rows (now (conn e)) 0 (length ms)) =
              map Z.of_nat (seq 1 (length ms))
           /\ saved (conn e') = None
           /\ log (conn e') =
              log (conn e)
              ++ [done sql_create_version_info []; yielded sql_max_version []]
              ++ match ms with
                 | [] => []
                 | _ :: _ =>
                     [done "BEGIN DEFERRED TRANSACTION" []]
                     ++ body_events 0 ms ++ [done "COMMIT TRANSACTION" []]
                 end).
Proof.
  intros Hl. split; [|split; [|split]].
  - rewrite (db_execute_bnil _ _ _ (compile_error_max _ _ Hl)).
    rewrite new_stmt_nullary by (rewrite classify_max; reflexivity).
    unfold run_logged, run. cbn [text params]. rewrite classify_max, Hl.
    change (stepped SQLITE_ROW) with true.
    change (SQLITE_ROW =? SQLITE_ROW) with true.
    cbn [position_after with_position text params max_version].
    eexists _, _. split; [reflexivity|]. split; [reflexivity|].
    split; [reflexivity|].
    cbn [_statement sqlite3_column_type sqlite3_column_int reference_engine].
    rewrite column_value_compiled. cbn [position].
    split; [reflexivity|]. split; [reflexivity|].
    intros x. rewrite statement_fetch_eq.
    cbn [_can_fetch negb statement_column].
    unfold this_statement, engine_read. munfold.
    cbn [_statement column int32_t_column sqlite3_column_int reference_engine].
    rewrite column_value_compiled. reflexivity.
  - rewrite (get_last_applied_version_eq d e [] Hl). reflexivity.
  - intros e0 rows Hrows. apply (get_last_applied_version_eq d e0 rows Hrows).
  - intros ms sch' Hs Hp Hr.
    destruct (apply_migrations_from_zero d ms e sch' Hs)
      as (e' & Hrun & Hcur & Hsaved & Hlog); try assumption.
    { unfold ledger_or_empty. rewrite Hl. reflexivity. }
    exists e'. split; [exact Hrun|]. split; [exact Hcur|].
    split; [|split; [exact Hsaved|exact Hlog]].
    rewrite versions_ledger_rows. apply map_ext. intros i. lia.
Qed.

(** C9.  The runner never rolls back.  When a pending body fails or its
    ledger insert is rejected, the exception leaves the run with the
    transaction that [begin] opened still open; no ROLLBACK is among the statements the run executed; a
    version query on the same connection sees the rows inserted before
    the failure; the transaction ends only when the caller rolls back or
    the connection is closed. *)
Theorem failed_run_leaves_transaction_open d ms e pre bad post sch1 :
  saved (conn e) = None ->
  0 <= current_version (ledger_or_empty (current (conn e))) < 2 ^ 31 ->
  current_version (ledger_or_empty (current (conn e))) < Z.of_nat (length ms) ->
  drop (Z.to_nat (current_version (ledger_or_empty (current (conn e))))) ms
  = pre ++ bad :: post ->
  forallb plain pre = true ->
  run_bodies (current_version (ledger_or_empty (current (conn e)))) pre
    (schema (current (conn e))) = Some sch1 ->
  classify bad = KOther ->
  fails_at bad sch1
    (current_version (ledger_or_empty (current (conn e)))
     + Z.of_nat (length pre) + 1) = true ->
  exists ex e' executed,
    apply_migrations std d ms e = (Throw ex, e')
    /\ in_transaction (conn e') = true
    /\ log (conn e') = log (conn e) ++ executed
    /\ In "BEGIN DEFERRED TRANSACTION" (executed_sql executed)
    /\ ~ In "ROLLBACK TRANSACTION" (executed_sql executed)
    /\ ~ In "COMMIT TRANSACTION" (executed_sql executed)
    /\ current (conn e') =
       (let rows := ledger_or_empty (current (conn e)) in
        {| ledger :=
             Some (rows ++ ledger_rows (now (conn e)) (current_version rows)
                             (length pre));
           schema := schema_at_failure bad sch1 |})
    /\ fst (get_last_applied_version std d e') =
       Ok (wrap32 (current_version (ledger_or_empty (current (conn e)))
                   + Z.of_nat (length pre)))
    /\ (exists e'',
           db_rollback std d e' = (Ok tt, e'')
           /\ in_transaction (conn e'') = false
           /\ current (conn e'') =
              {| ledger := Some (ledger_or_empty (current (conn e)));
                 schema := schema (current (conn e)) |})
    /\ (_db d <> nullptr -> in_transaction (conn (db_dtor d e')) = false).
Proof.
  intros Hs Hv Hn Hdrop Hp Hr Hk Hbad.
  destruct (apply_migrations_fails d ms e pre bad post sch1
              Hs Hv Hn Hdrop Hp Hr Hk Hbad)
    as (ex & e' & Hrun & Hcur & Hsv & Hlog & Hnow).
  cbv zeta in Hcur, Hlog.
  eexists ex, e', _. split; [exact Hrun|].
  split; [unfold in_transaction; rewrite Hsv; reflexivity|].
  split; [exact Hlog|].
  split; [cbn; auto|].
  split; [|split; [|split; [exact Hcur|split; [|split]]]].
  - unfold executed_sql. rewrite !map_app. cbn [map ev_sql done yielded app].
    intros [Heq|[Heq|[Heq|Hin]]]; try discriminate.
    apply in_app_or in Hin as [Hin|Hin].
    + exact (body_events_no_rollback pre Hp _ Hin).
    + apply failure_events_sql in Hin as [Heq|Heq]; [|discriminate].
      subst bad. rewrite classify_rollback in Hk. discriminate.
  - unfold executed_sql. rewrite !map_app. cbn [map ev_sql done yielded app].
    intros [Heq|[Heq|[Heq|Hin]]]; try discriminate.
    apply in_app_or in Hin as [Hin|Hin].
    + exact (body_events_no_commit pre Hp _ Hin).
    + apply failure_events_sql in Hin as [Heq|Heq]; [|discriminate].
      subst bad. rewrite classify_commit in Hk. discriminate.
  - rewrite (get_last_applied_version_eq d e' _ ltac:(rewrite Hcur; reflexivity)).
    cbn [fst]. rewrite current_version_app. reflexivity.
  - rewrite (db_rollback_ok d e' _ Hsv). eexists. split; [reflexivity|].
    conn_simpl. split; reflexivity.
  - intros Hd. unfold db_dtor.
    destruct (_db d =? nullptr) eqn:Heq; [apply Z.eqb_eq in Heq; contradiction|].
    cbn [negb sqlite3_close_v2 reference_engine]. unfold ref_close.
    rewrite Heq. reflexivity.
Qed.

(** *** Optionals through [SELECT ?] *)

Lemma one_shot_select_param v c :
  one_shot sql_select_param [v] c =
  (SQLITE_ROW, Some [v], add_log (yielded sql_select_param [v]) c).
Proof.
  unfold one_shot, run_logged, run. cbn [text params].
  rewrite classify_select_param. reflexivity.
Qed.

Lemma compile_error_select_param c : compile_error sql_select_param c = None.
Proof. unfold compile_error. rewrite classify_select_param. reflexivity. Qed.

Lemma db_execute_select_null d {T} (tr : bind_traits T) (arg : T) e :
  (forall e', bind tr (fresh_handle e) 1 arg TRANSIENT e' =
              ref_bind (fresh_handle e) 1 Null e') ->
  db_execute std d sql_select_param (bcons tr arg bnil) e =
  (Ok {| _can_fetch := true; _statement := fresh_handle e |},
   compiled (Some {| text := sql_select_param; params := [Null];
                     position := HasRow [Null] |})
     (add_log (yielded sql_select_param [Null]) (conn e)) e).
Proof.
  intros Hb.
  rewrite (db_execute_unary d sql_select_param tr arg Null e
             (compile_error_select_param _)) by (reflexivity || exact Hb).
  rewrite one_shot_select_param. reflexivity.
Qed.

Lemma optional_round_trip d {T} `{DefaultConstructible T}
    (tb : bind_traits T) (tc : column_traits T) e (out : option T) :
  exists s e1 w,
    db_execute std d sql_select_param (bcons (optional_bind tb) None bnil) e
    = (Ok s, e1)
    /\ statement_fetch (ccons (optional_column tc) out cnil) (s, e1)
       = (Ok (true, ccons (optional_column tc) None cnil), w).
Proof.
  rewrite db_execute_select_null by reflexivity.
  eexists _, _, _. split; [reflexivity|].
  rewrite statement_fetch_eq. cbn [_can_fetch negb statement_column].
  unfold this_statement, engine_read. munfold.
  cbn [_statement column optional_column sqlite3_column_type reference_engine].
  rewrite column_value_compiled. reflexivity.
Qed.

Lemma boost_optional_round_trip d {T}
    (tb : bind_traits T) (tc : column_traits T) e (out : boost_optional T) :
  exists s e1 w,
    db_execute std d sql_select_param
      (bcons (boost_optional_bind tb) boost_none bnil) e
    = (Ok s, e1)
    /\ statement_fetch (ccons (boost_optional_column tc) out cnil) (s, e1)
       = (Ok (true, ccons (boost_optional_column tc) boost_none cnil), w).
Proof.
  rewrite db_execute_select_null by reflexivity.
  eexists _, _, _. split; [reflexivity|].
  rewrite statement_fetch_eq. cbn [_can_fetch negb statement_column].
  unfold this_statement, engine_read. munfold.
  cbn [_statement column boost_optional_column sqlite3_column_type
       reference_engine].
  rewrite column_value_compiled. reflexivity.
Qed.

(** *** Releases *)

Lemma closed_db_dtor d e : closed (db_dtor d e) = closed e ++ held (_db d).
Proof.
  unfold db_dtor, held. cbn [sqlite3_close_v2 reference_engine].
  unfold ref_close. destruct (_db d =? nullptr); cbn [negb closed].
  - rewrite app_nil_r. reflexivity.
  - reflexivity.
Qed.

Lemma finalized_statement_dtor (s : statement) e :
  finalized (statement_dtor s e) = finalized e ++ held (_statement s).
Proof.
  unfold statement_dtor, held. cbn [sqlite3_finalize reference_engine].
  unfold ref_finalize. destruct (_statement s =? nullptr); cbn [negb finalized].
  - rewrite app_nil_r. reflexivity.
  - reflexivity.
Qed.

End ReferenceProperties.

(** ** Optionals and ownership *)

(** C6.  For every element type with a specialisation, in both headers:
    an absent optional binds SQL NULL and a present one binds through the
    element type; a NULL column read into an optional gives the absent
    value whatever the optional held; and on the reference engine an
    absent optional bound to the parameter of [SELECT ?] is read back
    absent. *)
Theorem optional_absent_is_null :
  (forall (E : Type) (H : Engine E) (T : Type) (tr : bind_traits T)
          (st idx : Z) (policy : bind_policy) (e : E),
      bind (optional_bind tr) st idx None policy e = sqlite3_bind_null st idx e
      /\ (forall x, bind (optional_bind tr) st idx (Some x) policy e =
                    bind tr st idx x policy e)
      /\ bind (boost_optional_bind tr) st idx boost_none policy e =
         sqlite3_bind_null st idx e
      /\ (forall x, bind (boost_optional_bind tr) st idx (boost_some x) policy e =
                    bind tr st idx x policy e))
  /\ (forall (E : Type) (H : Engine E) (T : Type) (dflt : DefaultConstructible T)
             (tr : column_traits T) (st col : Z) (e : E),
         sqlite3_column_type st col e = SQLITE_NULL ->
         (forall arg, column (optional_column tr) st col arg e = (Ok None, e))
         /\ (forall arg, column (boost_optional_column tr) st col arg e =
                         (Ok boost_none, e)))
  /\ (forall (Schema : Type) (model : SchemaModel Schema) (std : variant)
             (T : Type) (dflt : DefaultConstructible T)
             (tb : bind_traits T) (tc : column_traits T)
             (d : db) (e : engine Schema) (out : option T),
         exists s e1 w,
           db_execute std d sql_select_param
             (bcons (optional_bind tb) None bnil) e = (Ok s, e1)
           /\ statement_fetch (ccons (optional_column tc) out cnil) (s, e1)
              = (Ok (true, ccons (optional_column tc) None cnil), w))
  /\ (forall (Schema : Type) (model : SchemaModel Schema) (std : variant)
             (T : Type) (tb : bind_traits T) (tc : column_traits T)
             (d : db) (e : engine Schema) (out : boost_optional T),
         exists s e1 w,
           db_execute std d sql_select_param
             (bcons (boost_optional_bind tb) boost_none bnil) e = (Ok s, e1)
           /\ statement_fetch (ccons (boost_optional_column tc) out cnil) (s, e1)
              = (Ok (true, ccons (boost_optional_column tc) boost_none cnil), w)).
Proof.
  split; [|split; [|split]].
  - intros E H T tr st idx policy e. repeat split.
  - intros E H T dflt tr st col e Hnull.
    split; intros arg; cbn [column optional_column boost_optional_column];
      rewrite Hnull; reflexivity.
  - intros Schema model std T dflt tb tc d e out.
    apply optional_round_trip.
  - intros Schema model std T tb tc d e out.
    apply boost_optional_round_trip.
Qed.

Lemma count_occ_held h a b :
  a <> b -> h <> nullptr -> h = a \/ h = b ->
  count_occ Z.eq_dec (held a ++ held b) h = 1%nat.
Proof.
  intros Hab Hh Hor. unfold held.
  destruct (Z.eqb_spec a nullptr) as [Ha|Ha], (Z.eqb_spec b nullptr) as [Hb|Hb];
    cbn [app count_occ];
    repeat match goal with
           | |- context [Z.eq_dec ?x ?y] => destruct (Z.eq_dec x y)
           end; try reflexivity; destruct Hor; congruence.
Qed.

(** C8, as the code has it.  Move construction hands the handle to the new
    instance and leaves the moved-from one with a null handle, whose
    destructor releases nothing.  Move assignment swaps the two
    instances: the target gets the source's handle and the moved-from
    instance gets the handle the target held, which it releases when it is
    destroyed.  Either way, once both instances are destroyed (in any
    order) each distinct handle they held has been released exactly once.
    This holds for [db] (close) and for [statement] (finalize). *)
Theorem move_keeps_single_owner :
  (forall another : db, db_move_ctor another = (another, {| _db := nullptr |}))
  /\ (forall another : statement,
         statement_move_ctor another =
         (another, {| _can_fetch := false; _statement := nullptr |}))
  /\ (forall (E : Type) (H : Engine E) (e : E) (can : bool),
         db_dtor {| _db := nullptr |} e = e
         /\ statement_dtor {| _can_fetch := can; _statement := nullptr |} e = e)
  /\ (forall this another : db, db_move_assign this another = (another, this))
  /\ (forall this another : statement,
         statement_move_assign this another = (another, this))
  /\ (forall (Schema : Type) (model : SchemaModel Schema) (e : engine Schema)
             (this another : db),
         closed (db_dtor (snd (db_move_ctor another))
                   (db_dtor (fst (db_move_ctor another)) e))
         = closed e ++ held (_db another)
         /\ closed (db_dtor (snd (db_move_assign this another))
                      (db_dtor (fst (db_move_assign this another)) e))
            = closed e ++ held (_db another) ++ held (_db this)
         /\ closed (db_dtor (fst (db_move_assign this another))
                      (db_dtor (snd (db_move_assign this another)) e))
            = closed e ++ held (_db this) ++ held (_db another))
  /\ (forall (Schema : Type) (model : SchemaModel Schema) (e : engine Schema)
             (this another : statement),
         finalized (statement_dtor (snd (statement_move_ctor another))
                      (statement_dtor (fst (statement_move_ctor another)) e))
         = finalized e ++ held (_statement another)
         /\ finalized (statement_dtor (snd (statement_move_assign this another))
                         (statement_dtor (fst (statement_move_assign this another)) e))
            = finalized e ++ held (_statement another) ++ held (_statement this)
         /\ finalized (statement_dtor (fst (statement_move_assign this another))
                         (statement_dtor (snd (statement_move_assign this another)) e))
            = finalized e ++ held (_statement this) ++ held (_statement another))
  /\ (forall a b h : Z,
         a <> b -> h <> nullptr -> h = a \/ h = b ->
         count_occ Z.eq_dec (held a ++ held b) h = 1%nat
         /\ count_occ Z.eq_dec (held b ++ held a) h = 1%nat).
Proof.
  repeat match goal with |- _ /\ _ => split end.
  - intros [h]. reflexivity.
  - intros [can h]. reflexivity.
  - intros E H e can. split; reflexivity.
  - intros [h1] [h2]. reflexivity.
  - intros [c1 h1] [c2 h2]. reflexivity.
  - intros Schema model e this another.
    rewrite !closed_db_dtor. cbn [fst snd db_move_ctor db_move_assign _db].
    change (held nullptr) with (@nil Z). rewrite !app_nil_r, <- !app_assoc.
    repeat split.
  - intros Schema model e this another.
    rewrite !finalized_statement_dtor.
    cbn [fst snd statement_move_ctor statement_move_assign _statement].
    change (held nullptr) with (@nil Z). rewrite !app_nil_r, <- !app_assoc.
    repeat split.
  - intros a b h Hab Hh Hor. split.
    + apply count_occ_held; assumption.
    + apply count_occ_held; [congruence|assumption|tauto].
Qed.

(** ** Examples on the reference engine *)

(** C5 as stated fails.  [SELECT ?] bound to 42: the first fetch reads
    the row, the second reports "no more rows", so the rows are all
    consumed; the third fetch steps the finished statement, which the
    engine runs again, reports a row and overwrites the output 7 by 42.
    [CREATE TABLE a] runs to completion without a row; the fetch that
    follows steps it again, the body fails the second time and the fetch
    throws instead of reporting "no more rows". *)
Lemma finished_statement_is_run_again :
  let first := statement_fetch (demo_out 7) demo_row in
  let second := statement_fetch (demo_out 7) (snd first) in
  let third := statement_fetch (demo_out 7) (snd second) in
  let w := demo_execute "CREATE TABLE a" bnil demo_fresh in
  fst first = Ok (true, demo_out 42)
  /\ fst second = Ok (false, demo_out 7)
  /\ fst third = Ok (true, demo_out 42)
  /\ map ev_rc (log (conn (snd w))) = [SQLITE_DONE]
  /\ _can_fetch (fst w) = false
  /\ is_throw (fst (statement_fetch (demo_out 7) w)) = true.
Proof. repeat split. Qed.

(** C5 (as the code has it) at a statement that ran to completion
    without a row, and at one whose only row was fetched: the further
    step reports completion. *)
Lemma fetch_without_row_witness :
  (_can_fetch (fst demo_done) = false
   /\ fst (sqlite3_step 1 (snd demo_done)) = SQLITE_DONE
   /\ statement_fetch (demo_out 7) demo_done =
      (Ok (false, demo_out 7),
       (fst demo_done, snd (sqlite3_step 1 (snd demo_done)))))
  /\ (_can_fetch (fst demo_consumed) = false
      /\ fst (sqlite3_step 1 (snd demo_consumed)) = SQLITE_DONE
      /\ statement_fetch (demo_out 7) demo_consumed =
         (Ok (false, demo_out 7),
          (fst demo_consumed, snd (sqlite3_step 1 (snd demo_consumed))))).
Proof.
  split.
  - split; [reflexivity|]. split; [reflexivity|].
    apply (proj1 (fetch_without_row_keeps_outputs
                    (demo_out 7) (fst demo_done) (snd demo_done)));
      reflexivity.
  - split; [reflexivity|]. split; [reflexivity|].
    apply (proj1 (fetch_without_row_keeps_outputs
                    (demo_out 7) (fst demo_consumed) (snd demo_consumed)));
      reflexivity.
Defined.

(** C4 as stated fails: [SELECT MAX(Version)] has a pending row, a second
    execute with one argument too many throws at the bind
    ([SQLITE_RANGE]), and the following fetch still reports a row and
    overwrites its output. *)
Lemma failed_execute_leaves_row_pending :
  let w := statement_execute demo_five demo_pending in
  is_throw (fst w) = true
  /\ fst (statement_fetch (demo_out 7) (snd w)) =
     Ok (true, demo_out 0).
Proof. split; reflexivity. Qed.

(** C4 (as the code has it) at that failing bind. *)
Lemma execute_failure_witness :
  let s := fst demo_pending in
  let e1 := snd (sqlite3_reset 1 (snd demo_pending)) in
  sqlite3_reset (_statement s) (snd demo_pending)
  = (SQLITE_OK, e1)
  /\ bind_fails (_statement s) TRANSIENT 1 demo_five e1 e1
  /\ statement_execute_policy TRANSIENT demo_five
       (s, snd demo_pending)
     = (Throw (exception_stmt (_statement s) e1), (s, e1)).
Proof.
  intros s e1.
  assert (Hreset : sqlite3_reset (_statement s)
                     (snd demo_pending) = (SQLITE_OK, e1)) by reflexivity.
  assert (Hbind : bind_fails (_statement s) TRANSIENT 1 demo_five e1 e1).
  { apply bind_fails_here with (rc := SQLITE_RANGE);
      [reflexivity|discriminate]. }
  split; [exact Hreset|]. split; [exact Hbind|].
  destruct (execute_failure_keeps_fetch_flag
              TRANSIENT demo_five s (snd demo_pending)) as (_ & Hb & _).
  exact (Hb e1 e1 Hreset Hbind).
Defined.

(** C10 at a pending row whose column holds the integer 42. *)
Lemma boost_optional_column_witness :
  sqlite3_column_type 1 0 (snd demo_row) <> SQLITE_NULL
  /\ column (boost_optional_column (int32_t_column))
       1 0 boost_none (snd demo_row)
     = (Undefined, snd demo_row).
Proof.
  assert (Hty : sqlite3_column_type 1 0 (snd demo_row)
                <> SQLITE_NULL) by (vm_compute; discriminate).
  split; [exact Hty|].
  destruct (boost_optional_column_needs_engaged
              (int32_t_column) 1 0 boost_none
              (snd demo_row) Hty) as (Hnone & _).
  exact (Hnone eq_refl).
Defined.

(** C1 at three bodies on the new database. *)
Lemma apply_migrations_fresh_witness :
  exists e' rows,
    apply_migrations Cpp17 demo_db demo_abc demo_fresh = (Ok tt, e')
    /\ ledger (current (conn e')) = Some rows
    /\ map Version rows = [1; 2; 3]
    /\ Forall (fun r => AppliedOn r <> Null) rows.
Proof.
  destruct (apply_migrations_fresh Cpp17 demo_db demo_abc demo_fresh
              ["CREATE TABLE a"; "CREATE TABLE b"; "CREATE TABLE c"]
              ltac:(vm_compute; reflexivity) ltac:(vm_compute; reflexivity) ltac:(vm_compute; reflexivity) ltac:(vm_compute; reflexivity))
    as (e' & rows & Hrun & Hl & Hv & Ht & _).
  exists e', rows. repeat split; assumption.
Defined.

(** C2 as stated fails: before the run the ledger is empty, the schema is
    empty and the version query answers 0; after the failing run the
    connection holds the row of version 1 and the table of the first
    body, and the version query on it answers 1. *)
Lemma failed_run_leaves_partial_state :
  let r := apply_migrations Cpp17 demo_db demo_a_bad_c demo_empty_ledger in
  current (conn demo_empty_ledger) = {| ledger := Some []; schema := [] |}
  /\ fst (get_last_applied_version Cpp17 demo_db demo_empty_ledger) = Ok 0
  /\ is_throw (fst r) = true
  /\ current (conn (snd r)) =
     {| ledger := Some [demo_row_at 1]; schema := ["CREATE TABLE a"] |}
  /\ fst (get_last_applied_version Cpp17 demo_db (snd r)) = Ok 1.
Proof. vm_compute. repeat split. Qed.

Lemma demo_version_bounds : 0 <= current_version [] < 2 ^ 31.
Proof. change (current_version []) with 0. lia. Qed.

(** C2 (as the code has it) at that run. *)
Lemma failed_run_commits_nothing_witness :
  exists ex e',
    apply_migrations Cpp17 demo_db demo_a_bad_c demo_fresh = (Throw ex, e')
    /\ committed (conn e') = {| ledger := Some []; schema := [] |}
    /\ current_version (ledger_or_empty (committed (conn e'))) = 0.
Proof.
  destruct (failed_run_commits_nothing Cpp17 demo_db demo_a_bad_c demo_fresh
              ["CREATE TABLE a"] "not sql" ["CREATE TABLE c"]
              ["CREATE TABLE a"]
              ltac:(vm_compute; reflexivity) demo_version_bounds
              ltac:(vm_compute; reflexivity) ltac:(vm_compute; reflexivity)
              ltac:(vm_compute; reflexivity) ltac:(vm_compute; reflexivity)
              ltac:(vm_compute; reflexivity)
              ltac:(vm_compute; reflexivity))
    as (ex & e' & Hrun & Hc & Hv & _).
  exists ex, e'. repeat split; assumption.
Defined.

Lemma demo_after_abc_bounds :
  0 <= current_version [demo_row_at 1; demo_row_at 2; demo_row_at 3] < 2 ^ 31.
Proof.
  change (current_version [demo_row_at 1; demo_row_at 2; demo_row_at 3]) with 3.
  lia.
Qed.

(** C3 at the list extended by a fourth body. *)
Lemma apply_migrations_rerun_witness :
  (exists e',
      apply_migrations Cpp17 demo_db demo_abc demo_after_abc = (Ok tt, e')
      /\ current (conn e') = current (conn demo_after_abc))
  /\ (exists e' rows',
         apply_migrations Cpp17 demo_db demo_abcd demo_after_abc = (Ok tt, e')
         /\ ledger (current (conn e')) = Some rows'
         /\ current_version rows' = 4).
Proof.
  destruct (apply_migrations_rerun Cpp17 demo_db demo_abc demo_after_abc
              [demo_row_at 1; demo_row_at 2; demo_row_at 3]
              ltac:(vm_compute; reflexivity) ltac:(vm_compute; reflexivity) demo_after_abc_bounds) as [Hsame _].
  destruct (apply_migrations_rerun Cpp17 demo_db demo_abcd demo_after_abc
              [demo_row_at 1; demo_row_at 2; demo_row_at 3]
              ltac:(vm_compute; reflexivity) ltac:(vm_compute; reflexivity) demo_after_abc_bounds) as [_ Hmore].
  split.
  - destruct Hsame as (e' & Hrun & Hcur & _).
    + change (Z.of_nat (length demo_abc)) with 3.
      change (current_version [demo_row_at 1; demo_row_at 2; demo_row_at 3])
        with 3. lia.
    + exists e'. split; assumption.
  - destruct (Hmore ["CREATE TABLE a"; "CREATE TABLE b"; "CREATE TABLE c";
                     "CREATE TABLE d"])
      as (e' & rows' & Hrun & Hcur & _ & Hv & _).
    + change (Z.of_nat (length demo_abcd)) with 4.
      change (current_version [demo_row_at 1; demo_row_at 2; demo_row_at 3])
        with 3. lia.
    + reflexivity.
    + reflexivity.
    + exists e', rows'. rewrite Hcur. repeat split; assumption.
Defined.

(** C7 at the empty ledger: the version query is run, its row read as 0
    and its statement finalized. *)
Lemma empty_ledger_reads_version_zero_witness :
  get_last_applied_version Cpp17 demo_db demo_empty_ledger
  = (Ok 0,
     retired (add_log (yielded sql_max_version []) (conn demo_empty_ledger))
       demo_empty_ledger).
Proof.
  destruct (empty_ledger_reads_version_zero Cpp17 demo_db demo_empty_ledger
              ltac:(vm_compute; reflexivity)) as (_ & Hv & _).
  exact Hv.
Defined.

(** C9 at a body that does not compile and at a ledger insert that is
    rejected. *)
Lemma failed_run_leaves_transaction_open_witness :
  (exists ex e',
      apply_migrations Cpp17 demo_db demo_a_bad_c demo_fresh = (Throw ex, e')
      /\ in_transaction (conn e') = true
      /\ fst (get_last_applied_version Cpp17 demo_db e') = Ok 1)
  /\ (exists ex e',
         apply_migrations Cpp17 demo_db demo_a_lock_c demo_fresh = (Throw ex, e')
         /\ in_transaction (conn e') = true
         /\ schema (current (conn e')) =
            ["CREATE TABLE a"; "CREATE TRIGGER lock_ledger"]
         /\ fst (get_last_applied_version Cpp17 demo_db e') = Ok 1).
Proof.
  split.
  - destruct (failed_run_leaves_transaction_open Cpp17 demo_db demo_a_bad_c
                demo_fresh ["CREATE TABLE a"] "not sql" ["CREATE TABLE c"]
                ["CREATE TABLE a"]
                ltac:(vm_compute; reflexivity) demo_version_bounds
                ltac:(vm_compute; reflexivity) ltac:(vm_compute; reflexivity)
                ltac:(vm_compute; reflexivity) ltac:(vm_compute; reflexivity)
                ltac:(vm_compute; reflexivity) ltac:(vm_compute; reflexivity))
      as (ex & e' & executed & Hrun & Htx & _ & _ & _ & _ & _ & Hv & _).
    exists ex, e'. repeat split; assumption.
  - destruct (failed_run_leaves_transaction_open Cpp17 demo_db demo_a_lock_c
                demo_fresh ["CREATE TABLE a"] "CREATE TRIGGER lock_ledger"
                ["CREATE TABLE c"] ["CREATE TABLE a"]
                ltac:(vm_compute; reflexivity) demo_version_bounds
                ltac:(vm_compute; reflexivity) ltac:(vm_compute; reflexivity)
                ltac:(vm_compute; reflexivity) ltac:(vm_compute; reflexivity)
                ltac:(vm_compute; reflexivity) ltac:(vm_compute; reflexivity))
      as (ex & e' & executed & Hrun & Htx & _ & _ & _ & _ & Hcur & Hv & _).
    exists ex, e'. rewrite Hcur. repeat split; assumption.
Defined.

(** C6 at the NULL column of [MAX(Version)] over an empty ledger. *)
Lemma optional_absent_is_null_witness :
  sqlite3_column_type 1 0 (snd demo_pending) = SQLITE_NULL
  /\ column (optional_column int32_t_column) 1 0 (Some 9) (snd demo_pending)
     = (Ok None, snd demo_pending)
  /\ column (boost_optional_column int32_t_column) 1 0 (boost_some 9)
       (snd demo_pending)
     = (Ok boost_none, snd demo_pending).
Proof.
  assert (Hnull : sqlite3_column_type 1 0 (snd demo_pending) = SQLITE_NULL)
    by reflexivity.
  destruct optional_absent_is_null as (_ & Hcol & _).
  destruct (Hcol _ _ Z _ int32_t_column 1 0 (snd demo_pending) Hnull)
    as [Hstd Hboost].
  split; [exact Hnull|]. split; [apply Hstd|apply Hboost].
Defined.

(** C8 as stated fails for move assignment: the moved-from connection
    holds the handle the target had, and closes it when destroyed. *)
Lemma move_assigned_from_still_owns :
  let another' := snd (db_move_assign {| _db := 1 |} {| _db := 2 |}) in
  _db another' = 1
  /\ _db another' <> nullptr
  /\ closed (db_dtor another' demo_fresh) = [1].
Proof. repeat split. discriminate. Qed.

(** C8 (as the code has it) at the handles 1 and 2. *)
Lemma move_keeps_single_owner_witness :
  1 <> 2
  /\ count_occ Z.eq_dec (held 2 ++ held 1) 1 = 1%nat
  /\ count_occ Z.eq_dec (held 2 ++ held 1) 2 = 1%nat.
Proof.
  assert (Hne : 1 <> 2) by discriminate.
  destruct move_keeps_single_owner as (_ & _ & _ & _ & _ & _ & _ & Hcount).
  split; [exact Hne|]. split.
  - apply (Hcount 1 2 1 Hne); [discriminate|left; reflexivity].
  - apply (Hcount 1 2 2 Hne); [discriminate|right; reflexivity].
Defined.

(** ** Packs of built-in types: what is read and what is called *)

Section PackProperties.
Context {E : Type} `{Engine E}.

Lemma statement_column_outputs (l : list output) :
  forall Column (s : statement) (e : E),
  exists args',
    statement_column Column (outputs l) (s, e) = (Ok args', (s, e))
    /\ values l args' = read_outputs (_statement s) Column e l.
Proof.
  induction l as [|o l IH]; intros Column s e.
  - exists cnil. split; reflexivity.
  - destruct (IH (Column + 1) s e) as (args' & Hrun & Hval).
    destruct o; cbn [outputs statement_column];
      unfold this_statement, engine_read; munfold;
      cbn [_statement column int32_t_column int64_t_column string_column
           optional_column];
      try (rewrite Hrun; eexists; split; [reflexivity|];
           cbn [values chead ctail output_with read_outputs read_output];
           rewrite Hval; reflexivity).
    + destruct (negb (sqlite3_column_type (_statement s) Column e =? SQLITE_NULL))
        eqn:Hty; munfold; cbn [column int64_t_column]; rewrite Hrun;
        (eexists; split; [reflexivity|]);
        cbn [values chead ctail output_with read_outputs read_output];
        unfold read_int64_opt; rewrite Hty, Hval; reflexivity.
    + destruct (negb (sqlite3_column_type (_statement s) Column e =? SQLITE_NULL))
        eqn:Hty; munfold; cbn [column string_column]; rewrite Hrun;
        (eexists; split; [reflexivity|]);
        cbn [values chead ctail output_with read_outputs read_output];
        rewrite Hty, Hval; reflexivity.
Qed.

Lemma fetch_reads_columns_by_position_aux (l : list output) (s : statement) (e : E) :
  (_can_fetch s = true ->
   exists args',
     statement_fetch (outputs l) (s, e) =
     (Ok (true, args'),
      ({| _can_fetch := false; _statement := _statement s |}, e))
     /\ values l args' = read_outputs (_statement s) 0 e l)
  /\ (forall e1,
         _can_fetch s = false ->
         sqlite3_step (_statement s) e = (SQLITE_ROW, e1) ->
         exists args',
           statement_fetch (outputs l) (s, e) =
           (Ok (true, args'),
            ({| _can_fetch := false; _statement := _statement s |}, e1))
           /\ values l args' = read_outputs (_statement s) 0 e1 l).
Proof.
  split.
  - intros Hcan. rewrite statement_fetch_eq, Hcan. cbn [negb]. rewrite Hcan.
    destruct (statement_column_outputs l 0 s e) as (args' & Hrun & Hval).
    rewrite Hrun. exists args'. split; [reflexivity|exact Hval].
  - intros e1 Hcan Hstep. rewrite statement_fetch_eq, Hcan. cbn [negb].
    rewrite statement_step_eq, Hstep.
    change (SQLITE_ROW =? SQLITE_ROW) with true.
    cbn [negb andb _can_fetch].
    destruct (statement_column_outputs l 0
                {| _can_fetch := true; _statement := _statement s |} e1)
      as (args' & Hrun & Hval).
    rewrite Hrun. exists args'. split; [reflexivity|exact Hval].
Qed.

(** X1.  A fetch that has a row (pending, or produced by the step it
    makes) reads, for every output of a pack of built-in types, the column
    at the output's 0-based position through that type's reader; previous
    output values play no part; the engine is not touched beyond the one
    step, and the flag is cleared. *)
Theorem fetch_reads_columns_by_position (l : list output) (s : statement) (e : E) :
  (_can_fetch s = true ->
   exists args',
     statement_fetch (outputs l) (s, e) =
     (Ok (true, args'),
      ({| _can_fetch := false; _statement := _statement s |}, e))
     /\ values l args' = read_outputs (_statement s) 0 e l)
  /\ (forall e1,
         _can_fetch s = false ->
         sqlite3_step (_statement s) e = (SQLITE_ROW, e1) ->
         exists args',
           statement_fetch (outputs l) (s, e) =
           (Ok (true, args'),
            ({| _can_fetch := false; _statement := _statement s |}, e1))
           /\ values l args' = read_outputs (_statement s) 0 e1 l).
Proof. apply fetch_reads_columns_by_position_aux. Qed.

End PackProperties.

(** ** The calls the wrapper makes *)

Lemma record_all_record (c : call) (l : list call) (r : recorder) :
  record_all l (record c r) = record_all (c :: l) r.
Proof.
  unfold record_all, record. cbn [calls status handle_of].
  rewrite <- app_assoc. reflexivity.
Qed.

Lemma record_all_nil (r : recorder) : record_all [] r = r.
Proof.
  unfold record_all. rewrite app_nil_r. destruct r; reflexivity.
Qed.

Lemma record_one (c : call) (r : recorder) : record c r = record_all [c] r.
Proof. reflexivity. Qed.

Lemma record_all_app (l1 l2 : list call) (r : recorder) :
  record_all l2 (record_all l1 r) = record_all (l1 ++ l2) r.
Proof.
  unfold record_all. cbn [calls status handle_of].
  rewrite <- app_assoc. reflexivity.
Qed.

Lemma pack_cons (a : argument) (l : list argument) :
  exists (T : Type) (tr : bind_traits T) (arg : T),
    pack (a :: l) = bcons tr arg (pack l)
    /\ forall st idx policy (r : recorder),
         bind tr st idx arg policy r = answer (bind_call st policy idx a) r.
Proof.
  destruct a as [v|v|t|t| |[v|]|[t|]]; cbn [pack];
    eexists _, _, _; (split; [reflexivity|]); intros; reflexivity.
Qed.

Lemma accepted_bind_call (r : recorder) st policy idx a :
  accepted r (bind_call st policy idx a)
  = (status r (calls r) (bind_call st policy idx a) =? SQLITE_OK).
Proof. destruct a as [v|v|t|t| |[v|]|[t|]]; reflexivity. Qed.

Lemma all_accepted_app (l1 l2 : list call) :
  forall r, all_accepted r (l1 ++ l2)
            = all_accepted r l1 && all_accepted (record_all l1 r) l2.
Proof.
  induction l1 as [|c l1 IH]; intros r; cbn [app all_accepted].
  - rewrite record_all_nil. reflexivity.
  - rewrite IH, record_all_record, andb_assoc. reflexivity.
Qed.

Lemma stops_cons (r : recorder) c full made success :
  accepted r c = true ->
  stops_at_first_failure (record c r) full made success ->
  stops_at_first_failure r (c :: full) (c :: made) success.
Proof.
  intros Hc. unfold stops_at_first_failure. destruct success.
  - intros [-> Hall]. split; [reflexivity|].
    cbn [all_accepted]. rewrite Hc. exact Hall.
  - intros (pre & c' & rest & -> & -> & Hpre & Hc').
    exists (c :: pre), c', rest. cbn [all_accepted app]. rewrite Hc, Hpre.
    rewrite record_all_record in Hc'. repeat split. exact Hc'.
Qed.

Lemma stops_here (r : recorder) c rest :
  accepted r c = false -> stops_at_first_failure r (c :: rest) [c] false.
Proof.
  intros Hc. exists [], c, rest. rewrite record_all_nil. repeat split. exact Hc.
Qed.

Lemma stops_more (r : recorder) full more made :
  stops_at_first_failure r full made false ->
  stops_at_first_failure r (full ++ more) made false.
Proof.
  intros (pre & c & rest & -> & -> & Hpre & Hc).
  exists pre, c, (rest ++ more). rewrite <- !app_assoc. repeat split; assumption.
Qed.

Lemma stops_snoc (r : recorder) full c (b : bool) :
  all_accepted r full = true ->
  accepted (record_all full r) c = b ->
  stops_at_first_failure r (full ++ [c]) (full ++ [c]) b.
Proof.
  intros Hfull Hc. destruct b; cbn [stops_at_first_failure].
  - split; [reflexivity|].
    rewrite all_accepted_app, Hfull. cbn [all_accepted]. rewrite Hc. reflexivity.
  - exists full, c, []. rewrite app_nil_r. repeat split; assumption.
Qed.

Lemma stops_statement_calls (r : recorder) full made success :
  stops_at_first_failure r full made success ->
  forallb statement_call full = true ->
  forallb statement_call made = true.
Proof.
  destruct success; cbn [stops_at_first_failure].
  - intros [-> _] Hfull. exact Hfull.
  - intros (pre & c & rest & Hmade & -> & _) Hfull.
    rewrite forallb_app in Hfull. apply andb_prop in Hfull. apply Hfull.
Qed.

Lemma statement_bind_pack_calls policy (l : list argument) :
  forall Index (s : statement) (r : recorder),
  exists made out,
    statement_bind Index policy (pack l) (s, r) = (out, (s, record_all made r))
    /\ (out = Ok tt \/ exists ex, out = Throw ex)
    /\ stops_at_first_failure r
         (bind_calls (_statement s) policy Index l) made (negb (is_throw out)).
Proof.
  induction l as [|a l IH]; intros Index s r.
  - exists [], (Ok tt). rewrite record_all_nil.
    split; [reflexivity|]. split; [left; reflexivity|].
    split; reflexivity.
  - destruct (pack_cons a l) as (T & tr & arg & -> & Hbind).
    rewrite statement_bind_cons, Hbind. unfold answer.
    cbn [bind_calls].
    destruct (status r (calls r) (bind_call (_statement s) policy Index a)
              =? SQLITE_OK) eqn:Hst; cbn [negb].
    + destruct (IH (Index + 1) s
                  (record (bind_call (_statement s) policy Index a) r))
        as (made & out & Hrun & Hout & Hstops).
      rewrite Hrun. rewrite record_all_record.
      eexists _, out. split; [reflexivity|]. split; [exact Hout|].
      apply stops_cons; [rewrite accepted_bind_call; exact Hst|exact Hstops].
    + eexists [_], _. split; [reflexivity|]. split; [right; eauto|].
      cbn [is_throw negb]. apply stops_here.
      rewrite accepted_bind_call. exact Hst.
Qed.

Lemma execute_calls_in_order_aux (policy : bind_policy) (l : list argument)
    (s : statement) (r : recorder) :
  exists made out s',
    statement_execute_policy policy (pack l) (s, r)
    = (out, (s', record_all made r))
    /\ (out = Ok tt \/ exists ex, out = Throw ex)
    /\ stops_at_first_failure r
         (call_reset (_statement s)
          :: bind_calls (_statement s) policy 1 l
          ++ [call_step (_statement s)])
         made (negb (is_throw out))
    /\ s' = (if is_throw out then s
             else {| _can_fetch :=
                       status r
                         (calls r ++ call_reset (_statement s)
                          :: bind_calls (_statement s) policy 1 l)
                         (call_step (_statement s)) =? SQLITE_ROW;
                     _statement := _statement s |}).
Proof.
  rewrite statement_execute_policy_eq, statement_reset_eq.
  cbn [sqlite3_reset recording_engine]. unfold answer.
  destruct (status r (calls r) (call_reset (_statement s)) =? SQLITE_OK)
    eqn:Hreset; cbn [negb].
  - assert (Hacc : accepted r (call_reset (_statement s)) = true)
      by exact Hreset.
    destruct (statement_bind_pack_calls policy l 1 s
                (record (call_reset (_statement s)) r))
      as (made & out & Hrun & Hout & Hstops).
    rewrite Hrun. rewrite record_all_record.
    destruct Hout as [->|[ex ->]].
    + cbn [is_throw negb] in Hstops. destruct Hstops as [-> Hall].
      rewrite statement_step_eq. cbn [sqlite3_step recording_engine].
      unfold answer. rewrite stepped_spec.
      rewrite (record_one (call_step (_statement s))), record_all_app.
      cbn [status calls record_all app].
      set (full := call_reset (_statement s)
                   :: bind_calls (_statement s) policy 1 l).
      assert (Hfull : all_accepted r full = true).
      { unfold full. cbn [all_accepted]. rewrite Hacc, Hall. reflexivity. }
      destruct (stepped (status r (calls r ++ full)
                           (call_step (_statement s)))) eqn:Hstep;
        cbn [negb].
      * eexists _, (Ok tt), _. split; [reflexivity|].
        split; [left; reflexivity|]. split; [|reflexivity].
        cbn [is_throw negb].
        apply (stops_snoc r full (call_step (_statement s)) true Hfull).
        exact Hstep.
      * eexists _, (Throw _), _. split; [reflexivity|].
        split; [right; eauto|]. split; [|reflexivity].
        cbn [is_throw negb].
        apply (stops_snoc r full (call_step (_statement s)) false Hfull).
        exact Hstep.
    + eexists _, (Throw ex), _. split; [reflexivity|].
      split; [right; eauto|]. split; [|reflexivity].
      cbn [is_throw negb] in *.
      apply stops_cons; [exact Hacc|]. apply stops_more. exact Hstops.
  - eexists [_], (Throw _), _. split; [reflexivity|].
    split; [right; eauto|]. split; [|reflexivity].
    cbn [is_throw negb]. apply stops_here. exact Hreset.
Qed.

(** X2.  Execute on a pack of built-in argument types calls reset, then
    one bind per argument in the order of the pack with the indices 1, 2,
    ..., then step; a text is bound with the length of a [std::string] or
    -1 for a [const char *] and with the destructor the policy selects;
    an absent optional is bound as NULL.  Execute stops at the first call
    that reports a failure and throws: after a failing reset nothing is
    bound, after a failing bind nothing further is bound and the
    statement is not stepped.  A failing execute leaves the statement
    object as it was; a successful one sets the flag to whether the step
    produced a row. *)
Theorem execute_calls_in_order (policy : bind_policy) (l : list argument)
    (s : statement) (r : recorder) :
  exists made out s',
    statement_execute_policy policy (pack l) (s, r)
    = (out, (s', record_all made r))
    /\ (out = Ok tt \/ exists ex, out = Throw ex)
    /\ stops_at_first_failure r
         (call_reset (_statement s)
          :: bind_calls (_statement s) policy 1 l
          ++ [call_step (_statement s)])
         made (negb (is_throw out))
    /\ s' = (if is_throw out then s
             else {| _can_fetch :=
                       status r
                         (calls r ++ call_reset (_statement s)
                          :: bind_calls (_statement s) policy 1 l)
                         (call_step (_statement s)) =? SQLITE_ROW;
                     _statement := _statement s |}).
Proof. apply execute_calls_in_order_aux. Qed.

(** The one-shot execute, whether or not the compilation hands out a
    handle. *)
Lemma db_execute_calls_aux (std : variant) (d : db) (sql : string)
    (l : list argument) (r : recorder) :
  (status r (calls r) (call_prepare (_db d) sql 0) <> SQLITE_OK ->
   exists ex,
     db_execute std d sql (pack l) r
     = (Throw ex, record_all [call_prepare (_db d) sql 0] r))
  /\ (status r (calls r) (call_prepare (_db d) sql 0) = SQLITE_OK ->
      exists made out,
        db_execute std d sql (pack l) r
        = (out,
           record_all
             (call_prepare (_db d) sql 0 :: made
              ++ (if is_throw out
                     && negb (handle_of r (calls r)
                                (call_prepare (_db d) sql 0) =? nullptr)
                  then [call_finalize
                          (handle_of r (calls r) (call_prepare (_db d) sql 0))]
                  else [])) r)
        /\ stops_at_first_failure (record (call_prepare (_db d) sql 0) r)
             (let h := handle_of r (calls r) (call_prepare (_db d) sql 0) in
              call_reset h :: bind_calls h TRANSIENT 1 l ++ [call_step h])
             made (negb (is_throw out))
        /\ ((exists ex, out = Throw ex)
            \/ out =
               Ok {| _can_fetch :=
                       (let h := handle_of r (calls r)
                                   (call_prepare (_db d) sql 0) in
                        status r
                          (calls r ++ call_prepare (_db d) sql 0
                           :: call_reset h :: bind_calls h TRANSIENT 1 l)
                          (call_step h)) =? SQLITE_ROW;
                     _statement :=
                       handle_of r (calls r) (call_prepare (_db d) sql 0) |})).
Proof.
  unfold db_execute, statement_ctor.
  cbn [sqlite3_prepare_v3 recording_engine].
  set (p := call_prepare (_db d) sql 0). set (h := handle_of r (calls r) p).
  split.
  - intros Hst. apply Z.eqb_neq in Hst. rewrite Hst. cbn [negb].
    eexists. reflexivity.
  - intros Hst. rewrite Hst. cbn [negb Z.eqb SQLITE_OK].
    rewrite statement_execute_eq.
    destruct (execute_calls_in_order_aux TRANSIENT l
                {| _can_fetch := false; _statement := h |} (record p r))
      as (made & out & s' & Hrun & Hout & Hstops & Hs').
    rewrite Hrun. cbn [_statement] in *.
    cbn [status calls record] in Hs'.
    rewrite <- app_assoc in Hs'. cbn [app] in Hs'.
    rewrite record_all_record.
    destruct Hout as [->|[ex ->]]; cbn [is_throw andb] in *.
    + exists made, (Ok s'). cbn [is_throw andb]. rewrite app_nil_r. subst s'.
      split; [reflexivity|]. split; [exact Hstops|]. right. reflexivity.
    + exists made, (Throw ex). cbn [is_throw andb]. subst s'.
      unfold statement_dtor. cbn [_statement].
      destruct (h =? nullptr) eqn:Hnull; cbn [negb].
      * rewrite app_nil_r. split; [reflexivity|]. split; [exact Hstops|].
        left. eauto.
      * cbn [sqlite3_finalize recording_engine].
        rewrite record_one, record_all_app.
        split; [reflexivity|]. split; [exact Hstops|]. left. eauto.
Qed.

(** X3.  The one-shot [db::execute] on a pack of built-in argument types
    compiles the text with flags 0 and then executes with the TRANSIENT
    policy.  If the compilation fails it throws having made no other
    call.  Otherwise the calls are the ones of execute on the new handle;
    when execute throws, the statement is finalized, once, before the
    exception leaves; when it returns, the statement is handed out not
    finalized. *)
Theorem db_execute_calls (std : variant) (d : db) (sql : string)
    (l : list argument) (r : recorder) :
  (status r (calls r) (call_prepare (_db d) sql 0) <> SQLITE_OK ->
   exists ex,
     db_execute std d sql (pack l) r
     = (Throw ex, record_all [call_prepare (_db d) sql 0] r))
  /\ (status r (calls r) (call_prepare (_db d) sql 0) = SQLITE_OK ->
      handle_of r (calls r) (call_prepare (_db d) sql 0) <> nullptr ->
      exists made out,
        db_execute std d sql (pack l) r
        = (out,
           record_all
             (call_prepare (_db d) sql 0 :: made
              ++ (if is_throw out
                  then [call_finalize
                          (handle_of r (calls r) (call_prepare (_db d) sql 0))]
                  else [])) r)
        /\ stops_at_first_failure (record (call_prepare (_db d) sql 0) r)
             (let h := handle_of r (calls r) (call_prepare (_db d) sql 0) in
              call_reset h :: bind_calls h TRANSIENT 1 l ++ [call_step h])
             made (negb (is_throw out))
        /\ (is_throw out = false ->
            out =
            Ok {| _can_fetch :=
                    (let h := handle_of r (calls r)
                                (call_prepare (_db d) sql 0) in
                     status r
                       (calls r ++ call_prepare (_db d) sql 0
                        :: call_reset h :: bind_calls h TRANSIENT 1 l)
                       (call_step h)) =? SQLITE_ROW;
                  _statement :=
                    handle_of r (calls r) (call_prepare (_db d) sql 0) |})).
Proof.
  destruct (db_execute_calls_aux std d sql l r) as [Hfail Hok].
  split; [exact Hfail|].
  intros Hst Hh. destruct (Hok Hst) as (made & out & Hrun & Hstops & Hout).
  apply Z.eqb_neq in Hh. rewrite Hh, andb_true_r in Hrun.
  exists made, out. split; [exact Hrun|]. split; [exact Hstops|].
  intros Hthrow. destruct Hout as [[ex ->]|Hout]; [discriminate|exact Hout].
Qed.

(** ** Values through [SELECT ?] on the reference engine *)

Section RoundTrips.
Context {Schema : Type} `{SchemaModel Schema}.
Variable std : variant.

Implicit Types (e : engine Schema) (d : db).

Lemma substring_all (s : string) : substring 0 (String.length s) s = s.
Proof. induction s as [|c s IH]; cbn; [reflexivity|]. rewrite IH. reflexivity. Qed.

Lemma string_assign_all (s : string) :
  string_assign (Some s) (Z.of_nat (String.length s)) = s.
Proof. unfold string_assign. rewrite Nat2Z.id. apply substring_all. Qed.

Lemma bound_text_all (s : string) :
  bound_text s (Z.of_nat (String.length s)) = s.
Proof.
  unfold bound_text. destruct (Z.ltb_spec (Z.of_nat (String.length s)) 0); [lia|].
  rewrite Nat2Z.id. apply substring_all.
Qed.

(** One argument through [SELECT ?]: the row holds what its bind stored. *)
Lemma db_execute_select_param d {T} (tr : bind_traits T) (arg : T) v e :
  (forall e', bind tr (fresh_handle e) 1 arg TRANSIENT e' =
              ref_bind (fresh_handle e) 1 v e') ->
  db_execute std d sql_select_param (bcons tr arg bnil) e =
  (Ok {| _can_fetch := true; _statement := fresh_handle e |},
   compiled (Some {| text := sql_select_param; params := [v];
                     position := HasRow [v] |})
     (add_log (yielded sql_select_param [v]) (conn e)) e).
Proof.
  intros Hb.
  rewrite (db_execute_unary std d sql_select_param tr arg v e
             (compile_error_select_param _)) by (reflexivity || exact Hb).
  rewrite one_shot_select_param. reflexivity.
Qed.

Lemma pack_one_stored (a : argument) e :
  exists (T : Type) (tr : bind_traits T) (arg : T),
    pack [a] = bcons tr arg bnil
    /\ forall e', bind tr (fresh_handle e) 1 arg TRANSIENT e' =
                  ref_bind (fresh_handle e) 1 (stored a) e'.
Proof.
  destruct a as [v|v|t|t| |[v|]|[t|]]; cbn [pack];
    eexists _, _, _; (split; [reflexivity|]); intros e';
    cbn [bind int32_t_bind int64_t_bind c_str_bind string_bind nullptr_t_bind
         optional_bind sqlite3_bind_int sqlite3_bind_int64 sqlite3_bind_text
         sqlite3_bind_null reference_engine stored];
    rewrite ?bound_text_all; reflexivity.
Qed.

Lemma read_output_converted (o : output) v h e :
  column_value h 0 e = v ->
  read_output h 0 e o = converted v o.
Proof.
  intros Hv. destruct o; cbn [read_output converted];
    unfold read_int64_opt, read_string;
    cbn [sqlite3_column_type sqlite3_column_int sqlite3_column_int64
         sqlite3_column_text sqlite3_column_bytes reference_engine];
    rewrite Hv; try reflexivity.
  - destruct v as [|z|t]; cbn [value_to_text]; [reflexivity| |].
    + rewrite string_assign_all. reflexivity.
    + rewrite string_assign_all. reflexivity.
  - destruct v; reflexivity.
  - destruct v as [|z|t]; cbn [value_type value_to_text]; [reflexivity| |];
      cbn [Z.eqb negb SQLITE_NULL SQLITE_INTEGER SQLITE_TEXT Pos.eqb];
      rewrite string_assign_all; reflexivity.
Qed.

(** Any built-in argument bound to [SELECT ?] and fetched into any
    built-in output: the run returns, the fetch reports the row, and the
    output holds the stored value converted to the output's type. *)
Lemma select_param_converted d (a : argument) (o : output) e :
  exists s e1 args' w,
    db_execute std d sql_select_param (pack [a]) e = (Ok s, e1)
    /\ statement_fetch (outputs [o]) (s, e1) = (Ok (true, args'), w)
    /\ values [o] args' = [converted (stored a) o].
Proof.
  destruct (pack_one_stored a e) as (T & tr & arg & -> & Hb).
  rewrite (db_execute_select_param d tr arg _ e Hb).
  destruct (proj1 (fetch_reads_columns_by_position_aux [o]
                     {| _can_fetch := true; _statement := fresh_handle e |}
                     (compiled
                        (Some {| text := sql_select_param;
                                 params := [stored a];
                                 position := HasRow [stored a] |})
                        (add_log (yielded sql_select_param [stored a]) (conn e))
                        e)) eq_refl)
    as (args' & Hfetch & Hval).
  eexists _, _, args', _. split; [reflexivity|]. split; [exact Hfetch|].
  rewrite Hval. cbn [read_outputs _statement]. f_equal.
  apply read_output_converted. rewrite column_value_compiled. reflexivity.
Qed.

Lemma reads_back_converted d e (a : argument) (o : output) :
  reads_back std d e a o (converted (stored a) o).
Proof. apply select_param_converted. Qed.

Lemma wrap64_small v : - 2 ^ 63 <= v < 2 ^ 63 -> wrap64 v = v.
Proof. intros Hv. unfold wrap64. rewrite Z.mod_small by lia. lia. Qed.

(** X4.  Integers through a parameter and back: a 32-bit value bound as
    [int32_t] is read back unchanged as [int32_t], a 64-bit value bound as
    [int64_t] is read back unchanged as [int64_t], whatever the outputs
    held; read as [int32_t], a 64-bit value is cut to its low 32 bits. *)
Theorem integers_round_trip d e (v x : Z) :
  (- 2 ^ 31 <= v < 2 ^ 31 ->
   reads_back std d e (arg_int32 v) (out_int32 x) (out_int32 v))
  /\ (- 2 ^ 63 <= v < 2 ^ 63 ->
      reads_back std d e (arg_int64 v) (out_int64 x) (out_int64 v))
  /\ reads_back std d e (arg_int64 v) (out_int32 x) (out_int32 (wrap32 v)).
Proof.
  split; [|split].
  - intros Hv. rewrite <- (wrap32_small v Hv) at 2.
    apply (reads_back_converted d e (arg_int32 v) (out_int32 x)).
  - intros Hv. rewrite <- (wrap64_small v Hv) at 2.
    apply (reads_back_converted d e (arg_int64 v) (out_int64 x)).
  - apply (reads_back_converted d e (arg_int64 v) (out_int32 x)).
Qed.

(** X5.  Text through a parameter and back: a [std::string] and a
    [const char *] are read back as the same [std::string], and a present
    [std::optional<std::string>] as the same present optional, whatever
    the outputs held. *)
Theorem text_round_trip d e (t x : string) (y : option string) :
  reads_back std d e (arg_string t) (out_string x) (out_string t)
  /\ reads_back std d e (arg_c_str t) (out_string x) (out_string t)
  /\ reads_back std d e (arg_optional_string (Some t)) (out_optional_string y)
       (out_optional_string (Some t)).
Proof.
  split; [|split].
  - apply (reads_back_converted d e (arg_string t) (out_string x)).
  - apply (reads_back_converted d e (arg_c_str t) (out_string x)).
  - apply (reads_back_converted d e (arg_optional_string (Some t))
             (out_optional_string y)).
Qed.

(** X6.  NULL read into a type that is not optional: a bound [nullptr] or
    absent optional is fetched without an exception as 0 into an integer
    and as the empty string into a [std::string], whatever the outputs
    held. *)
Theorem null_reads_as_zero_or_empty d e (a : argument) (x : Z) (t : string) :
  stored a = Null ->
  reads_back std d e a (out_int32 x) (out_int32 0)
  /\ reads_back std d e a (out_int64 x) (out_int64 0)
  /\ reads_back std d e a (out_string t) (out_string "").
Proof.
  intros Ha.
  pose proof (reads_back_converted d e a (out_int32 x)) as H32.
  pose proof (reads_back_converted d e a (out_int64 x)) as H64.
  pose proof (reads_back_converted d e a (out_string t)) as Hs.
  rewrite Ha in H32, H64, Hs. repeat split; assumption.
Qed.

(** X7.  A present [std::optional<int64_t>] is read back as the same
    present optional and, into a plain [int64_t], as its value; a plain
    [int64_t] read into an optional gives a present one. *)
Theorem present_optional_round_trip d e (v x : Z) (y : option Z) :
  - 2 ^ 63 <= v < 2 ^ 63 ->
  reads_back std d e (arg_optional_int64 (Some v)) (out_optional_int64 y)
    (out_optional_int64 (Some v))
  /\ reads_back std d e (arg_optional_int64 (Some v)) (out_int64 x)
       (out_int64 v)
  /\ reads_back std d e (arg_int64 v) (out_optional_int64 y)
       (out_optional_int64 (Some v)).
Proof.
  intros Hv.
  pose proof (reads_back_converted d e (arg_optional_int64 (Some v))
                (out_optional_int64 y)) as H1.
  pose proof (reads_back_converted d e (arg_optional_int64 (Some v))
                (out_int64 x)) as H2.
  pose proof (reads_back_converted d e (arg_int64 v) (out_optional_int64 y))
    as H3.
  cbn [stored converted value_to_int] in H1, H2, H3.
  rewrite (wrap64_small v Hv) in H1, H2, H3. repeat split; assumption.
Qed.

(** *** The integral specialisations of the C++11 header *)

Lemma pow2_split n : 0 < n -> 2 ^ n = 2 * 2 ^ (n - 1).
Proof.
  intros Hn. replace n with (Z.succ (n - 1)) at 1 by lia.
  apply Z.pow_succ_r. lia.
Qed.

Lemma static_cast_representable (t : integral) v :
  0 < bits t -> representable t v -> static_cast t v = v.
Proof.
  intros Hb. unfold representable, static_cast.
  pose proof (pow2_split (bits t) Hb) as Hp.
  destruct (is_signed t); intros Hv; rewrite Z.mod_small by lia; lia.
Qed.

Lemma static_cast_congruent (t : integral) v w :
  0 < bits t ->
  v mod 2 ^ bits t = w mod 2 ^ bits t -> static_cast t v = static_cast t w.
Proof.
  intros Hb Heq. unfold static_cast.
  assert (Hpos : 0 < 2 ^ bits t) by (apply Z.pow_pos_nonneg; lia).
  destruct (is_signed t); [|exact Heq].
  f_equal. rewrite (Z.add_mod v), (Z.add_mod w) by lia. rewrite Heq. reflexivity.
Qed.

Lemma static_cast_mod (t : integral) v :
  0 < bits t -> static_cast t v mod 2 ^ bits t = v mod 2 ^ bits t.
Proof.
  intros Hb. unfold static_cast.
  assert (Hpos : 0 < 2 ^ bits t) by (apply Z.pow_pos_nonneg; lia).
  destruct (is_signed t); [|apply Z.mod_mod; lia].
  rewrite Zminus_mod, Z.mod_mod, <- Zminus_mod by lia. f_equal. lia.
Qed.

(** A cast to a wider type and then to [t] is the cast to [t]. *)
Lemma static_cast_through (t wide : integral) v :
  0 < bits t <= bits wide ->
  static_cast t (static_cast wide v) = static_cast t v.
Proof.
  intros Hb. apply static_cast_congruent; [lia|].
  assert (Hdiv : (2 ^ bits t | 2 ^ bits wide)).
  { exists (2 ^ (bits wide - bits t)). rewrite <- Z.pow_add_r by lia.
    f_equal. lia. }
  rewrite <- (Z.mod_mod_divide (static_cast wide v) _ _ Hdiv).
  rewrite static_cast_mod by lia.
  apply Z.mod_mod_divide. exact Hdiv.
Qed.

Lemma wrap32_static_cast v : wrap32 v = static_cast int_t v.
Proof. reflexivity. Qed.

Lemma wrap64_static_cast v : wrap64 v = static_cast int64_t v.
Proof. reflexivity. Qed.

(** One argument through [SELECT ?] into one output whose reader does not
    change the engine. *)
Lemma select_param_fetch d {T U} (tb : bind_traits T) (arg : T) v
    (tc : column_traits U) (out result : U) e :
  (forall e', bind tb (fresh_handle e) 1 arg TRANSIENT e' =
              ref_bind (fresh_handle e) 1 v e') ->
  (forall h e1, column_value h 0 e1 = v ->
                column tc h 0 out e1 = (Ok result, e1)) ->
  exists s e1 w,
    db_execute std d sql_select_param (bcons tb arg bnil) e = (Ok s, e1)
    /\ statement_fetch (ccons tc out cnil) (s, e1)
       = (Ok (true, ccons tc result cnil), w).
Proof.
  intros Hb Hc. rewrite (db_execute_select_param d tb arg v e Hb).
  eexists _, _, _. split; [reflexivity|].
  rewrite statement_fetch_eq. cbn [_can_fetch negb statement_column].
  unfold this_statement, engine_read. munfold. cbn [_statement].
  rewrite Hc by (rewrite column_value_compiled; reflexivity).
  reflexivity.
Qed.

(** X8.  C++11 header, integral types of at most 32 bits (signed or
    unsigned): a value of the type, bound through the cast to [int] and
    read back through the cast from [int], is the value again.  For 64-bit
    types the same holds through [int64_t]. *)
Theorem integral_round_trip d e (T : integral) (x out : Z) :
  representable T x ->
  (0 < bits T <= 32 ->
   exists s e1 w,
     db_execute std d sql_select_param
       (bcons (small_integral_bind T) x bnil) e = (Ok s, e1)
     /\ statement_fetch (ccons (small_integral_column T) out cnil) (s, e1)
        = (Ok (true, ccons (small_integral_column T) x cnil), w))
  /\ (bits T = 64 ->
      exists s e1 w,
        db_execute std d sql_select_param
          (bcons (wide_integral_bind T) x bnil) e = (Ok s, e1)
        /\ statement_fetch (ccons (wide_integral_column T) out cnil) (s, e1)
           = (Ok (true, ccons (wide_integral_column T) x cnil), w)).
Proof.
  intros Hx. split; intros Hb.
  - apply (select_param_fetch d (small_integral_bind T) x
             (Integer (static_cast int_t x))); [reflexivity|].
    intros h e1 Hv.
    cbn [column small_integral_column sqlite3_column_int reference_engine].
    rewrite Hv. cbn [value_to_int].
    rewrite wrap32_static_cast, !(static_cast_through T int_t)
      by (cbn [bits int_t]; lia).
    rewrite (static_cast_representable T x) by (lia || assumption).
    reflexivity.
  - apply (select_param_fetch d (wide_integral_bind T) x
             (Integer (static_cast int64_t x))); [reflexivity|].
    intros h e1 Hv.
    cbn [column wide_integral_column sqlite3_column_int64 reference_engine].
    rewrite Hv. cbn [value_to_int].
    rewrite wrap64_static_cast, !(static_cast_through T int64_t)
      by (cbn [bits int64_t]; lia).
    rewrite (static_cast_representable T x) by (lia || assumption).
    reflexivity.
Qed.

(** X9.  C++11 header, [bool]: a [bool] is bound as 1 or 0 and read back
    as itself; any 32-bit integer other than 0 reads as true, 0 and NULL
    read as false. *)
Theorem bool_round_trip d e (b out : bool) (v : Z) :
  (exists s e1 w,
      db_execute std d sql_select_param (bcons bool_bind b bnil) e = (Ok s, e1)
      /\ statement_fetch (ccons bool_column out cnil) (s, e1)
         = (Ok (true, ccons bool_column b cnil), w))
  /\ (exists s e1 w,
         db_execute std d sql_select_param (bcons int32_t_bind v bnil) e
         = (Ok s, e1)
         /\ statement_fetch (ccons bool_column out cnil) (s, e1)
            = (Ok (true, ccons bool_column (negb (wrap32 v =? 0)) cnil), w))
  /\ (exists s e1 w,
         db_execute std d sql_select_param (bcons nullptr_t_bind tt bnil) e
         = (Ok s, e1)
         /\ statement_fetch (ccons bool_column out cnil) (s, e1)
            = (Ok (true, ccons bool_column false cnil), w)).
Proof.
  split; [|split].
  - apply (select_param_fetch d bool_bind b (Integer (if b then 1 else 0)));
      [reflexivity|].
    intros h e1 Hv. cbn [column bool_column sqlite3_column_int reference_engine].
    rewrite Hv. destruct b; reflexivity.
  - apply (select_param_fetch d int32_t_bind v (Integer v)); [reflexivity|].
    intros h e1 Hv. cbn [column bool_column sqlite3_column_int reference_engine].
    rewrite Hv. reflexivity.
  - apply (select_param_fetch d nullptr_t_bind tt Null); [reflexivity|].
    intros h e1 Hv. cbn [column bool_column sqlite3_column_int reference_engine].
    rewrite Hv. reflexivity.
Qed.

(** X10.  C++11 header, enumerations over an underlying type of at most
    32 bits: an enumerator is bound and read through the specialisation of
    its underlying type and comes back unchanged; the uninitialised local
    the column is read into has no influence on the result. *)
Theorem enum_round_trip d e (type : integral) (x out tmp : Z) :
  0 < bits type <= 32 ->
  representable type x ->
  exists s e1 w,
    db_execute std d sql_select_param
      (bcons (enum_bind type (small_integral_bind type)) x bnil) e = (Ok s, e1)
    /\ statement_fetch
         (ccons (enum_column type (small_integral_column type) tmp) out cnil)
         (s, e1)
       = (Ok (true,
              ccons (enum_column type (small_integral_column type) tmp) x cnil),
          w).
Proof.
  intros Hb Hx.
  apply (select_param_fetch d (enum_bind type (small_integral_bind type)) x
           (Integer (static_cast int_t (static_cast type x)))); [reflexivity|].
  intros h e1 Hv.
  cbn [column enum_column small_integral_column sqlite3_column_int
       reference_engine]. munfold.
  rewrite Hv. cbn [value_to_int].
  rewrite wrap32_static_cast, !(static_cast_through type int_t)
    by (cbn [bits int_t]; lia).
  rewrite !(static_cast_representable type x) by (lia || assumption).
  reflexivity.
Qed.

End RoundTrips.

(** ** Character arrays *)

Lemma length_strncpy (dest src : list ascii) (count : nat) :
  (count <= length dest)%nat -> length (strncpy dest src count) = length dest.
Proof.
  intros Hc. unfold strncpy.
  rewrite length_app, length_take, length_app, length_replicate, length_drop.
  lia.
Qed.

Lemma take_strncpy (dest src : list ascii) (count : nat) :
  take count (strncpy dest src count) = take count (src ++ replicate count NUL).
Proof.
  unfold strncpy. rewrite take_app_le.
  - rewrite take_take. f_equal. lia.
  - rewrite length_take, length_app, length_replicate. lia.
Qed.

Lemma drop_strncpy (dest src : list ascii) (count : nat) :
  drop count (strncpy dest src count) = drop count dest.
Proof.
  unfold strncpy. rewrite drop_app_length'; [reflexivity|].
  rewrite length_take, length_app, length_replicate. lia.
Qed.

Lemma c_str_no_terminator (s : list ascii) : Forall (fun c => c <> NUL) (c_str s).
Proof.
  induction s as [|c s IH]; cbn [c_str]; [constructor|].
  destruct (Ascii.eqb_spec c NUL); [constructor|].
  constructor; assumption.
Qed.

Lemma c_str_terminated (t rest : list ascii) :
  Forall (fun c => c <> NUL) t -> c_str (t ++ NUL :: rest) = t.
Proof.
  induction 1 as [|c t Hc _ IH]; cbn [c_str app].
  - rewrite Ascii.eqb_refl. reflexivity.
  - destruct (Ascii.eqb_spec c NUL); [contradiction|]. rewrite IH. reflexivity.
Qed.

Lemma c_str_unterminated (t : list ascii) :
  Forall (fun c => c <> NUL) t -> c_str t = t.
Proof.
  induction 1 as [|c t Hc _ IH]; cbn [c_str]; [reflexivity|].
  destruct (Ascii.eqb_spec c NUL); [contradiction|]. rewrite IH. reflexivity.
Qed.

Section CharArrays.
Context {E : Type} `{Engine E}.

(** X11.  C++11 header, reading a text column into a [char[Size]]: a NULL
    column leaves the array as it was; otherwise the array keeps its
    length and its last character is never written.  A text shorter than
    [Size - 1] is copied and terminated, so the array reads as that text.
    A text of [Size - 1] characters or more is cut to [Size - 1] without a
    terminator: the array then reads as the cut text only if its last
    character was a terminator before, and has no terminator at all
    otherwise. *)
Theorem char_array_column_truncates (Size : Z) (st col : Z)
    (arg : list ascii) (last : ascii) (e : E) :
  1 <= Size ->
  length arg = Z.to_nat Size ->
  drop (Z.to_nat (Size - 1)) arg = [last] ->
  (sqlite3_column_text st col e = None ->
   column (char_array_column Size) st col arg e = (Ok arg, e))
  /\ (forall data,
         sqlite3_column_text st col e = Some data ->
         exists arg',
           column (char_array_column Size) st col arg e = (Ok arg', e)
           /\ length arg' = length arg
           /\ drop (Z.to_nat (Size - 1)) arg' = [last]
           /\ let text := c_str (list_ascii_of_string data) in
              ((length text < Z.to_nat (Size - 1))%nat -> c_str arg' = text)
              /\ ((Z.to_nat (Size - 1) <= length text)%nat ->
                  take (Z.to_nat (Size - 1)) arg'
                  = take (Z.to_nat (Size - 1)) text
                  /\ (last = NUL -> c_str arg' = take (Z.to_nat (Size - 1)) text)
                  /\ (last <> NUL -> Forall (fun c => c <> NUL) arg'))).
Proof.
  intros HSize Hlen Hlast. split.
  - intros Hnull. cbn [column char_array_column]. rewrite Hnull. reflexivity.
  - intros data Hdata. cbn [column char_array_column]. rewrite Hdata.
    set (text := c_str (list_ascii_of_string data)).
    set (n := Z.to_nat (Size - 1)) in *.
    assert (Hn : (n <= length arg)%nat) by lia.
    pose proof (c_str_no_terminator (list_ascii_of_string data)) as Hfree.
    fold text in Hfree.
    eexists. split; [reflexivity|].
    split; [apply length_strncpy; exact Hn|].
    split; [rewrite drop_strncpy; exact Hlast|].
    cbv zeta. split.
    + intros Hshort. unfold strncpy. rewrite Hlast.
      rewrite take_app_ge by lia.
      destruct (n - length text)%nat as [|k] eqn:Hk; [lia|].
      rewrite take_replicate.
      replace (S k `min` n)%nat with (S k) by lia.
      cbn [replicate]. rewrite <- app_assoc. cbn [app].
      apply c_str_terminated. exact Hfree.
    + intros Hlong.
      assert (Htake : take n (text ++ replicate n NUL) = take n text)
        by (apply take_app_le; exact Hlong).
      split; [rewrite take_strncpy; exact Htake|].
      unfold strncpy. rewrite Htake, Hlast. split.
      * intros ->. apply c_str_terminated.
        apply Forall_take. exact Hfree.
      * intros Hnot. apply Forall_app. split.
        -- apply Forall_take. exact Hfree.
        -- constructor; [exact Hnot|constructor].
Qed.

End CharArrays.

Lemma substring_take (n : nat) (l : list ascii) :
  substring 0 n (string_of_list_ascii l) = string_of_list_ascii (take n l).
Proof.
  revert l. induction n as [|n IH]; intros [|c l]; cbn; try reflexivity.
  rewrite IH. reflexivity.
Qed.

Lemma c_str_padded (content : list ascii) (k : nat) :
  Forall (fun c => c <> NUL) content ->
  c_str (content ++ replicate k NUL) = content.
Proof.
  intros Hfree. destruct k as [|k]; cbn [replicate].
  - rewrite app_nil_r. apply c_str_unterminated. exact Hfree.
  - apply c_str_terminated. exact Hfree.
Qed.

Section CharArrayRoundTrip.
Context {Schema : Type} `{SchemaModel Schema}.
Variable std : variant.

(** X12.  C++11 header, a [char[Size]] through a parameter and back: the
    array holds a text and then terminators up to its end; its first
    [Size - 1] characters are bound, and read into another [char[Size]]
    they come back as they were, terminators included, while the last
    character of the receiving array stays what it was.  So the array
    read equals the array bound exactly when the receiving array ended in
    a terminator. *)
Theorem char_array_round_trip d (e : engine Schema) (Size : Z)
    (content out : list ascii) (k : nat) :
  Forall (fun c => c <> NUL) content ->
  Z.to_nat Size = (length content + S k)%nat ->
  length out = Z.to_nat Size ->
  let arg := content ++ replicate (S k) NUL in
  exists s e1 w res,
    db_execute std d sql_select_param
      (bcons (char_array_bind Size) arg bnil) e = (Ok s, e1)
    /\ statement_fetch (ccons (char_array_column Size) out cnil) (s, e1)
       = (Ok (true, ccons (char_array_column Size) res cnil), w)
    /\ res = take (Z.to_nat (Size - 1)) arg ++ drop (Z.to_nat (Size - 1)) out
    /\ (res = arg <-> drop (Z.to_nat (Size - 1)) out = [NUL]).
Proof.
  intros Hfree HSize Hout arg.
  assert (Hn : Z.to_nat (Size - 1) = (length content + k)%nat) by lia.
  assert (Htake : take (Z.to_nat (Size - 1)) arg = content ++ replicate k NUL).
  { subst arg. rewrite Hn, take_app_ge by lia.
    replace (length content + k - length content)%nat with k by lia.
    rewrite take_replicate. f_equal. f_equal. lia. }
  assert (Harg : arg = (content ++ replicate k NUL) ++ [NUL]).
  { subst arg. rewrite <- app_assoc. f_equal.
    change [NUL] with (replicate 1 NUL). rewrite <- replicate_add.
    f_equal. lia. }
  destruct (select_param_fetch std d (char_array_bind Size) arg
              (Text (string_of_list_ascii (take (Z.to_nat (Size - 1)) arg)))
              (char_array_column Size) out
              (take (Z.to_nat (Size - 1)) arg ++ drop (Z.to_nat (Size - 1)) out)
              e) as (s & e1 & w & Hrun & Hfetch).
  - intros e'. cbn [bind char_array_bind sqlite3_bind_text reference_engine].
    unfold bound_text. destruct (Z.ltb_spec (Size - 1) 0); [lia|].
    rewrite substring_take. reflexivity.
  - intros h e1 Hv.
    cbn [column char_array_column sqlite3_column_text reference_engine].
    rewrite Hv. cbn [value_to_text].
    rewrite list_ascii_of_string_of_list_ascii, Htake.
    rewrite (c_str_padded content k Hfree).
    unfold strncpy. rewrite Hn, take_app_ge by lia.
    replace (length content + k - length content)%nat with k by lia.
    rewrite take_replicate.
    replace (k `min` (length content + k))%nat with k by lia.
    reflexivity.
  - exists s, e1, w, (take (Z.to_nat (Size - 1)) arg ++ drop (Z.to_nat (Size - 1)) out).
    split; [exact Hrun|]. split; [exact Hfetch|]. split; [reflexivity|].
    rewrite Htake. rewrite Harg at 1. split.
    + intros Heq. apply app_inv_head in Heq. exact Heq.
    + intros ->. reflexivity.
Qed.

End CharArrayRoundTrip.

(** ** Every compiled statement is finalized *)

Lemma prepared_handles_app (l1 l2 : list call) :
  forall r, prepared_handles r (l1 ++ l2)
            = prepared_handles r l1 ++ prepared_handles (record_all l1 r) l2.
Proof.
  induction l1 as [|c l1 IH]; intros r; cbn [app prepared_handles].
  - rewrite record_all_nil. reflexivity.
  - rewrite IH, record_all_record, app_assoc. reflexivity.
Qed.

Lemma finalized_handles_app (l1 l2 : list call) :
  finalized_handles (l1 ++ l2) = finalized_handles l1 ++ finalized_handles l2.
Proof. apply omap_app. Qed.

Lemma statement_calls_finalize_nothing (l : list call) :
  forallb statement_call l = true -> finalized_handles l = [].
Proof.
  induction l as [|c l IH]; [reflexivity|].
  cbn [forallb]. intros Hl. apply andb_prop in Hl as [Hc Hl].
  destruct c; try discriminate Hc; cbn; apply IH; exact Hl.
Qed.

Lemma statement_calls_prepare_nothing (l : list call) :
  forallb statement_call l = true -> forall r, prepared_handles r l = [].
Proof.
  induction l as [|c l IH]; [reflexivity|].
  cbn [forallb]. intros Hl r. apply andb_prop in Hl as [Hc Hl].
  destruct c; try discriminate Hc; cbn [prepared_handles app]; apply IH;
    exact Hl.
Qed.

Lemma bind_calls_statement_calls st policy (l : list argument) :
  forall Index, forallb statement_call (bind_calls st policy Index l) = true.
Proof.
  induction l as [|a l IH]; intros Index; [reflexivity|].
  cbn [bind_calls forallb]. rewrite IH.
  destruct a as [v|v|t|t| |[v|]|[t|]]; reflexivity.
Qed.

Lemma execute_statement_calls st policy (l : list argument) :
  forallb statement_call
    (call_reset st :: bind_calls st policy 1 l ++ [call_step st]) = true.
Proof.
  cbn [forallb statement_call]. rewrite forallb_app, bind_calls_statement_calls.
  reflexivity.
Qed.

Lemma finalizes_ret {A} (a : A) : finalizes_what_it_compiles (mret a).
Proof.
  intros r. exists [], (Ok a). rewrite record_all_nil.
  split; [reflexivity|]. split; [discriminate|reflexivity].
Qed.

Lemma finalizes_bind {A B} (m : M recorder A) (k : A -> M recorder B) :
  finalizes_what_it_compiles m ->
  (forall a, finalizes_what_it_compiles (k a)) ->
  finalizes_what_it_compiles (m ≫= k).
Proof.
  intros Hm Hk r. destruct (Hm r) as (made & out & Hrun & Hdef & Hbal).
  unfold mbind, M_bind. rewrite Hrun. destruct out as [a|ex|].
  - destruct (Hk a (record_all made r)) as (made2 & out2 & Hrun2 & Hdef2 & Hbal2).
    exists (made ++ made2), out2. rewrite Hrun2, record_all_app.
    split; [reflexivity|]. split; [exact Hdef2|].
    rewrite finalized_handles_app, prepared_handles_app, Hbal, Hbal2.
    reflexivity.
  - exists made, (Throw ex). split; [reflexivity|]. split; [discriminate|exact Hbal].
  - contradiction.
Qed.

(** A statement obtained from the one-shot execute and used in a scope
    that keeps it: the scope's end finalizes it. *)
Lemma finalizes_scoped (std : variant) (d : db) (sql : string)
    (l : list argument) {A} (m : method A) :
  keeps_statement m ->
  finalizes_what_it_compiles
    (s ← db_execute std d sql (pack l); with_statement s m).
Proof.
  intros Hm r. destruct (db_execute_calls_aux std d sql l r) as [Hfail Hok].
  set (p := call_prepare (_db d) sql 0) in *.
  set (h := handle_of r (calls r) p) in *.
  unfold mbind, M_bind.
  destruct (status r (calls r) p =? SQLITE_OK) eqn:Hst.
  - apply Z.eqb_eq in Hst.
    destruct (Hok Hst) as (made & out & Hrun & Hstops & Hout).
    rewrite Hrun.
    pose proof (stops_statement_calls _ _ _ _ Hstops
                  (execute_statement_calls h TRANSIENT l)) as Hquiet.
    assert (Hprep : forall tail,
               prepared_handles r (p :: made ++ tail)
               = (if negb (h =? nullptr) then [h] else [])
                 ++ prepared_handles (record_all (p :: made) r) tail).
    { intros tail. cbn [prepared_handles]. fold p. fold h.
      rewrite (proj2 (Z.eqb_eq _ _) Hst). cbn [andb].
      rewrite prepared_handles_app,
        (statement_calls_prepare_nothing made Hquiet), record_all_record.
      reflexivity. }
    assert (Hfin : forall tail,
               finalized_handles (p :: made ++ tail) = finalized_handles tail).
    { intros tail. change (p :: made ++ tail) with ([p] ++ made ++ tail).
      rewrite !finalized_handles_app,
        (statement_calls_finalize_nothing made Hquiet). reflexivity. }
    destruct Hout as [[ex ->]| ->]; cbn [is_throw andb].
    + eexists _, (Throw ex). split; [reflexivity|]. split; [discriminate|].
      rewrite Hprep, Hfin. destruct (h =? nullptr); reflexivity.
    + rewrite app_nil_r. unfold with_statement.
      match goal with
      | |- context [m (?s0, ?r0)] =>
          destruct (Hm s0 r0) as (made2 & out2 & s' & Hrun2 & Hdef2 & Hs' & Hquiet2)
      end.
      rewrite Hrun2, record_all_app. cbn [_statement] in Hs'.
      unfold statement_dtor. rewrite Hs'.
      assert (Hend : finalized_handles
                       ((p :: made ++ made2)
                        ++ (if negb (h =? nullptr) then [call_finalize h] else []))
                     = prepared_handles r
                         ((p :: made ++ made2)
                          ++ (if negb (h =? nullptr) then [call_finalize h]
                              else []))).
      { cbn [app]. rewrite <- !app_assoc, Hprep, Hfin.
        rewrite finalized_handles_app, prepared_handles_app,
          (statement_calls_finalize_nothing made2 Hquiet2),
          (statement_calls_prepare_nothing made2 Hquiet2).
        destruct (h =? nullptr); reflexivity. }
      destruct out2 as [a|ex|]; [| |contradiction].
      * eexists _, (Ok a).
        split; [|split; [discriminate|exact Hend]].
        destruct (h =? nullptr); cbn [negb].
        -- rewrite app_nil_r. reflexivity.
        -- cbn [sqlite3_finalize recording_engine].
           rewrite record_one, record_all_app. reflexivity.
      * eexists _, (Throw ex).
        split; [|split; [discriminate|exact Hend]].
        destruct (h =? nullptr); cbn [negb].
        -- rewrite app_nil_r. reflexivity.
        -- cbn [sqlite3_finalize recording_engine].
           rewrite record_one, record_all_app. reflexivity.
  - apply Z.eqb_neq in Hst. destruct (Hfail Hst) as [ex Hrun]. rewrite Hrun.
    exists [p], (Throw ex). split; [reflexivity|]. split; [discriminate|].
    cbn [prepared_handles finalized_handles omap]. fold p.
    apply Z.eqb_neq in Hst. rewrite Hst. reflexivity.
Qed.

Lemma keeps_statement_ret {A} (a : A) : keeps_statement (mret a).
Proof.
  intros s r. exists [], (Ok a), s. rewrite record_all_nil.
  repeat split; discriminate.
Qed.

Lemma keeps_statement_fetch_int (v : Z) :
  keeps_statement
    (r ← statement_fetch (ccons int32_t_column v cnil); mret (chead (snd r))).
Proof.
  intros s r. unfold mbind at 1, M_bind at 1. rewrite statement_fetch_eq.
  destruct (_can_fetch s) eqn:Hcan; cbn [negb].
  - rewrite Hcan. cbn.
    eexists [], _, _. rewrite record_all_nil.
    split; [reflexivity|]. repeat split; discriminate.
  - rewrite statement_step_eq. cbn [sqlite3_step recording_engine].
    unfold answer. rewrite stepped_spec, record_one.
    destruct (stepped (status r (calls r) (call_step (_statement s))));
      cbn [negb _can_fetch].
    + destruct (status r (calls r) (call_step (_statement s)) =? SQLITE_ROW);
        cbn; eexists [_], _, _;
        (split; [reflexivity|]); repeat split; discriminate.
    + eexists [_], _, _. split; [reflexivity|]. repeat split; discriminate.
Qed.

Lemma finalizes_execute_discard (std : variant) (d : db) (sql : string)
    (l : list argument) :
  finalizes_what_it_compiles (s ← db_execute std d sql (pack l); discard s).
Proof.
  exact (finalizes_scoped std d sql l (mret tt) (keeps_statement_ret tt)).
Qed.

Lemma finalizes_apply_each (std : variant) (d : db) (its : list string) :
  forall distance, finalizes_what_it_compiles (apply_each std d distance its).
Proof.
  induction its as [|it its IH]; intros distance; cbn [apply_each].
  - apply finalizes_ret.
  - apply finalizes_bind; [apply (finalizes_execute_discard std d it [])|].
    intros _. apply finalizes_bind.
    + apply (finalizes_execute_discard std d sql_insert_version
               [arg_int64 (distance + 1)]).
    + intros _. apply IH.
Qed.

Lemma finalizes_apply_migrations (std : variant) (d : db) (ms : list string) :
  finalizes_what_it_compiles (apply_migrations std d ms).
Proof.
  unfold apply_migrations. apply finalizes_bind.
  - apply (finalizes_execute_discard std d sql_create_version_info []).
  - intros _. apply finalizes_bind.
    + apply (finalizes_scoped std d sql_max_version []).
      apply keeps_statement_fetch_int.
    + intros last_version.
      destruct (to_size_t last_version <? Z.of_nat (length ms)).
      * apply finalizes_bind.
        -- apply (finalizes_execute_discard std d
                    "BEGIN DEFERRED TRANSACTION" []).
        -- intros _. apply finalizes_bind; [apply finalizes_apply_each|].
           intros _. apply (finalizes_execute_discard std d
                              "COMMIT TRANSACTION" []).
      * apply finalizes_ret.
Qed.

(** X13.  Whatever the engine answers to each call and to each column
    read, so whatever version the ledger query reports and wherever the
    loop starts, [apply_migrations] returns or throws with every
    statement it compiled finalized: the handles it finalized are, in
    order, the handles its successful compilations handed out.  No
    statement is left open on any path: a first run, a run that extends
    the ledger, a run with nothing to do, and the failing ones. *)
Theorem apply_migrations_finalizes_statements (std : variant) (d : db)
    (ms : list string) (r : recorder) :
  exists made out,
    apply_migrations std d ms r = (out, record_all made r)
    /\ (out = Ok tt \/ exists ex, out = Throw ex)
    /\ finalized_handles made = prepared_handles r made.
Proof.
  destruct (finalizes_apply_migrations std d ms r)
    as (made & out & Hrun & Hdef & Hbal).
  exists made, out. split; [exact Hrun|]. split; [|exact Hbal].
  destruct out as [[]|ex|]; [left; reflexivity|right; eauto|contradiction].
Qed.

(** ** Runs on a ledger outside the expected range *)

Ltac conn_cbn :=
  cbn [conn retired current saved log now errmsg ledger schema
       set_current set_saved set_errmsg add_log set_conn] in *.

Section RunEdges.
Context {Schema : Type} `{SchemaModel Schema}.
Variable std : variant.

Lemma wrap32_range v : - 2 ^ 31 <= wrap32 v < 2 ^ 31.
Proof.
  unfold wrap32.
  pose proof (Z.mod_pos_bound (v + 2 ^ 31) (2 ^ 32) ltac:(lia)). lia.
Qed.

Lemma one_shot_begin_nested (c : connection Schema) snap :
  saved c = Some snap ->
  one_shot "BEGIN DEFERRED TRANSACTION" [] c =
  (SQLITE_ERROR, None,
   add_log (failed "BEGIN DEFERRED TRANSACTION" [] SQLITE_ERROR)
     (set_errmsg "cannot start a transaction within a transaction" c)).
Proof.
  intros Hs. unfold one_shot, run_logged, run. cbn [text params].
  rewrite classify_begin, Hs. reflexivity.
Qed.

(** The two statements before the size test. *)
Lemma version_is_read d (e : engine Schema) :
  exists e2,
    (create_version_info_table std d;; get_last_applied_version std d) e
    = (Ok (version_read e), e2)
    /\ current (conn e2) =
       {| ledger := Some (ledger_or_empty (current (conn e)));
          schema := schema (current (conn e)) |}
    /\ saved (conn e2) = saved (conn e)
    /\ log (conn e2) =
       log (conn e)
       ++ [done sql_create_version_info []; yielded sql_max_version []]
    /\ now (conn e2) = now (conn e).
Proof.
  munfold.
  destruct (create_version_info_table_ok std d e)
    as (e1 & Hrun1 & Hcur1 & Hsaved1 & Hlog1 & Hnow1).
  rewrite Hrun1.
  rewrite (get_last_applied_version_eq std d e1
             (ledger_or_empty (current (conn e))))
    by (rewrite Hcur1; reflexivity).
  eexists. split; [reflexivity|]. conn_cbn.
  rewrite Hcur1, Hsaved1, Hlog1, Hnow1, <- app_assoc. repeat split.
Qed.

Lemma apply_migrations_eq d ms (e : engine Schema) :
  apply_migrations std d ms e =
  match (create_version_info_table std d;; get_last_applied_version std d) e with
  | (Ok last_version, e2) =>
      if to_size_t last_version <? Z.of_nat (length ms)
      then (db_begin std d DEFERRED;;
            apply_each std d last_version (drop (Z.to_nat last_version) ms);;
            db_commit std d) e2
      else (Ok tt, e2)
  | (Throw ex, e2) => (Throw ex, e2)
  | (Undefined, e2) => (Undefined, e2)
  end.
Proof.
  unfold apply_migrations. munfold.
  destruct (create_version_info_table std d e) as [[[]|ex|] e1]; try reflexivity.
  destruct (get_last_applied_version std d e1) as [[v|ex|] e2]; try reflexivity.
  destruct (to_size_t v <? Z.of_nat (length ms)); reflexivity.
Qed.

(** X14.  A ledger whose maximum reads as a negative [int] (a negative
    version, or one from 2^31 on that the 32-bit read turns negative)
    switches the runner off: the comparison with the list length is made
    in [size_t], where the negative version is huge, so the run returns
    normally having executed only the table creation and the version
    query, however many migrations the list holds. *)
Theorem negative_version_applies_nothing d ms (e : engine Schema) :
  version_read e < 0 ->
  Z.of_nat (length ms) < 2 ^ 63 ->
  exists e',
    apply_migrations std d ms e = (Ok tt, e')
    /\ current (conn e') =
       {| ledger := Some (ledger_or_empty (current (conn e)));
          schema := schema (current (conn e)) |}
    /\ saved (conn e') = saved (conn e)
    /\ log (conn e') =
       log (conn e)
       ++ [done sql_create_version_info []; yielded sql_max_version []].
Proof.
  intros Hneg Hlen. rewrite apply_migrations_eq.
  destruct (version_is_read d e) as (e2 & Hrun & Hcur & Hsaved & Hlog & _).
  rewrite Hrun.
  pose proof (wrap32_range (current_version (ledger_or_empty (current (conn e)))))
    as Hrange. fold (version_read e) in Hrange.
  assert (Hsize : to_size_t (version_read e) = version_read e + 2 ^ 64).
  { unfold to_size_t.
    replace (version_read e) with (version_read e + 2 ^ 64 + (-1) * 2 ^ 64)
      at 1 by lia.
    rewrite Z_mod_plus_full. apply Z.mod_small. lia. }
  rewrite Hsize.
  destruct (Z.ltb_spec (version_read e + 2 ^ 64) (Z.of_nat (length ms)));
    [lia|].
  exists e2. repeat split; assumption.
Qed.

(** X15.  The runner takes the ledger maximum cut to 32 bits for the
    version: with no transaction open, if that number [w] is not negative
    and below the list length, the run executes the migrations from
    position [w] on and records them as versions [w + 1], [w + 2], ...  So
    a ledger at version 2^32 is treated as a new one: every migration is
    run again. *)
Theorem version_is_cut_to_32_bits d ms (e : engine Schema) sch' :
  saved (conn e) = None ->
  0 <= version_read e < Z.of_nat (length ms) ->
  forallb plain (drop (Z.to_nat (version_read e)) ms) = true ->
  run_bodies (version_read e) (drop (Z.to_nat (version_read e)) ms)
    (schema (current (conn e))) = Some sch' ->
  exists e',
    apply_migrations std d ms e = (Ok tt, e')
    /\ current (conn e') =
       {| ledger :=
            Some (ledger_or_empty (current (conn e))
                  ++ ledger_rows (now (conn e)) (version_read e)
                       (length ms - Z.to_nat (version_read e)));
          schema := sch' |}
    /\ saved (conn e') = None
    /\ log (conn e') =
       log (conn e)
       ++ [done sql_create_version_info []; yielded sql_max_version [];
           done "BEGIN DEFERRED TRANSACTION" []]
       ++ body_events (version_read e) (drop (Z.to_nat (version_read e)) ms)
       ++ [done "COMMIT TRANSACTION" []].
Proof.
  intros Hs Hw Hp Hr. rewrite apply_migrations_eq.
  destruct (version_is_read d e) as (e2 & Hrun & Hcur & Hsaved & Hlog & Hnow).
  rewrite Hrun.
  pose proof (wrap32_range (current_version (ledger_or_empty (current (conn e)))))
    as Hrange. fold (version_read e) in Hrange.
  set (w := version_read e) in *.
  rewrite to_size_t_small by lia.
  destruct (Z.ltb_spec w (Z.of_nat (length ms))) as [_|Hge]; [|lia].
  munfold.
  rewrite db_begin_ok by congruence.
  match goal with
  | |- context [apply_each std d w _ ?e3] =>
      destruct (apply_each_ok std d (drop (Z.to_nat w) ms) w e3
                  (ledger_or_empty (current (conn e))) sch'
                  ltac:(conn_cbn; rewrite Hcur; reflexivity) Hp
                  ltac:(conn_cbn; rewrite Hcur; exact Hr))
        as (e4 & Hrun4 & Hcur4 & Hsaved4 & Hlog4 & Hnow4)
  end.
  rewrite Hrun4. conn_cbn.
  rewrite (db_commit_ok std d e4 _ Hsaved4).
  eexists. split; [reflexivity|]. conn_cbn.
  rewrite Hcur4, Hlog4, Hlog, Hnow, length_drop.
  rewrite <- !app_assoc. repeat split.
Qed.

(** X16.  A run started while a transaction is open: with migrations
    pending, the runner's own BEGIN is refused and the exception leaves
    before any body ran, with the caller's transaction still open; with
    nothing pending the run returns normally.  In both cases the ledger
    table was created inside the caller's transaction. *)
Theorem run_inside_open_transaction d ms (e : engine Schema) snap :
  saved (conn e) = Some snap ->
  0 <= version_read e ->
  exists out e',
    apply_migrations std d ms e = (out, e')
    /\ out = (if version_read e <? Z.of_nat (length ms)
              then Throw {| what :=
                              "cannot start a transaction within a transaction" |}
              else Ok tt)
    /\ current (conn e') =
       {| ledger := Some (ledger_or_empty (current (conn e)));
          schema := schema (current (conn e)) |}
    /\ saved (conn e') = Some snap
    /\ log (conn e') =
       log (conn e)
       ++ [done sql_create_version_info []; yielded sql_max_version []]
       ++ (if version_read e <? Z.of_nat (length ms)
           then [failed "BEGIN DEFERRED TRANSACTION" [] SQLITE_ERROR]
           else []).
Proof.
  intros Hs Hw. rewrite apply_migrations_eq.
  destruct (version_is_read d e) as (e2 & Hrun & Hcur & Hsaved & Hlog & Hnow).
  rewrite Hrun.
  pose proof (wrap32_range (current_version (ledger_or_empty (current (conn e)))))
    as Hrange. fold (version_read e) in Hrange.
  set (w := version_read e) in *.
  rewrite to_size_t_small by lia.
  destruct (w <? Z.of_nat (length ms)).
  - munfold. unfold db_begin. munfold.
    pose proof (execute_and_drop std d "BEGIN DEFERRED TRANSACTION" e2
                  ltac:(reflexivity) ltac:(reflexivity)) as Hbegin.
    munfold.
    rewrite (one_shot_begin_nested (conn e2) snap) in Hbegin by congruence.
    cbn [stepped] in Hbegin.
    change (stepped SQLITE_ERROR) with false in Hbegin.
    rewrite Hbegin. conn_cbn.
    eexists _, _. split; [reflexivity|]. conn_cbn.
    rewrite Hcur, Hsaved, Hlog, Hs, <- app_assoc. repeat split.
  - exists (Ok tt), e2. rewrite app_nil_r, Hsaved, Hs. repeat split; assumption.
Qed.

End RunEdges.

(** ** A statement used more than once *)

Section StatementReuse.
Context {Schema : Type} `{SchemaModel Schema}.
Variable std : variant.

Lemma ref_step_on_row (st : stmt) r (c : connection Schema) (e : engine Schema) :
  position st = HasRow r ->
  ref_step (fresh_handle e) (compiled (Some st) c e) =
  (SQLITE_DONE, compiled (Some (with_position Done st)) c e).
Proof.
  intros Hp. unfold ref_step. rewrite stmt_at_compiled, Hp.
  rewrite set_stmt_compiled. reflexivity.
Qed.

(** Execute on a compiled [SELECT ?], whatever was bound before and
    whether or not a row is pending. *)
Lemma execute_select_param (a : argument) can (st : stmt)
    (c : connection Schema) (e : engine Schema) :
  text st = sql_select_param ->
  length (params st) = 1%nat ->
  (forall rc, position st <> Failed rc) ->
  statement_execute (pack [a])
    ({| _can_fetch := can; _statement := fresh_handle e |},
     compiled (Some st) c e)
  = (Ok tt,
     ({| _can_fetch := true; _statement := fresh_handle e |},
      compiled (Some {| text := sql_select_param; params := [stored a];
                        position := HasRow [stored a] |})
        (add_log (yielded sql_select_param [stored a]) c) e)).
Proof.
  intros Htext Hlen Hpos.
  destruct st as [sql ps pos]. cbn [text params position] in *. subst sql.
  destruct ps as [|p [|? ?]]; try discriminate Hlen.
  destruct (pack_one_stored a e) as (T & tr & arg & -> & Hb).
  rewrite statement_execute_eq, statement_execute_policy_eq, statement_reset_eq.
  cbn [_statement sqlite3_reset reference_engine].
  rewrite ref_reset_compiled. unfold with_position. cbn [position text params].
  assert (Hrc : match pos with Failed rc => rc | _ => SQLITE_OK end = SQLITE_OK).
  { destruct pos; try reflexivity. exfalso. exact (Hpos _ eq_refl). }
  rewrite Hrc. cbn [negb Z.eqb SQLITE_OK].
  rewrite statement_bind_cons. cbn [_statement]. rewrite Hb.
  rewrite ref_bind_compiled by reflexivity.
  unfold with_params. cbn [params length text position].
  change (Z.of_nat 1) with 1.
  change ((1 <=? 1) && (1 <=? 1)) with true.
  change (<[Z.to_nat (1 - 1):=stored a]> [p]) with [stored a].
  cbn [negb Z.eqb SQLITE_OK].
  rewrite statement_bind_nil, statement_step_eq.
  cbn [_statement sqlite3_step reference_engine].
  rewrite ref_step_compiled by reflexivity.
  pose proof (one_shot_select_param (stored a) c) as Hrun.
  unfold one_shot in Hrun. rewrite Hrun. reflexivity.
Qed.

(** X17.  A one-row result is fetched once: after the one-shot execute
    of [SELECT ?] the first fetch reports the row and reads it without
    stepping the statement; the second fetch steps, finds no further row,
    reports false and leaves its outputs as they were; the statement has
    run once. *)
Theorem fetch_ends_after_the_row d (e : engine Schema) (a : argument)
    (o o2 : output) :
  exists s e1 args' s2 e3,
    db_execute std d sql_select_param (pack [a]) e = (Ok s, e1)
    /\ statement_fetch (outputs [o]) (s, e1) = (Ok (true, args'), (s2, e1))
    /\ values [o] args' = [converted (stored a) o]
    /\ statement_fetch (outputs [o2]) (s2, e1)
       = (Ok (false, outputs [o2]), (s2, e3))
    /\ log (conn e3)
       = log (conn e) ++ [yielded sql_select_param [stored a]].
Proof.
  destruct (pack_one_stored a e) as (T & tr & arg & -> & Hb).
  rewrite (db_execute_select_param std d tr arg _ e Hb).
  set (st := {| text := sql_select_param; params := [stored a];
                position := HasRow [stored a] |}).
  set (c := add_log (yielded sql_select_param [stored a]) (conn e)).
  destruct (proj1 (fetch_reads_columns_by_position_aux [o]
                     {| _can_fetch := true; _statement := fresh_handle e |}
                     (compiled (Some st) c e)) eq_refl)
    as (args' & Hfetch & Hval).
  eexists _, _, args', _, _. split; [reflexivity|].
  split; [exact Hfetch|]. split.
  { rewrite Hval. cbn [read_outputs _statement]. f_equal.
    apply read_output_converted. rewrite column_value_compiled. reflexivity. }
  cbn [_statement]. rewrite statement_fetch_eq. cbn [_can_fetch negb].
  rewrite statement_step_eq. cbn [_statement sqlite3_step reference_engine].
  rewrite (ref_step_on_row st [stored a] c e eq_refl).
  change (SQLITE_DONE =? SQLITE_ROW) with false.
  change (SQLITE_DONE =? SQLITE_DONE) with true.
  cbn [negb andb _can_fetch].
  split; reflexivity.
Qed.

(** X18.  A prepared statement is reused: [db::prepare] compiles without
    running; a second execute discards the row of the first that was
    never fetched, binds anew, and the fetch reads what the second
    execute bound; the statement has run twice. *)
Theorem prepared_statement_is_reused d (e : engine Schema) (flags : Z)
    (a b : argument) (o : output) :
  exists s0 e0 w1 w2 args' w3,
    db_prepare std d sql_select_param flags e = (Ok s0, e0)
    /\ log (conn e0) = log (conn e)
    /\ statement_execute (pack [a]) (s0, e0) = (Ok tt, w1)
    /\ statement_execute (pack [b]) w1 = (Ok tt, w2)
    /\ statement_fetch (outputs [o]) w2 = (Ok (true, args'), w3)
    /\ values [o] args' = [converted (stored b) o]
    /\ log (conn (snd w3))
       = log (conn e)
         ++ [yielded sql_select_param [stored a];
             yielded sql_select_param [stored b]].
Proof.
  unfold db_prepare, statement_ctor. cbn [sqlite3_prepare_v3 reference_engine].
  rewrite (ref_prepare_ok _ _ _ _ (compile_error_select_param (conn e))).
  cbn [negb Z.eqb SQLITE_OK].
  pose proof (execute_select_param a false (new_stmt sql_select_param)
                (conn e) e eq_refl eq_refl ltac:(discriminate)) as Hfirst.
  pose proof (execute_select_param b true
                {| text := sql_select_param; params := [stored a];
                   position := HasRow [stored a] |}
                (add_log (yielded sql_select_param [stored a]) (conn e))
                e eq_refl eq_refl ltac:(discriminate)) as Hsecond.
  set (st := {| text := sql_select_param; params := [stored b];
                position := HasRow [stored b] |}) in *.
  set (c := add_log (yielded sql_select_param [stored b])
              (add_log (yielded sql_select_param [stored a]) (conn e))) in *.
  destruct (proj1 (fetch_reads_columns_by_position_aux [o]
                     {| _can_fetch := true; _statement := fresh_handle e |}
                     (compiled (Some st) c e)) eq_refl)
    as (args' & Hfetch & Hval).
  eexists _, _, _, _, args', _. split; [reflexivity|].
  split; [reflexivity|]. split; [exact Hfirst|]. split; [exact Hsecond|].
  split; [exact Hfetch|]. split.
  - rewrite Hval. cbn [read_outputs _statement]. f_equal.
    apply read_output_converted. rewrite column_value_compiled. reflexivity.
  - cbn [snd conn compiled log add_log c]. rewrite <- app_assoc. reflexivity.
Qed.

End StatementReuse.

(** ** Transaction control and the connection's lifetime *)

Lemma executes_once_execute_discard (std : variant) (d : db) (sql : string)
    (r : recorder) :
  executes_once (s ← db_execute std d sql bnil; discard s) (_db d) sql r.
Proof.
  unfold executes_once.
  destruct (db_execute_calls_aux std d sql [] r) as [Hfail Hok].
  set (p := call_prepare (_db d) sql 0) in *.
  set (h := handle_of r (calls r) p) in *.
  cbn [pack bind_calls app] in Hfail, Hok.
  unfold mbind, M_bind.
  change (accepted r p) with (status r (calls r) p =? SQLITE_OK).
  destruct (status r (calls r) p =? SQLITE_OK) eqn:Hst; cbn [andb].
  - apply Z.eqb_eq in Hst.
    destruct (Hok Hst) as (made & out & Hrun & Hstops & Hout).
    rewrite Hrun.
    assert (Hp : accepted r p = true) by (apply Z.eqb_eq; exact Hst).
    destruct Hout as [[ex ->]| ->]; cbn [is_throw andb negb] in *.
    + exists (p :: made), (Throw ex). split; [reflexivity|].
      split; [right; eauto|]. apply stops_cons; assumption.
    + exists (p :: made), (Ok tt). rewrite app_nil_r.
      split; [|split; [left; reflexivity|apply stops_cons; assumption]].
      unfold discard, statement_dtor. cbn [_statement].
      destruct (h =? nullptr); cbn [negb].
      * rewrite app_nil_r. reflexivity.
      * cbn [sqlite3_finalize recording_engine].
        rewrite record_one, record_all_app. reflexivity.
  - apply Z.eqb_neq in Hst. destruct (Hfail Hst) as [ex Hrun]. rewrite Hrun.
    exists [p], (Throw ex). split; [reflexivity|]. split; [right; eauto|].
    cbn [is_throw negb]. apply stops_here.
    apply Z.eqb_neq. exact Hst.
Qed.

(** X19.  [db::begin], [db::commit] and [db::rollback] each execute one
    text for its effect: BEGIN with the word of the transaction type,
    COMMIT TRANSACTION, ROLLBACK TRANSACTION.  Whatever the engine
    answers, the text is compiled with flags 0, reset and stepped with
    nothing bound; the first failing call ends the operation with an
    exception; a compiled statement is finalized before the operation
    returns or throws. *)
Theorem transaction_control_calls (std : variant) (d : db)
    (type : transaction_type) (r : recorder) :
  executes_once (db_begin std d type) (_db d) (begin_text type) r
  /\ executes_once (db_commit std d) (_db d) "COMMIT TRANSACTION" r
  /\ executes_once (db_rollback std d) (_db d) "ROLLBACK TRANSACTION" r.
Proof.
  split; [|split].
  - destruct type; apply executes_once_execute_discard.
  - apply executes_once_execute_discard.
  - apply executes_once_execute_discard.
Qed.

(** X20.  A connection handle is closed exactly once: when the open
    fails, the constructor closes the handle the engine handed out
    (before the exception reads the message) and throws, so no object
    and no destructor exist; when it succeeds, the constructor closes
    nothing and the destructor of the object closes the handle. *)
Theorem connection_closed_once (filename : string) (flags : Z)
    (r : recorder) :
  exists out r1,
    db_ctor filename flags r = (out, r1)
    /\ (if status r (calls r) (call_open filename flags) =? SQLITE_OK
        then out = Ok {| _db := handle_of r (calls r)
                                  (call_open filename flags) |}
             /\ r1 = record_all [call_open filename flags] r
             /\ (handle_of r (calls r) (call_open filename flags) <> nullptr ->
                 db_dtor {| _db := handle_of r (calls r)
                                     (call_open filename flags) |} r1
                 = record_all
                     [call_open filename flags;
                      call_close (handle_of r (calls r)
                                    (call_open filename flags))] r)
        else (exists ex, out = Throw ex)
             /\ r1 = record_all
                       [call_open filename flags;
                        call_close (handle_of r (calls r)
                                      (call_open filename flags))] r).
Proof.
  unfold db_ctor. cbn [sqlite3_open_v2 sqlite3_close_v2 recording_engine].
  set (c := call_open filename flags). set (h := handle_of r (calls r) c).
  destruct (status r (calls r) c =? SQLITE_OK); cbn [negb].
  - eexists _, _. split; [reflexivity|]. split; [reflexivity|].
    split; [reflexivity|]. intros Hh. unfold db_dtor. cbn [_db].
    apply Z.eqb_neq in Hh. rewrite Hh.
    cbn [negb sqlite3_close_v2 recording_engine].
    rewrite !record_one, record_all_app. reflexivity.
  - eexists _, _. split; [reflexivity|]. split; [eauto|].
    rewrite !record_one, record_all_app. reflexivity.
Qed.

(** ** What the exception says *)

Section Messages.
Context {Schema : Type} `{SchemaModel Schema}.

(** X21.  The message of the exception on the reference engine.  When the
    text does not compile, the C++17 header reports the engine's message
    alone and the C++11 header puts the statement text before it; no
    statement is created and nothing is run.  When the text compiles and
    the step fails, both headers report the engine's message alone, so
    the C++11 message names the text only for a compilation failure. *)
Theorem exception_names_text_on_compile_failure (d : db) (sql : string)
    (flags : Z) (e : engine Schema) :
  (forall msg,
      compile_error sql (conn e) = Some msg ->
      db_prepare Cpp17 d sql flags e
      = (Throw {| what := msg |}, set_conn (set_errmsg msg (conn e)) e)
      /\ db_prepare Cpp11 d sql flags e
         = (Throw {| what := String.append "'"
                               (String.append sql
                                  (String.append "' failed: " msg)) |},
            set_conn (set_errmsg msg (conn e)) e)
      /\ forall std args,
           db_execute std d sql args e = db_prepare std d sql 0 e)
  /\ (forall rc row c',
         compile_error sql (conn e) = None ->
         run_logged (new_stmt sql) (conn e) = (rc, row, c') ->
         stepped rc = false ->
         forall std,
           db_execute std d sql bnil e
           = (Throw {| what := errmsg c' |}, retired c' e)).
Proof.
  split.
  - intros msg Hc. unfold db_prepare, db_execute, statement_ctor.
    cbn [sqlite3_prepare_v3 reference_engine].
    rewrite !(ref_prepare_error _ _ _ _ _ Hc).
    cbn [negb Z.eqb SQLITE_OK SQLITE_ERROR].
    split; [reflexivity|]. split; [reflexivity|].
    intros std args. reflexivity.
  - intros rc row c' Hc Hrun Hrc std.
    rewrite (db_execute_bnil std d sql e Hc), Hrun, Hrc. reflexivity.
Qed.

End Messages.

(** ** Further examples *)

(** X1 at the pending row of [SELECT ?] bound to 42. *)
Lemma fetch_reads_columns_by_position_witness :
  exists args' w,
    statement_fetch (outputs [out_int64 7]) (fst demo_row, snd demo_row)
    = (Ok (true, args'), w)
    /\ values [out_int64 7] args' = [out_int64 42].
Proof.
  destruct (fetch_reads_columns_by_position [out_int64 7]
              (fst demo_row) (snd demo_row)) as [Hpending _].
  destruct (Hpending ltac:(vm_compute; reflexivity))
    as (args' & Hrun & Hval).
  exists args'. eexists. split; [exact Hrun|].
  rewrite Hval. vm_compute. reflexivity.
Defined.

(** X3 on the recorder that rejects the bind of the second parameter. *)
Lemma db_execute_calls_witness :
  exists made out,
    db_execute Cpp17 demo_db "INSERT INTO t VALUES (?, ?, ?)"
      (pack [arg_int32 1; arg_string "x"; arg_int32 3]) demo_recorder_range
    = (out,
       record_all
         (call_prepare 1 "INSERT INTO t VALUES (?, ?, ?)" 0 :: made
          ++ (if is_throw out then [call_finalize 7] else []))
         demo_recorder_range).
Proof.
  destruct (db_execute_calls Cpp17 demo_db "INSERT INTO t VALUES (?, ?, ?)"
              [arg_int32 1; arg_string "x"; arg_int32 3] demo_recorder_range)
    as [_ Hok].
  destruct (Hok ltac:(reflexivity) ltac:(discriminate))
    as (made & out & Hrun & _).
  exists made, out. exact Hrun.
Defined.

(** X4 at 42. *)
Lemma integers_round_trip_witness :
  reads_back Cpp17 demo_db demo_fresh (arg_int32 42) (out_int32 7)
    (out_int32 42)
  /\ reads_back Cpp17 demo_db demo_fresh (arg_int64 (2 ^ 40)) (out_int64 7)
       (out_int64 (2 ^ 40)).
Proof.
  split.
  - apply (proj1 (integers_round_trip Cpp17 demo_db demo_fresh 42 7)). lia.
  - apply (proj1 (proj2 (integers_round_trip Cpp17 demo_db demo_fresh
                           (2 ^ 40) 7))). lia.
Defined.

(** X6 at a bound [nullptr]. *)
Lemma null_reads_as_zero_or_empty_witness :
  reads_back Cpp17 demo_db demo_fresh arg_nullptr (out_int32 7) (out_int32 0).
Proof.
  apply (proj1 (null_reads_as_zero_or_empty Cpp17 demo_db demo_fresh
                  arg_nullptr 7 "old" eq_refl)).
Defined.

(** X7 at 5. *)
Lemma present_optional_round_trip_witness :
  reads_back Cpp17 demo_db demo_fresh (arg_optional_int64 (Some 5))
    (out_optional_int64 None) (out_optional_int64 (Some 5)).
Proof.
  apply (proj1 (present_optional_round_trip Cpp17 demo_db demo_fresh 5 7 None
                  ltac:(lia))).
Defined.

(** X8 at the [uint8_t] value 200. *)
Lemma integral_round_trip_witness :
  exists s e1 w,
    db_execute Cpp11 demo_db sql_select_param
      (bcons (small_integral_bind uint8_t) 200 bnil) demo_fresh = (Ok s, e1)
    /\ statement_fetch (ccons (small_integral_column uint8_t) 0 cnil) (s, e1)
       = (Ok (true, ccons (small_integral_column uint8_t) 200 cnil), w).
Proof.
  apply (proj1 (integral_round_trip Cpp11 demo_db demo_fresh uint8_t 200 0
                  ltac:(cbv [representable uint8_t is_signed bits]; lia))).
  cbv [uint8_t bits]. lia.
Defined.

(** X10 at an enumerator 200 over [uint8_t]. *)
Lemma enum_round_trip_witness :
  exists s e1 w,
    db_execute Cpp11 demo_db sql_select_param
      (bcons (enum_bind uint8_t (small_integral_bind uint8_t)) 200 bnil)
      demo_fresh = (Ok s, e1)
    /\ statement_fetch
         (ccons (enum_column uint8_t (small_integral_column uint8_t) 77) 0 cnil)
         (s, e1)
       = (Ok (true,
              ccons (enum_column uint8_t (small_integral_column uint8_t) 77)
                200 cnil), w).
Proof.
  apply (enum_round_trip Cpp11 demo_db demo_fresh uint8_t 200 0 77).
  - cbv [uint8_t bits]. lia.
  - cbv [representable uint8_t is_signed bits]. lia.
Defined.

(** X11 at a [char[4]] that ends in a terminator and the text [hello]:
    the array reads as [hel]. *)
Lemma char_array_column_truncates_witness :
  exists arg',
    column (char_array_column 4) (_statement (fst demo_text_row)) 0
      ["x"; "x"; "x"; NUL]%char (snd demo_text_row)
    = (Ok arg', snd demo_text_row)
    /\ c_str arg' = ["h"; "e"; "l"]%char.
Proof.
  destruct (char_array_column_truncates 4 (_statement (fst demo_text_row)) 0
              ["x"; "x"; "x"; NUL]%char NUL (snd demo_text_row)
              ltac:(lia) ltac:(reflexivity) ltac:(reflexivity))
    as [_ Hsome].
  destruct (Hsome "hello" ltac:(vm_compute; reflexivity))
    as (arg' & Hrun & _ & _ & _ & Hlong).
  destruct (Hlong ltac:(vm_compute; lia)) as (_ & Hnul & _).
  exists arg'. split; [exact Hrun|]. rewrite (Hnul eq_refl). reflexivity.
Defined.

(** X12 at the [char[4]] holding [ab]. *)
Lemma char_array_round_trip_witness :
  exists s e1 w res,
    db_execute Cpp11 demo_db sql_select_param
      (bcons (char_array_bind 4) ["a"; "b"; NUL; NUL]%char bnil) demo_fresh
    = (Ok s, e1)
    /\ statement_fetch
         (ccons (char_array_column 4) ["x"; "x"; "x"; NUL]%char cnil) (s, e1)
       = (Ok (true, ccons (char_array_column 4) res cnil), w)
    /\ res = ["a"; "b"; NUL; NUL]%char.
Proof.
  pose proof (char_array_round_trip Cpp11 demo_db demo_fresh 4
                ["a"; "b"]%char ["x"; "x"; "x"; NUL]%char 1
                ltac:(repeat constructor; discriminate)
                ltac:(reflexivity) ltac:(reflexivity)) as Hw.
  cbv zeta in Hw. destruct Hw as (s & e1 & w & res & Hrun & Hfetch & Hres & _).
  exists s, e1, w, res. split; [exact Hrun|]. split; [exact Hfetch|].
  rewrite Hres. reflexivity.
Defined.

(** X14 at a ledger whose only row has version -1. *)
Lemma negative_version_applies_nothing_witness :
  exists e',
    apply_migrations Cpp17 demo_db demo_abc demo_negative = (Ok tt, e')
    /\ current (conn e') = current (conn demo_negative).
Proof.
  destruct (negative_version_applies_nothing Cpp17 demo_db demo_abc
              demo_negative ltac:(vm_compute; reflexivity)
              ltac:(vm_compute; reflexivity))
    as (e' & Hrun & Hcur & _).
  exists e'. split; [exact Hrun|]. rewrite Hcur. reflexivity.
Defined.

(** X15 at a ledger whose only row has version 2^32: the three
    migrations are run again as versions 1, 2 and 3. *)
Lemma version_is_cut_to_32_bits_witness :
  exists e',
    apply_migrations Cpp17 demo_db demo_abc demo_wide = (Ok tt, e')
    /\ ledger (current (conn e'))
       = Some [demo_row_at (2 ^ 32); demo_row_at 1; demo_row_at 2;
               demo_row_at 3].
Proof.
  destruct (version_is_cut_to_32_bits Cpp17 demo_db demo_abc demo_wide
              demo_abc
              ltac:(reflexivity)
              ltac:(vm_compute; split; [discriminate|reflexivity])
              ltac:(vm_compute; reflexivity)
              ltac:(vm_compute; reflexivity))
    as (e' & Hrun & Hcur & _).
  exists e'. split; [exact Hrun|]. rewrite Hcur. vm_compute. reflexivity.
Defined.

(** X16 at a new database inside a transaction of the caller. *)
Lemma run_inside_open_transaction_witness :
  fst (apply_migrations Cpp17 demo_db demo_abc demo_in_transaction)
  = Throw {| what := "cannot start a transaction within a transaction" |}.
Proof.
  destruct (run_inside_open_transaction Cpp17 demo_db demo_abc
              demo_in_transaction {| ledger := None; schema := [] |}
              ltac:(reflexivity) ltac:(vm_compute; discriminate))
    as (out & e' & Hrun & Hout & _).
  rewrite Hrun. cbn [fst]. rewrite Hout. reflexivity.
Defined.

(** X21 at a text that does not compile. *)
Lemma exception_names_text_on_compile_failure_witness :
  fst (db_prepare Cpp17 demo_db "not sql" 1 demo_fresh)
  = Throw {| what := "syntax error" |}
  /\ fst (db_prepare Cpp11 demo_db "not sql" 1 demo_fresh)
     = Throw {| what := "'not sql' failed: syntax error" |}.
Proof.
  destruct (exception_names_text_on_compile_failure demo_db "not sql" 1
              demo_fresh) as [Hcompile _].
  destruct (Hcompile "syntax error" ltac:(vm_compute; reflexivity))
    as (H17 & H11 & _).
  rewrite H17, H11. split; reflexivity.
Defined.

(** X13 on a recorder whose version query reads 2: of three migrations
    only the third is run, and the six statements compiled (table
    creation, version query, BEGIN, the body, its ledger insert, COMMIT)
    are finalized in that order. *)
Lemma apply_migrations_finalizes_statements_witness :
  exists made,
    apply_migrations Cpp17 demo_db demo_abc demo_recorder_at_two
    = (Ok tt, record_all made demo_recorder_at_two)
    /\ finalized_handles made = prepared_handles demo_recorder_at_two made
    /\ finalized_handles made = [7; 8; 7; 7; 7; 7]
    /\ In (call_prepare 1 "CREATE TABLE c" 0) made
    /\ ~ In (call_prepare 1 "CREATE TABLE a" 0) made
    /\ In (call_bind_int64 7 1 3) made.
Proof.
  destruct (apply_migrations_finalizes_statements Cpp17 demo_db demo_abc
              demo_recorder_at_two) as (made & out & Hrun & _ & Hbal).
  assert (Hmade : made
                  = calls (snd (apply_migrations Cpp17 demo_db demo_abc
                                  demo_recorder_at_two)))
    by (rewrite Hrun; reflexivity).
  assert (Hout : out
                 = fst (apply_migrations Cpp17 demo_db demo_abc
                          demo_recorder_at_two))
    by (rewrite Hrun; reflexivity).
  vm_compute in Hmade. vm_compute in Hout. subst out.
  exists made. split; [exact Hrun|]. split; [exact Hbal|].
  subst made. split; [reflexivity|].
  split; [cbn; tauto|]. split; [|cbn; tauto].
  cbn. intros Hin.
  repeat (destruct Hin as [Hin|Hin]; [discriminate Hin|]). exact Hin.
Defined.
